(** * Flight search service: a shallow embedding of [FlightApiService]

    The embedding follows the TypeScript class [FlightApiService]: token
    handling ([getAccessToken], [loadStoredToken]), airport lookup
    ([getAirports], [getMockAirports]), offer normalisation (the callback
    of [searchFlights]) and the synthetic price history
    ([getPriceHistory]).

    The components [PriceGraph] and [App] follow as the functions of
    their state that their handlers and effects compute: the trend, the
    selected price and the range of the graph, the filtered and sorted
    list of flights, the price range, the filter boxes and the search.

    - JavaScript numbers are IEEE-754 binary64 values: the Standard
      Library's [spec_float] with its operations at precision 53 and
      maximal exponent 1024, so that NaN, the infinities, the signed zeros
      and every rounding are those of the runtime.
    - Strings are [string]; [localStorage] is a finite map from keys to
      strings.
    - A [Date] is its time value; the calendar functions are those of
      ECMA-262, and the local time zone is a parameter of the host.
    - The asynchronous methods are computations in a state-and-exception
      monad over the service object, the storage, the clock readings, the
      random draws and the log of requests; the provider's answers, the
      clock, the time zone and the random source are given by the host. *)

From Stdlib Require Import ZArith List Bool Lia Floats Sorted Permutation.
From Stdlib Require Import Ascii String DecimalString.
From stdpp Require Import gmap strings.

#[local] Set Warnings "-inexact-float".

Local Open Scope string_scope.
Local Open Scope Z_scope.

(** * JavaScript numbers *)

Module Num.

Definition number := spec_float.

Definition add : number -> number -> number := SFadd prec emax.
Definition sub : number -> number -> number := SFsub prec emax.
Definition mul : number -> number -> number := SFmul prec emax.
Definition div : number -> number -> number := SFdiv prec emax.

(** The Number value of a mathematical integer. *)
Definition of_Z (n : Z) : number := binary_normalize prec emax n 0 false.

Definition NaN : number := S754_nan.

(** Literals of the source, as the doubles they denote. *)
Definition n0_4 : number := Eval vm_compute in Prim2SF 0.4%float.
Definition n0_5 : number := Eval vm_compute in Prim2SF 0.5%float.
Definition n0_6 : number := Eval vm_compute in Prim2SF 0.6%float.
Definition n1_0 : number := Eval vm_compute in Prim2SF 1.0%float.
Definition n1_1 : number := Eval vm_compute in Prim2SF 1.1%float.
Definition n1_15 : number := Eval vm_compute in Prim2SF 1.15%float.
Definition n1_2 : number := Eval vm_compute in Prim2SF 1.2%float.
Definition n250 : number := Eval vm_compute in Prim2SF 250%float.
Definition n1000 : number := Eval vm_compute in Prim2SF 1000%float.

Definition is_nan (x : number) : bool :=
  match x with S754_nan => true | _ => false end.

Definition is_finite (x : number) : bool :=
  match x with S754_zero _ | S754_finite _ _ _ => true | _ => false end.

(** [Number.isInteger]: finite, with no fractional part. *)
Definition is_integer (x : number) : bool :=
  match x with
  | S754_zero _ => true
  | S754_finite _ m e => (0 <=? e) || (Zpos m mod 2 ^ (- e) =? 0)
  | _ => false
  end.

(** [x >= y] of JavaScript: false as soon as one side is NaN. *)
Definition ge (x y : number) : bool := SFleb y x.

(** [Math.round]: the nearest integer, ties towards +Infinity; NaN, the
    infinities and the zeros are returned unchanged, and a result of zero
    keeps the sign of the argument. *)
Definition Math_round (x : number) : number :=
  match x with
  | S754_finite s m e =>
      if 0 <=? e then x
      else
        let k := - e in
        let n := (2 * cond_Zopp s (Zpos m) + 2 ^ k) / 2 ^ (k + 1) in
        if n =? 0 then S754_zero s else of_Z n
  | _ => x
  end.

(** [Math.max] of two arguments: NaN if either is NaN, and +0 is larger
    than -0. *)
Definition Math_max (x y : number) : number :=
  match SFcompare x y with
  | None => NaN
  | Some Lt => y
  | Some Gt => x
  | Some Eq =>
      match x, y with
      | S754_zero true, S754_zero false => y
      | _, _ => x
      end
  end.

(** The integral part of a finite number, towards zero. *)
Definition truncate (x : number) : option Z :=
  match x with
  | S754_zero _ => Some 0
  | S754_finite s m e =>
      Some (cond_Zopp s (if 0 <=? e then Zpos m * 2 ^ e else Zpos m / 2 ^ (- e)))
  | S754_infinity _ | S754_nan => None
  end.

End Num.

(** * JavaScript strings

    Strings are sequences of one-byte characters; [toLowerCase] folds the
    ASCII letters, which covers the airport catalog and the provider's
    codes. *)

Module Str.

Definition lower_char (c : ascii) : ascii :=
  let n := nat_of_ascii c in
  if (65 <=? n)%nat && (n <=? 90)%nat then ascii_of_nat (n + 32) else c.

Fixpoint toLowerCase (s : string) : string :=
  match s with
  | EmptyString => EmptyString
  | String c r => String (lower_char c) (toLowerCase r)
  end.

(** [s.includes(q)]: [q] occurs in [s] as a contiguous substring. *)
Fixpoint includes (s q : string) : bool :=
  String.prefix q s ||
  match s with
  | EmptyString => false
  | String _ r => includes r q
  end.

(** [s.split(c)] for a one-character separator. *)
Fixpoint split (c : ascii) (s : string) : list string :=
  match s with
  | EmptyString => [EmptyString]
  | String a r =>
      if Ascii.eqb a c then EmptyString :: split c r
      else match split c r with
           | h :: t => String a h :: t
           | [] => [String a EmptyString]
           end
  end.

Fixpoint drop (n : nat) (s : string) : string :=
  match n, s with
  | O, _ => s
  | S _, EmptyString => EmptyString
  | S n', String _ r => drop n' r
  end.

(** [s.replace(pat, rep)] with a string pattern: the first occurrence only. *)
Fixpoint replace (pat rep s : string) : string :=
  if String.prefix pat s then rep ++ drop (String.length pat) s
  else match s with
       | EmptyString => EmptyString
       | String c r => String c (replace pat rep r)
       end.

(** [s.substring(0, n)]. *)
Definition substring0 (n : nat) (s : string) : string := String.substring 0 n s.

(** [String(n)] for an array index. *)
Definition of_index (n : nat) : string := NilZero.string_of_uint (Nat.to_uint n).

Definition is_digit (c : ascii) : bool :=
  let n := nat_of_ascii c in (48 <=? n)%nat && (n <=? 57)%nat.

Definition digit_val (c : ascii) : Z := Z.of_nat (nat_of_ascii c) - 48.

(** The longest prefix of decimal digits, and the rest. *)
Fixpoint span_digits (s : string) : list ascii * string :=
  match s with
  | String c r =>
      if is_digit c then let '(ds, rest) := span_digits r in (c :: ds, rest)
      else ([], s)
  | EmptyString => ([], s)
  end.

Definition digits_val (ds : list ascii) : Z :=
  fold_left (fun acc c => 10 * acc + digit_val c) ds 0.

(** White space and line terminators stripped by [parseFloat] (the
    one-byte ones: TAB, LF, VT, FF, CR, SP). *)
Definition is_space (c : ascii) : bool :=
  let n := nat_of_ascii c in
  ((9 <=? n)%nat && (n <=? 13)%nat) || (n =? 32)%nat.

(** No character of [s] is [c]. *)
Fixpoint avoids (c : ascii) (s : string) : Prop :=
  match s with
  | EmptyString => True
  | String a r => a <> c /\ avoids c r
  end.

Fixpoint trimStart (s : string) : string :=
  match s with
  | String c r => if is_space c then trimStart r else s
  | EmptyString => s
  end.

End Str.

(** ** [parseFloat]

    The longest prefix of the trimmed string that is a [StrDecimalLiteral]
    is read as a decimal number and rounded to the nearest double (ties to
    even); NaN when there is no such prefix. *)

Module Parse.

(** [digits * 10 ^ e10], correctly rounded. *)
Definition of_decimal (neg : bool) (digits e10 : Z) : Num.number :=
  match digits with
  | Zpos p =>
      if 0 <=? e10 then binary_normalize prec emax (cond_Zopp neg (Zpos p * 10 ^ e10)) 0 neg
      else Num.div (S754_finite neg p 0) (S754_finite false (Z.to_pos (10 ^ (- e10))) 0)
  | _ => S754_zero neg
  end.

(** The optional [ExponentPart]: [e] or [E], an optional sign and at least
    one digit; without a digit the exponent is not part of the literal. *)
Definition exponent_part (s : string) : Z :=
  match s with
  | String c r =>
      if Ascii.eqb c "e" || Ascii.eqb c "E" then
        let '(neg, r') :=
          match r with
          | String "+" r' => (false, r')
          | String "-" r' => (true, r')
          | _ => (false, r)
          end in
        match fst (Str.span_digits r') with
        | [] => 0
        | ds => cond_Zopp neg (Str.digits_val ds)
        end
      else 0
  | EmptyString => 0
  end.

Definition parseFloat (input : string) : Num.number :=
  let s := Str.trimStart input in
  let '(neg, s) :=
    match s with
    | String "+" r => (false, r)
    | String "-" r => (true, r)
    | _ => (false, s)
    end in
  if String.prefix "Infinity" s then S754_infinity neg
  else
    let '(ip, r1) := Str.span_digits s in
    let '(fp, r2) :=
      match r1 with
      | String "." r => Str.span_digits r
      | _ => ([], r1)
      end in
    match ip, fp with
    | [], [] => Num.NaN
    | _, _ =>
        of_decimal neg (Str.digits_val (ip ++ fp))
                   (exponent_part r2 - Z.of_nat (List.length fp))
    end.

End Parse.

(** * Dates

    A [Date] holds a time value: milliseconds since 1970-01-01T00:00:00Z.
    The day and calendar functions are those of ECMA-262 (Day,
    DayFromYear, YearFromTime, MonthFromTime, DateFromTime, WeekDay,
    MakeDay, MakeDate, TimeClip, LocalTime, UTC). *)

Module Date.

Definition msPerDay : Z := 86400000.

Definition Day (t : Z) : Z := t / msPerDay.
Definition TimeWithinDay (t : Z) : Z := t mod msPerDay.

Definition DayFromYear (y : Z) : Z :=
  365 * (y - 1970) + (y - 1969) / 4 - (y - 1901) / 100 + (y - 1601) / 400.

Definition DaysInYear (y : Z) : Z := DayFromYear (y + 1) - DayFromYear y.

(** The largest year whose first day is not after day [d]: an estimate from
    the mean year length, corrected by at most one year. *)
Definition YearFromDay (d : Z) : Z :=
  let y := 1970 + (400 * d) / 146097 in
  if DayFromYear (y + 1) <=? d then y + 1
  else if d <? DayFromYear y then y - 1
  else y.

Definition YearFromTime (t : Z) : Z := YearFromDay (Day t).

(** 1 in a leap year, 0 otherwise. *)
Definition InLeapYear (t : Z) : Z := DaysInYear (YearFromTime t) - 365.

Definition DayWithinYear (t : Z) : Z := Day t - DayFromYear (YearFromTime t).

(** Days of the year before month [m] (0 = January), [leap] being 0 or 1. *)
Definition DaysBeforeMonth (m leap : Z) : Z :=
  match m with
  | 0 => 0
  | 1 => 31
  | 2 => 59 + leap
  | 3 => 90 + leap
  | 4 => 120 + leap
  | 5 => 151 + leap
  | 6 => 181 + leap
  | 7 => 212 + leap
  | 8 => 243 + leap
  | 9 => 273 + leap
  | 10 => 304 + leap
  | _ => 334 + leap
  end.

Definition MonthFromDay (dwy leap : Z) : Z :=
  if dwy <? 31 then 0
  else if dwy <? 59 + leap then 1
  else if dwy <? 90 + leap then 2
  else if dwy <? 120 + leap then 3
  else if dwy <? 151 + leap then 4
  else if dwy <? 181 + leap then 5
  else if dwy <? 212 + leap then 6
  else if dwy <? 243 + leap then 7
  else if dwy <? 273 + leap then 8
  else if dwy <? 304 + leap then 9
  else if dwy <? 334 + leap then 10
  else 11.

Definition MonthFromTime (t : Z) : Z := MonthFromDay (DayWithinYear t) (InLeapYear t).

Definition DateFromTime (t : Z) : Z :=
  DayWithinYear t - DaysBeforeMonth (MonthFromTime t) (InLeapYear t) + 1.

Definition WeekDay (t : Z) : Z := (Day t + 4) mod 7.

(** The day number of day [dt] of month [month] of year [year]; the month
    may lie outside 0..11 and the day outside the month. *)
Definition MakeDay (year month dt : Z) : Z :=
  let ym := year + month / 12 in
  let mn := month mod 12 in
  DayFromYear ym + DaysBeforeMonth mn (DaysInYear ym - 365) + dt - 1.

Definition MakeDate (day time : Z) : Z := day * msPerDay + time.

(** [None] is the time value NaN of an invalid Date. *)
Definition TimeClip (t : Z) : option Z :=
  if Z.abs t <=? 8640000000000000 then Some t else None.

(** [new Date(value)] for a number: the time value is the integral part
    of [value], and the Date is invalid for NaN, an infinity or a value
    outside the range. *)
Definition ofNumber (value : Num.number) : option Z :=
  match Num.truncate value with
  | Some t => TimeClip t
  | None => None
  end.

(** The local time zone of the host: its offset from UTC in milliseconds,
    at a UTC instant and at a local time value. *)
Record TimeZone := {
  LocalTZA_utc : Z -> Z;
  LocalTZA_local : Z -> Z
}.

Definition LocalTime (tz : TimeZone) (t : Z) : Z := t + LocalTZA_utc tz t.
Definition UTC (tz : TimeZone) (t : Z) : Z := t - LocalTZA_local tz t.

(** [d.getDate()], [d.getDay()], [d.getMonth()] on a valid date. *)
Definition getDate (tz : TimeZone) (t : Z) : Z := DateFromTime (LocalTime tz t).
Definition getDay (tz : TimeZone) (t : Z) : Z := WeekDay (LocalTime tz t).
Definition getMonth (tz : TimeZone) (t : Z) : Z := MonthFromTime (LocalTime tz t).

(** [d.setDate(dt)]: the same local month and time of day, on day [dt].
    [setDateLocal] is the new local time value, before its conversion to
    UTC. *)
Definition setDateLocal (tz : TimeZone) (t dt : Z) : Z :=
  let lt := LocalTime tz t in
  MakeDate (MakeDay (YearFromTime lt) (MonthFromTime lt) dt) (TimeWithinDay lt).

Definition setDate (tz : TimeZone) (t dt : Z) : option Z :=
  TimeClip (UTC tz (setDateLocal tz t dt)).

(** The last [width] decimal digits of [v]: its decimal rendering,
    left-padded with zeros, when [0 <= v < 10 ^ width]. *)
Definition digit (d : Z) : ascii := ascii_of_nat (48 + Z.to_nat d).

Fixpoint pad (width : nat) (v : Z) : string :=
  match width with
  | O => EmptyString
  | S w => String (digit (v / 10 ^ Z.of_nat w mod 10)) (pad w v)
  end.

(** The year of an ISO string: four digits, or a sign and six digits
    outside 0..9999. *)
Definition iso_year (y : Z) : string :=
  if (0 <=? y) && (y <=? 9999) then pad 4 y
  else if y <? 0 then "-" ++ pad 6 (- y)
  else "+" ++ pad 6 y.

(** [YYYY-MM-DD] of the UTC day of [t]. *)
Definition iso_date (t : Z) : string :=
  iso_year (YearFromTime t) ++ "-" ++ pad 2 (MonthFromTime t + 1)
    ++ "-" ++ pad 2 (DateFromTime t).

(** [HH:mm:ss.sssZ] of [t]. *)
Definition iso_time (t : Z) : string :=
  let ms := TimeWithinDay t in
  pad 2 (ms / 3600000) ++ ":" ++ pad 2 (ms / 60000 mod 60) ++ ":"
    ++ pad 2 (ms / 1000 mod 60) ++ "." ++ pad 3 (ms mod 1000) ++ "Z".

(** [d.toISOString()] on a valid date. *)
Definition toISOString (t : Z) : string := iso_date t ++ "T" ++ iso_time t.

End Date.

(** * Provider wire format and application types *)

Module Amadeus.

Record AuthResponse := {
  access_token : string;
  expires_in : Num.number
}.

(** [{ iataCode, at }] of a segment's departure and arrival. *)
Record Place := {
  iataCode : string;
  at_ : string
}.

(** [aircraft] is [aircraft?.code]. *)
Record Segment := {
  departure : Place;
  arrival : Place;
  carrierCode : string;
  number : string;
  aircraft : option string
}.

Record Itinerary := {
  duration : string;
  segments : list Segment
}.

Record Price := {
  total : string;
  currency : string
}.

(** [id] is [None] when the field is absent. *)
Record FlightOffer := {
  id : option string;
  itineraries : list Itinerary;
  price : Price
}.

(** [data] is [None] when the field is absent. *)
Record FlightOffersResponse := {
  offers : option (list FlightOffer)
}.

Record Address := {
  cityName : option string
}.

Record Location := {
  loc_iataCode : string;
  name : string;
  address : option Address
}.

Record LocationsResponse := {
  locations : option (list Location)
}.

End Amadeus.

Module FlightOffer.

Record Stop := {
  airport : string;
  city : string;
  time : string;
  date : string
}.

Record t := {
  id : string;
  airline : string;
  flightNumber : string;
  departure : Stop;
  arrival : Stop;
  duration : string;
  stops : Z;
  price : Num.number;
  currency : string;
  aircraft : option string
}.

End FlightOffer.

Module PriceHistory.

Record t := {
  date : string;
  price : Num.number
}.

End PriceHistory.

Module Airport.

Record t := {
  code : string;
  city : string;
  name : string
}.

End Airport.

Record FlightSearchParams := {
  origin : string;
  destination : string;
  departureDate : string;
  returnDate : option string;
  passengers : nat;
  roundtrip : bool
}.

(** * The host: configuration, clock, random source and network *)

Inductive Error :=
| CredentialsNotFound
| AuthenticationFailed (status : Z) (statusText : string)
| FlightSearchFailed (status : Z) (statusText : string)
| AirportSearchFailed (status : Z) (statusText : string)
| FetchFailed
| JsonFailed
| TypeError
| RangeError.

(** What [await fetch(...)] yields: a rejection when no response is
    received, otherwise a response whose body parses ([Some]) or not. *)
Inductive Fetched (B : Type) :=
| Rejected
| Responded (ok : bool) (status : Z) (statusText : string) (body : option B).

Arguments Rejected {B}.
Arguments Responded {B} ok status statusText body.

Inductive Request :=
| PostToken (client_id client_secret : string)
| GetFlightOffers (query : list (string * string)) (token : string)
| GetLocations (keyword : string) (token : string).

(** The provider answers a request knowing the requests made before it. *)
Record Env := {
  VITE_AMADEUS_CLIENT_ID : option string;
  VITE_AMADEUS_CLIENT_SECRET : option string;
  clock : nat -> Z;
  timezone : Date.TimeZone;
  Date_parse : string -> option Z;
  Math_random : nat -> Num.number;
  token_endpoint : list Request -> Request -> Fetched Amadeus.AuthResponse;
  offers_endpoint : list Request -> Request -> Fetched Amadeus.FlightOffersResponse;
  locations_endpoint : list Request -> Request -> Fetched Amadeus.LocationsResponse
}.

(** The service object, [localStorage], and the bookkeeping of the host:
    clock readings taken, random numbers drawn, requests sent (latest
    first).  [tokenExpiry] is [None] for [null] and [Some None] for an
    invalid Date. *)
Record State := {
  accessToken : option string;
  tokenExpiry : option (option Z);
  localStorage : gmap string string;
  ticks : nat;
  draws : nat;
  requests : list Request
}.

Definition set_accessToken (v : option string) (st : State) : State :=
  {| accessToken := v; tokenExpiry := tokenExpiry st;
     localStorage := localStorage st; ticks := ticks st; draws := draws st;
     requests := requests st |}.

Definition set_tokenExpiry (v : option (option Z)) (st : State) : State :=
  {| accessToken := accessToken st; tokenExpiry := v;
     localStorage := localStorage st; ticks := ticks st; draws := draws st;
     requests := requests st |}.

Definition set_localStorage (v : gmap string string) (st : State) : State :=
  {| accessToken := accessToken st; tokenExpiry := tokenExpiry st;
     localStorage := v; ticks := ticks st; draws := draws st;
     requests := requests st |}.

Definition set_ticks (v : nat) (st : State) : State :=
  {| accessToken := accessToken st; tokenExpiry := tokenExpiry st;
     localStorage := localStorage st; ticks := v; draws := draws st;
     requests := requests st |}.

Definition set_draws (v : nat) (st : State) : State :=
  {| accessToken := accessToken st; tokenExpiry := tokenExpiry st;
     localStorage := localStorage st; ticks := ticks st; draws := v;
     requests := requests st |}.

Definition set_requests (v : list Request) (st : State) : State :=
  {| accessToken := accessToken st; tokenExpiry := tokenExpiry st;
     localStorage := localStorage st; ticks := ticks st; draws := draws st;
     requests := v |}.

(** ** Computations: state and exceptions *)

Inductive Result (A : Type) :=
| Ok (a : A)
| Thrown (e : Error).

Arguments Ok {A} a.
Arguments Thrown {A} e.

Definition M (A : Type) : Type := State -> Result A * State.

Definition ret {A} (a : A) : M A := fun st => (Ok a, st).

Definition throw {A} (e : Error) : M A := fun st => (Thrown e, st).

Definition bind {A B} (c : M A) (k : A -> M B) : M B :=
  fun st =>
    match c st with
    | (Ok a, st') => k a st'
    | (Thrown e, st') => (Thrown e, st')
    end.

(** [try { c } catch (error) { h error }]: the handler runs in the state
    the body left behind. *)
Definition try_catch {A} (c : M A) (h : Error -> M A) : M A :=
  fun st =>
    match c st with
    | (Ok a, st') => (Ok a, st')
    | (Thrown e, st') => h e st'
    end.

Definition get : M State := fun st => (Ok st, st).
Definition modify (f : State -> State) : M unit := fun st => (Ok tt, f st).

Notation "x <- c ;; k" := (bind c (fun x => k))
  (at level 100, c at next level, right associativity).
Notation "c ;;; k" := (bind c (fun _ => k))
  (at level 100, right associativity).

(** JavaScript truthiness of a possibly absent string. *)
Definition truthy (s : option string) : option string :=
  match s with
  | Some EmptyString => None
  | _ => s
  end.

Definition lift {A} (r : Result A) : M A := fun st => (r, st).

(** [a > b] for a Date [a] and a valid Date [b]: false when [a] is invalid. *)
Definition date_gt (a : option Z) (b : Z) : bool :=
  match a with
  | Some t => b <? t
  | None => false
  end.

Record Response (B : Type) := {
  ok : bool;
  status : Z;
  statusText : string;
  body : option B
}.

Arguments ok {B} r.
Arguments status {B} r.
Arguments statusText {B} r.
Arguments body {B} r.

(** [await response.json()] *)
Definition json {B} (response : Response B) : M B :=
  match body response with
  | Some b => ret b
  | None => throw JsonFailed
  end.

(** Stable sort by a comparator, as [Array.prototype.sort] is: [cmp x y]
    is [Lt] when [x] sorts before [y]. *)
Fixpoint insert_sorted {A} (cmp : A -> A -> comparison) (x : A) (l : list A) : list A :=
  match l with
  | [] => [x]
  | y :: r =>
      match cmp x y with
      | Lt => x :: l
      | _ => y :: insert_sorted cmp x r
      end
  end.

Definition sort {A} (cmp : A -> A -> comparison) (l : list A) : list A :=
  fold_left (fun acc x => insert_sorted cmp x acc) l [].

(** * [FlightApiService] *)

Section FlightApiService.

Variable env : Env.

(** [new Date()] and [Date.now()] *)
Definition now : M Z :=
  fun st => (Ok (clock env (ticks st)), set_ticks (S (ticks st)) st).

(** [Math.random()] *)
Definition random : M Num.number :=
  fun st => (Ok (Math_random env (draws st)), set_draws (S (draws st)) st).

Definition getItem (key : string) : M (option string) :=
  fun st => (Ok (localStorage st !! key), st).

Definition setItem (key value : string) : M unit :=
  modify (fun st => set_localStorage (<[key := value]> (localStorage st)) st).

Definition removeItem (key : string) : M unit :=
  modify (fun st => set_localStorage (delete key (localStorage st)) st).

(** [await fetch(...)]: the request is recorded, then the provider's
    answer is received or the call rejects. *)
Definition fetch {B} (endpoint : list Request -> Request -> Fetched B)
    (r : Request) : M (Response B) :=
  fun st =>
    let st' := set_requests (r :: requests st) st in
    match endpoint (requests st) r with
    | Rejected => (Thrown FetchFailed, st')
    | Responded o s t b =>
        (Ok {| ok := o; status := s; statusText := t; body := b |}, st')
    end.

(** [d.toISOString()]: a RangeError on an invalid Date. *)
Definition toISOString (d : option Z) : M string :=
  match d with
  | Some t => ret (Date.toISOString t)
  | None => throw RangeError
  end.

Definition getAccessToken : M string :=
  st <- get ;;
  valid <-
    match truthy (accessToken st), tokenExpiry st with
    | Some token, Some expiry =>
        d <- now ;;
        ret (if date_gt expiry d then Some token else None)
    | _, _ => ret None
    end ;;
  match valid with
  | Some token => ret token
  | None =>
      match truthy (VITE_AMADEUS_CLIENT_ID env),
            truthy (VITE_AMADEUS_CLIENT_SECRET env) with
      | Some clientId, Some clientSecret =>
          try_catch
            (response <- fetch (token_endpoint env) (PostToken clientId clientSecret) ;;
             if negb (ok response) then
               throw (AuthenticationFailed (status response) (statusText response))
             else
               data <- json response ;;
               modify (set_accessToken (Some (Amadeus.access_token data))) ;;;
               t <- now ;;
               let expiry :=
                 Date.ofNumber
                   (Num.add (Num.of_Z t) (Num.mul (Amadeus.expires_in data) Num.n1000)) in
               modify (set_tokenExpiry (Some expiry)) ;;;
               setItem "amadeus_token" (Amadeus.access_token data) ;;;
               iso <- toISOString expiry ;;
               setItem "amadeus_token_expiry" iso ;;;
               ret (Amadeus.access_token data))
            (fun error => throw error)
      | _, _ => throw CredentialsNotFound
      end
  end.

Definition loadStoredToken : M unit :=
  storedToken <- getItem "amadeus_token" ;;
  storedExpiry <- getItem "amadeus_token_expiry" ;;
  match truthy storedToken, truthy storedExpiry with
  | Some token, Some iso =>
      let expiry := Date_parse env iso in
      d <- now ;;
      if date_gt expiry d then
        modify (set_accessToken (Some token)) ;;;
        modify (set_tokenExpiry (Some expiry))
      else
        removeItem "amadeus_token" ;;;
        removeItem "amadeus_token_expiry"
  | _, _ => ret tt
  end.

(** The hardcoded catalog, in the order of its keys. *)
Definition mockAirports : list (string * (string * string)) :=
  [ ("JFK", ("New York", "John F. Kennedy International"));
    ("LAX", ("Los Angeles", "Los Angeles International"));
    ("ORD", ("Chicago", "O'Hare International"));
    ("MIA", ("Miami", "Miami International"));
    ("SFO", ("San Francisco", "San Francisco International"));
    ("SEA", ("Seattle", "Seattle-Tacoma International"));
    ("BOS", ("Boston", "Logan International"));
    ("DEN", ("Denver", "Denver International"));
    ("LHR", ("London", "Heathrow Airport"));
    ("CDG", ("Paris", "Charles de Gaulle Airport")) ].

Definition matches (query : string) (a : Airport.t) : bool :=
  Str.includes (Str.toLowerCase (Airport.code a)) (Str.toLowerCase query) ||
  Str.includes (Str.toLowerCase (Airport.city a)) (Str.toLowerCase query) ||
  Str.includes (Str.toLowerCase (Airport.name a)) (Str.toLowerCase query).

Definition getMockAirports (query : string) : list Airport.t :=
  take 5
    (map (fun '(code, data) =>
            {| Airport.code := code; Airport.city := fst data; Airport.name := snd data |})
       (List.filter
          (fun '(code, data) =>
             Str.includes (Str.toLowerCase code) (Str.toLowerCase query) ||
             Str.includes (Str.toLowerCase (fst data)) (Str.toLowerCase query) ||
             Str.includes (Str.toLowerCase (snd data)) (Str.toLowerCase query))
          mockAirports)).

(** [at.split('T')[1].substring(0, 5)]: a TypeError when there is no
    second piece. *)
Definition time_of (at_ : string) : Result string :=
  match Str.split "T" at_ with
  | _ :: t :: _ => Ok (Str.substring0 5 t)
  | _ => Thrown TypeError
  end.

(** [at.split('T')[0]] *)
Definition date_of (at_ : string) : string :=
  match Str.split "T" at_ with
  | d :: _ => d
  | [] => EmptyString
  end.

(** The callback of [data.data.map] in [searchFlights]. *)
Definition normalize (offer : Amadeus.FlightOffer) (index : nat) : Result FlightOffer.t :=
  match Amadeus.itineraries offer with
  | [] => Thrown TypeError
  | itinerary :: _ =>
      match Amadeus.segments itinerary,
            last (Amadeus.segments itinerary) with
      | firstSegment :: _, Some lastSegment =>
          match time_of (Amadeus.at_ (Amadeus.departure firstSegment)),
                time_of (Amadeus.at_ (Amadeus.arrival lastSegment)) with
          | Ok departureTime, Ok arrivalTime =>
              Ok {| FlightOffer.id :=
                      match truthy (Amadeus.id offer) with
                      | Some id => id
                      | None => "flight-" ++ Str.of_index index
                      end;
                    FlightOffer.airline := Amadeus.carrierCode firstSegment;
                    FlightOffer.flightNumber :=
                      Amadeus.carrierCode firstSegment ++ " " ++ Amadeus.number firstSegment;
                    FlightOffer.departure :=
                      {| FlightOffer.airport := Amadeus.iataCode (Amadeus.departure firstSegment);
                         FlightOffer.city := Amadeus.iataCode (Amadeus.departure firstSegment);
                         FlightOffer.time := departureTime;
                         FlightOffer.date := date_of (Amadeus.at_ (Amadeus.departure firstSegment)) |};
                    FlightOffer.arrival :=
                      {| FlightOffer.airport := Amadeus.iataCode (Amadeus.arrival lastSegment);
                         FlightOffer.city := Amadeus.iataCode (Amadeus.arrival lastSegment);
                         FlightOffer.time := arrivalTime;
                         FlightOffer.date := date_of (Amadeus.at_ (Amadeus.arrival lastSegment)) |};
                    FlightOffer.duration :=
                      Str.toLowerCase (Str.replace "PT" "" (Amadeus.duration itinerary));
                    FlightOffer.stops := Z.of_nat (List.length (Amadeus.segments itinerary)) - 1;
                    FlightOffer.price := Parse.parseFloat (Amadeus.total (Amadeus.price offer));
                    FlightOffer.currency := Amadeus.currency (Amadeus.price offer);
                    FlightOffer.aircraft := Amadeus.aircraft firstSegment |}
          | _, _ => Thrown TypeError
          end
      | _, _ => Thrown TypeError
      end
  end.

(** [offers.map((offer, index) => ...)], stopping at the first exception. *)
Fixpoint normalize_from (index : nat) (l : list Amadeus.FlightOffer) : Result (list FlightOffer.t) :=
  match l with
  | [] => Ok []
  | offer :: r =>
      match normalize offer index with
      | Ok f =>
          match normalize_from (S index) r with
          | Ok fs => Ok (f :: fs)
          | Thrown e => Thrown e
          end
      | Thrown e => Thrown e
      end
  end.

Definition searchFlights (params : FlightSearchParams) : M (list FlightOffer.t) :=
  try_catch
    (loadStoredToken ;;;
     token <- getAccessToken ;;
     let queryParams :=
       ([ ("originLocationCode", origin params);
          ("destinationLocationCode", destination params);
          ("departureDate", departureDate params);
          ("adults", Str.of_index (passengers params)) ]
        ++ match truthy (returnDate params), roundtrip params with
           | Some r, true => [("returnDate", r)]
           | _, _ => []
           end)%list in
     response <- fetch (offers_endpoint env)
                   (GetFlightOffers (queryParams ++ [("max", "20")])%list token) ;;
     if negb (ok response) then
       throw (FlightSearchFailed (status response) (statusText response))
     else
       data <- json response ;;
       match Amadeus.offers data with
       | Some l => lift (normalize_from 0 l)
       | None => ret []
       end)
    (fun error => throw error).

(** [date.toISOString().split('T')[0]] *)
Definition isoDay (d : option Z) : M string :=
  iso <- toISOString d ;;
  ret (date_of iso).

Definition weekendMultiplier (dayOfWeek : Z) : Num.number :=
  if (dayOfWeek =? 0) || (dayOfWeek =? 6) then Num.n1_1 else Num.n1_0.

Definition seasonalMultiplier (month : Z) : Num.number :=
  if (5 <=? month) && (month <=? 8) then Num.n1_15 else Num.n1_0.

Definition urgencyMultiplier (i : Z) : Num.number :=
  let daysFromToday := Z.abs (i - 30) in
  if daysFromToday <? 7 then Num.n1_2
  else if daysFromToday <? 14 then Num.n1_1
  else Num.n1_0.

(** [Math.round(basePrice * (1 + randomVariation) * weekendMultiplier *
    seasonalMultiplier * urgencyMultiplier)] *)
Definition variedPrice (basePrice rnd : Num.number) (dayOfWeek month i : Z) : Num.number :=
  let randomVariation := Num.mul (Num.sub rnd Num.n0_5) Num.n0_4 in
  Num.Math_round
    (Num.mul
       (Num.mul
          (Num.mul (Num.mul basePrice (Num.add Num.n1_0 randomVariation))
             (weekendMultiplier dayOfWeek))
          (seasonalMultiplier month))
       (urgencyMultiplier i)).

Definition minimumPrice (basePrice : Num.number) : Num.number :=
  Num.Math_round (Num.mul basePrice Num.n0_6).

(** One iteration of the loop of [getPriceHistory]; on an invalid Date,
    [toISOString] throws a RangeError. *)
Definition historyPoint (basePrice : Num.number) (i : nat) : M PriceHistory.t :=
  t <- now ;;
  let date :=
    Date.setDate (timezone env) t (Date.getDate (timezone env) t - Z.of_nat i) in
  rnd <- random ;;
  match date with
  | Some d =>
      let dayOfWeek := Date.getDay (timezone env) d in
      let month := Date.getMonth (timezone env) d in
      let price := variedPrice basePrice rnd dayOfWeek month (Z.of_nat i) in
      let finalPrice := Num.Math_max price (minimumPrice basePrice) in
      ret {| PriceHistory.date := date_of (Date.toISOString d);
             PriceHistory.price := finalPrice |}
  | None => throw RangeError
  end.

(** [for (let i = n; i >= 0; i--) history.push(...)] *)
Fixpoint historyLoop (basePrice : Num.number) (i : nat)
    (history : list PriceHistory.t) : M (list PriceHistory.t) :=
  p <- historyPoint basePrice i ;;
  match i with
  | O => ret (history ++ [p])%list
  | S i' => historyLoop basePrice i' (history ++ [p])%list
  end.

(** [prices.reduce((sum, price) => sum + price, 0) / prices.length] *)
Definition average (prices : list Num.number) : Num.number :=
  Num.div (fold_left Num.add prices (S754_zero false))
          (Num.of_Z (Z.of_nat (List.length prices))).

(** The comparator [(a, b) => a.date.localeCompare(b.date)]: on these
    strings of digits, signs and hyphens the collation order is the order
    of the code units. *)
Definition byDate (a b : PriceHistory.t) : comparison :=
  String.compare (PriceHistory.date a) (PriceHistory.date b).

Definition getPriceHistory (_flightId origin destination : string) : M (list PriceHistory.t) :=
  try_catch
    (loadStoredToken ;;;
     token <- getAccessToken ;;
     currentDate <- now ;;
     let tomorrow :=
       Date.setDate (timezone env) currentDate
         (Date.getDate (timezone env) currentDate + 1) in
     dateStr <- isoDay tomorrow ;;
     response <- fetch (offers_endpoint env)
                   (GetFlightOffers
                      [ ("originLocationCode", origin);
                        ("destinationLocationCode", destination);
                        ("departureDate", dateStr);
                        ("adults", "1");
                        ("max", "5") ] token) ;;
     basePrice <-
       (if ok response then
          data <- json response ;;
          match Amadeus.offers data with
          | Some (offer :: rest) =>
              ret (average
                     (map (fun offer => Parse.parseFloat (Amadeus.total (Amadeus.price offer)))
                        (offer :: rest)))
          | _ => ret Num.n250
          end
        else ret Num.n250) ;;
     history <- historyLoop basePrice 30 [] ;;
     ret (sort byDate history))
    (fun error => ret []).

(** The callback of [data.data.map] in [getAirports]. *)
Definition airportOf (location : Amadeus.Location) : Airport.t :=
  {| Airport.code := Amadeus.loc_iataCode location;
     Airport.city :=
       match truthy (match Amadeus.address location with
                     | Some a => Amadeus.cityName a
                     | None => None
                     end) with
       | Some c => c
       | None => Amadeus.loc_iataCode location
       end;
     Airport.name := Amadeus.name location |}.

Definition getAirports (query : string) : M (list Airport.t) :=
  try_catch
    (loadStoredToken ;;;
     token <- getAccessToken ;;
     response <- fetch (locations_endpoint env) (GetLocations query token) ;;
     if negb (ok response) then
       throw (AirportSearchFailed (status response) (statusText response))
     else
       data <- json response ;;
       let results :=
         match Amadeus.locations data with
         | Some l => map airportOf l
         | None => []
         end in
       ret (take 5 results))
    (fun error => ret (getMockAirports query)).

End FlightApiService.

(** [n] successive calls of [getAccessToken]. *)
Fixpoint acquireTokens (env : Env) (n : nat) : M (list string) :=
  match n with
  | O => ret []
  | S n' =>
      token <- getAccessToken env ;;
      tokens <- acquireTokens env n' ;;
      ret (token :: tokens)
  end.

(** The token in memory expires strictly after the latest clock reading. *)
Definition unexpired (env : Env) (st : State) : Prop :=
  exists e, tokenExpiry st = Some (Some e) /\
            (0 < ticks st)%nat /\ clock env (ticks st - 1) < e.

(** [p] is the point that the loop of [getPriceHistory] generates at index
    [k] from clock reading number [tick] and random draw number [draw]. *)
Definition generatedAt (env : Env) (basePrice : Num.number)
    (tick draw k : nat) (p : PriceHistory.t) : Prop :=
  exists d,
    Date.setDate (timezone env) (clock env tick)
      (Date.getDate (timezone env) (clock env tick) - Z.of_nat k) = Some d /\
    PriceHistory.date p = date_of (Date.toISOString d) /\
    PriceHistory.price p =
      Num.Math_max
        (variedPrice basePrice (Math_random env draw)
           (Date.getDay (timezone env) d) (Date.getMonth (timezone env) d)
           (Z.of_nat k))
        (minimumPrice basePrice).

(** The local day on which [setDate] puts index [k] of the window, for
    clock reading number [tick]. *)
Definition localDay (env : Env) (tick k : nat) : Z :=
  Date.Day
    (Date.setDateLocal (timezone env) (clock env tick)
       (Date.getDate (timezone env) (clock env tick) - Z.of_nat k)).

(** Clock readings and zone offsets of a host on which the dates of the
    window are valid Dates. *)
Definition representable (env : Env) : Prop :=
  (forall n, Z.abs (clock env n) <= 8000000000000000) /\
  (forall t, Z.abs (Date.LocalTZA_utc (timezone env) t) <= Date.msPerDay /\
             Z.abs (Date.LocalTZA_local (timezone env) t) <= Date.msPerDay).

(** A host whose zone offset never changes, whose clock does not go
    back, and whose 31-day window lies within the years 0000 to 9999. *)
Definition steady (env : Env) : Prop :=
  (exists offset, forall t,
      Date.LocalTZA_utc (timezone env) t = offset /\
      Date.LocalTZA_local (timezone env) t = offset) /\
  (forall n m, (n <= m)%nat -> clock env n <= clock env m) /\
  (forall n, (Date.DayFromYear 0 + 30) * Date.msPerDay <= clock env n
             < Date.DayFromYear 10000 * Date.msPerDay).

(** The same over one window only, for a loop of [getPriceHistory] that
    takes the clock readings number [first] to [last]: the zone offset is
    the same at every instant from 30 days before the first reading to the
    last reading, the clock does not go back between the two, and the
    window lies within the years 0000 to 9999. *)
Definition steadyDuring (env : Env) (first last : nat) : Prop :=
  (exists offset,
      (forall t, clock env first - 30 * Date.msPerDay <= t <= clock env last ->
                 Date.LocalTZA_utc (timezone env) t = offset) /\
      (forall t, clock env first - 30 * Date.msPerDay + offset <= t
                 <= clock env last + offset ->
                 Date.LocalTZA_local (timezone env) t = offset)) /\
  (forall n m, (first <= n)%nat -> (n <= m)%nat -> (m <= last)%nat ->
               clock env n <= clock env m) /\
  (forall n, (first <= n)%nat -> (n <= last)%nat ->
             (Date.DayFromYear 0 + 30) * Date.msPerDay <= clock env n
             < Date.DayFromYear 10000 * Date.msPerDay).

(** * The specification's words *)

Module Spec.

(** The urgency factor by a day's distance from the oldest day of the
    window: 1.20 within 7 days, 1.10 within 14, otherwise 1.00. *)
Definition urgencyByDistance (distance : Z) : Num.number :=
  if distance <? 7 then Num.n1_2
  else if distance <? 14 then Num.n1_1
  else Num.n1_0.

(** The base price scaled by the random, weekend, seasonal and urgency
    factors, rounded to the nearest integer. *)
Definition scaledPrice (basePrice rnd weekend seasonal urgency : Num.number) : Num.number :=
  Num.Math_round
    (Num.mul
       (Num.mul
          (Num.mul
             (Num.mul basePrice
                (Num.add Num.n1_0 (Num.mul (Num.sub rnd Num.n0_5) Num.n0_4)))
             weekend)
          seasonal)
       urgency).

(** The base price: the arithmetic mean of the parsed offer prices when
    the provider answers with at least one offer, and 250 otherwise. *)
Definition basePrice (r : Fetched Amadeus.FlightOffersResponse) : Num.number :=
  match r with
  | Responded true _ _ (Some data) =>
      match Amadeus.offers data with
      | Some (offer :: rest) =>
          average (map (fun offer => Parse.parseFloat (Amadeus.total (Amadeus.price offer)))
                     (offer :: rest))
      | _ => Num.n250
      end
  | _ => Num.n250
  end.

End Spec.

(** * Scenarios *)

Module Scenario.

Definition segment (from depart to arrive carrier num : string) : Amadeus.Segment :=
  {| Amadeus.departure := {| Amadeus.iataCode := from; Amadeus.at_ := depart |};
     Amadeus.arrival := {| Amadeus.iataCode := to; Amadeus.at_ := arrive |};
     Amadeus.carrierCode := carrier;
     Amadeus.number := num;
     Amadeus.aircraft := None |}.

(** The raw offer of the normalisation scenario, with a chosen [id]. *)
Definition offer (id : option string) : Amadeus.FlightOffer :=
  {| Amadeus.id := id;
     Amadeus.itineraries :=
       [ {| Amadeus.duration := "PT2H30M";
            Amadeus.segments :=
              [ segment "JFK" "2024-06-01T08:00" "LAX" "2024-06-01T11:30" "AA" "100" ] |} ];
     Amadeus.price := {| Amadeus.total := "199.99"; Amadeus.currency := "USD" |} |}.

Definition offerX : Amadeus.FlightOffer := offer (Some "X").

Definition normalizedX : FlightOffer.t :=
  {| FlightOffer.id := "X";
     FlightOffer.airline := "AA";
     FlightOffer.flightNumber := "AA 100";
     FlightOffer.departure :=
       {| FlightOffer.airport := "JFK"; FlightOffer.city := "JFK";
          FlightOffer.time := "08:00"; FlightOffer.date := "2024-06-01" |};
     FlightOffer.arrival :=
       {| FlightOffer.airport := "LAX"; FlightOffer.city := "LAX";
          FlightOffer.time := "11:30"; FlightOffer.date := "2024-06-01" |};
     FlightOffer.duration := "2h30m";
     FlightOffer.stops := 0;
     FlightOffer.price := Prim2SF 199.99%float;
     FlightOffer.currency := "USD";
     FlightOffer.aircraft := None |}.

(** A fresh service: no token in memory, empty storage. *)
Definition fresh : State :=
  {| accessToken := None; tokenExpiry := None; localStorage := ∅;
     ticks := 0; draws := 0; requests := [] |}.

Definition utc : Date.TimeZone :=
  {| Date.LocalTZA_utc := fun _ => 0; Date.LocalTZA_local := fun _ => 0 |}.

(** Europe/London in 2025: one hour ahead of UTC from 2025-03-30T01:00Z
    to 2025-10-26T01:00Z. *)
Definition london : Date.TimeZone :=
  {| Date.LocalTZA_utc := fun t =>
       if (1743296400000 <=? t) && (t <? 1761440400000) then 3600000 else 0;
     Date.LocalTZA_local := fun t =>
       if (1743300000000 <=? t) && (t <? 1761444000000) then 3600000 else 0 |}.

Definition granted (ttl : Z) : Fetched Amadeus.AuthResponse :=
  Responded true 200 "OK"
    (Some {| Amadeus.access_token := "tok"; Amadeus.expires_in := Num.of_Z ttl |}).

(** A host with configured credentials, a token endpoint that grants a
    token for [ttl] seconds, a frozen clock and a constant random source. *)
Definition host (tz : Date.TimeZone) (time ttl : Z)
    (offers : Fetched Amadeus.FlightOffersResponse)
    (locations : Fetched Amadeus.LocationsResponse) : Env :=
  {| VITE_AMADEUS_CLIENT_ID := Some "client";
     VITE_AMADEUS_CLIENT_SECRET := Some "secret";
     clock := fun _ => time;
     timezone := tz;
     Date_parse := fun _ => None;
     Math_random := fun _ => Num.n0_5;
     token_endpoint := fun _ _ => granted ttl;
     offers_endpoint := fun _ _ => offers;
     locations_endpoint := fun _ _ => locations |}.

(** A successful answer of the offers endpoint with one offer whose
    total price reads [total]. *)
Definition priced (total : string) : Fetched Amadeus.FlightOffersResponse :=
  Responded true 200 "OK"
    (Some {| Amadeus.offers :=
               Some [ {| Amadeus.id := Some "1"; Amadeus.itineraries := [];
                         Amadeus.price := {| Amadeus.total := total;
                                             Amadeus.currency := "USD" |} |} ] |}).

Definition unavailable : Fetched Amadeus.FlightOffersResponse :=
  Responded false 503 "Service Unavailable" None.

Definition losAngeles : Amadeus.Location :=
  {| Amadeus.loc_iataCode := "LAX";
     Amadeus.name := "LOS ANGELES INTL";
     Amadeus.address := Some {| Amadeus.cityName := Some "LOS ANGELES" |} |}.

Definition located (l : list Amadeus.Location) : Fetched Amadeus.LocationsResponse :=
  Responded true 200 "OK" (Some {| Amadeus.locations := Some l |}).

(** 2025-04-10T12:00:00Z and 2025-04-10T23:30:00Z. *)
Definition noon : Z := 1744286400000.
Definition lateEvening : Z := 1744327800000.

(** At noon UTC, with one offer at 199.99. *)
Definition steadyHost : Env := host utc noon 1799 (priced "199.99") Rejected.

(** At noon UTC, with one offer whose price does not parse. *)
Definition unparsedHost : Env := host utc noon 1799 (priced "N/A") Rejected.

(** In London late in the evening, with one offer whose price does not
    parse. *)
Definition londonHost : Env := host london lateEvening 1799 (priced "N/A") Rejected.

(** No response from the offers endpoint. *)
Definition unreachableHost : Env := host utc noon 1799 Rejected Rejected.

(** HTTP 503 from the offers endpoint. *)
Definition unavailableHost : Env := host utc noon 1799 unavailable Rejected.

(** A token endpoint that grants a lifetime of 0 seconds. *)
Definition zeroTtlHost : Env := host utc noon 0 Rejected Rejected.

(** A token endpoint that grants a lifetime of half a millisecond. *)
Definition halfMillisecond : Num.number := Eval vm_compute in Prim2SF 0.0005%float.

Definition briefHost : Env :=
  {| VITE_AMADEUS_CLIENT_ID := Some "client";
     VITE_AMADEUS_CLIENT_SECRET := Some "secret";
     clock := fun _ => noon;
     timezone := utc;
     Date_parse := fun _ => None;
     Math_random := fun _ => Num.n0_5;
     token_endpoint := fun _ _ =>
       Responded true 200 "OK"
         (Some {| Amadeus.access_token := "tok";
                  Amadeus.expires_in := halfMillisecond |});
     offers_endpoint := fun _ _ => Rejected;
     locations_endpoint := fun _ _ => Rejected |}.

(** In London at noon of 20 January 2025, with one offer at 199.99: the
    window back to 21 December lies in winter time. *)
Definition midwinter : Z := 1737374400000.
Definition winterHost : Env := host london midwinter 1799 (priced "199.99") Rejected.

(** A clock that passes midnight (UTC) of 10 April 2025 after its third
    reading: 23:59:59.999 up to there, 00:00:00.000 from then on. *)
Definition midnightHost : Env :=
  {| VITE_AMADEUS_CLIENT_ID := Some "client";
     VITE_AMADEUS_CLIENT_SECRET := Some "secret";
     clock := fun n => if (n <=? 2)%nat then 1744329599999 else 1744329600000;
     timezone := utc;
     Date_parse := fun _ => None;
     Math_random := fun _ => Num.n0_5;
     token_endpoint := fun _ _ => granted 1799;
     offers_endpoint := fun _ _ => priced "199.99";
     locations_endpoint := fun _ _ => Rejected |}.

(** A locations endpoint that answers every keyword with Los Angeles. *)
Definition liveHost : Env := host utc noon 1799 Rejected (located [losAngeles]).

(** A service holding the token "tok", valid for 1799 seconds from noon. *)
Definition holding : State :=
  set_tokenExpiry (Some (Some (noon + 1799000)))
    (set_accessToken (Some "tok") fresh).

End Scenario.

(** * Integers as doubles *)

(** [p] with [k] zero bits appended: [p * 2 ^ k]. *)
Definition shifted (p : positive) (k : Z) : positive :=
  match k with
  | Zpos d => Pos.iter xO p d
  | _ => p
  end.

(** The double of the integer [p], negated when [s], for [p] of at most
    53 bits: the mantissa is [p] brought to 53 bits. *)
Definition integral (s : bool) (p : positive) : Num.number :=
  S754_finite s (shifted p (53 - Z.pos (digits2_pos p))) (Z.pos (digits2_pos p) - 53).

(** * Sessions *)

(** The test of the token in memory at the head of [getAccessToken] fails:
    no token, no expiry, or an expiry that is not after the clock reading. *)
Definition noValidToken (env : Env) (st : State) : Prop :=
  match truthy (accessToken st), tokenExpiry st with
  | Some _, Some expiry => date_gt expiry (clock env (ticks st)) = false
  | _, _ => True
  end.

(** A new page load: the service object is created afresh, [localStorage]
    and the host's bookkeeping stay. *)
Definition restart (st : State) : State :=
  set_tokenExpiry None (set_accessToken None st).

(** The exception with which a failed token exchange ends. *)
Definition exchangeError (r : Fetched Amadeus.AuthResponse) : option Error :=
  match r with
  | Rejected => Some FetchFailed
  | Responded false status statusText _ => Some (AuthenticationFailed status statusText)
  | Responded true _ _ None => Some JsonFailed
  | Responded true _ _ (Some _) => None
  end.

(** The part of [getAccessToken] after the test of the token in memory:
    the check of the configuration and the exchange. *)
Definition requestToken (env : Env) : M string :=
  match truthy (VITE_AMADEUS_CLIENT_ID env),
        truthy (VITE_AMADEUS_CLIENT_SECRET env) with
  | Some clientId, Some clientSecret =>
      try_catch
        (response <- fetch (token_endpoint env) (PostToken clientId clientSecret) ;;
         if negb (ok response) then
           throw (AuthenticationFailed (status response) (statusText response))
         else
           data <- json response ;;
           modify (set_accessToken (Some (Amadeus.access_token data))) ;;;
           t <- now env ;;
           let expiry :=
             Date.ofNumber
               (Num.add (Num.of_Z t) (Num.mul (Amadeus.expires_in data) Num.n1000)) in
           modify (set_tokenExpiry (Some expiry)) ;;;
           setItem "amadeus_token" (Amadeus.access_token data) ;;;
           iso <- toISOString expiry ;;
           setItem "amadeus_token_expiry" iso ;;;
           ret (Amadeus.access_token data))
        (fun error => throw error)
  | _, _ => throw CredentialsNotFound
  end.

(** * Well-formed offers *)

(** What the normaliser reads without a test: a first itinerary, a first
    and a last segment, and a time part in the departure timestamp of the
    first and in the arrival timestamp of the last. *)
Definition wellFormed (offer : Amadeus.FlightOffer) : bool :=
  match Amadeus.itineraries offer with
  | [] => false
  | itinerary :: _ =>
      match Amadeus.segments itinerary, last (Amadeus.segments itinerary) with
      | firstSegment :: _, Some lastSegment =>
          Str.includes (Amadeus.at_ (Amadeus.departure firstSegment)) "T" &&
          Str.includes (Amadeus.at_ (Amadeus.arrival lastSegment)) "T"
      | _, _ => false
      end
  end.

(** The entries of the catalog as suggestions. *)
Definition catalog : list Airport.t :=
  map (fun '(code, data) =>
         {| Airport.code := code; Airport.city := fst data; Airport.name := snd data |})
    mockAirports.

(** * Further scenarios *)

Module Case.

(** The decimal number written by [s], all of whose characters are digits. *)
Definition number (s : string) : option Z :=
  match Str.span_digits s with
  | (d :: ds, EmptyString) => Some (Str.digits_val (d :: ds))
  | _ => None
  end.

(** A Date parser for the format that [toISOString] writes for the years
    0000 to 9999: [YYYY-MM-DDTHH:mm:ss.sssZ]. *)
Definition parseISO (s : string) : option Z :=
  if (String.length s =? 24)%nat then
    match number (String.substring 0 4 s), number (String.substring 5 2 s),
          number (String.substring 8 2 s), number (String.substring 11 2 s),
          number (String.substring 14 2 s), number (String.substring 17 2 s),
          number (String.substring 20 3 s) with
    | Some y, Some mo, Some d, Some h, Some mi, Some sec, Some ms =>
        Date.TimeClip
          (Date.MakeDate (Date.MakeDay y (mo - 1) d)
             (h * 3600000 + mi * 60000 + sec * 1000 + ms))
    | _, _, _, _, _, _, _ => None
    end
  else None.

(** The host [env] with that parser. *)
Definition parsing (env : Env) : Env :=
  {| VITE_AMADEUS_CLIENT_ID := VITE_AMADEUS_CLIENT_ID env;
     VITE_AMADEUS_CLIENT_SECRET := VITE_AMADEUS_CLIENT_SECRET env;
     clock := clock env;
     timezone := timezone env;
     Date_parse := parseISO;
     Math_random := Math_random env;
     token_endpoint := token_endpoint env;
     offers_endpoint := offers_endpoint env;
     locations_endpoint := locations_endpoint env |}.

(** The host [env] without its client secret. *)
Definition unconfigured (env : Env) : Env :=
  {| VITE_AMADEUS_CLIENT_ID := VITE_AMADEUS_CLIENT_ID env;
     VITE_AMADEUS_CLIENT_SECRET := None;
     clock := clock env;
     timezone := timezone env;
     Date_parse := Date_parse env;
     Math_random := Math_random env;
     token_endpoint := token_endpoint env;
     offers_endpoint := offers_endpoint env;
     locations_endpoint := locations_endpoint env |}.

(** The host [env] with a token endpoint that gives the answer [r]. *)
Definition answering (r : Fetched Amadeus.AuthResponse) (env : Env) : Env :=
  {| VITE_AMADEUS_CLIENT_ID := VITE_AMADEUS_CLIENT_ID env;
     VITE_AMADEUS_CLIENT_SECRET := VITE_AMADEUS_CLIENT_SECRET env;
     clock := clock env;
     timezone := timezone env;
     Date_parse := Date_parse env;
     Math_random := Math_random env;
     token_endpoint := fun _ _ => r;
     offers_endpoint := offers_endpoint env;
     locations_endpoint := locations_endpoint env |}.

(** Storage holding the token "old" with an expiry in ISO format. *)
Definition stored (iso : string) : State :=
  set_localStorage
    (<["amadeus_token_expiry" := iso]> (<["amadeus_token" := "old"]> ∅))
    Scenario.fresh.

(** A host whose offers endpoint gives the answer [r]. *)
Definition offering (r : Fetched Amadeus.FlightOffersResponse) : Env :=
  Scenario.host Scenario.utc Scenario.noon 1799 r Rejected.

Definition found (l : list Amadeus.FlightOffer) : Fetched Amadeus.FlightOffersResponse :=
  Responded true 200 "OK" (Some {| Amadeus.offers := Some l |}).

(** A round trip for two. *)
Definition trip : FlightSearchParams :=
  {| origin := "JFK"; destination := "LAX"; departureDate := "2024-06-01";
     returnDate := Some "2024-06-08"; passengers := 2; roundtrip := true |}.

(** An offer without itinerary. *)
Definition bare : Amadeus.FlightOffer :=
  {| Amadeus.id := Some "2"; Amadeus.itineraries := [];
     Amadeus.price := {| Amadeus.total := "10.00"; Amadeus.currency := "USD" |} |}.

(** A direct flight of [airline] at [price] that takes [duration]. *)
Definition flight (id airline duration : string) (price : Num.number) : FlightOffer.t :=
  {| FlightOffer.id := id;
     FlightOffer.airline := airline;
     FlightOffer.flightNumber := airline ++ " 100";
     FlightOffer.departure := FlightOffer.departure Scenario.normalizedX;
     FlightOffer.arrival := FlightOffer.arrival Scenario.normalizedX;
     FlightOffer.duration := duration;
     FlightOffer.stops := 0;
     FlightOffer.price := price;
     FlightOffer.currency := "USD";
     FlightOffer.aircraft := None |}.

Definition dear : FlightOffer.t := flight "1" "AA" "5h10m" (Parse.parseFloat "300").
Definition cheap : FlightOffer.t := flight "2" "UA" "6h5m" (Parse.parseFloat "199.99").
Definition middling : FlightOffer.t := flight "3" "AA" "2h30m" (Parse.parseFloat "250.50").
Definition unpriced : FlightOffer.t := flight "4" "DL" "5h" (Parse.parseFloat "N/A").

End Case.

(** * Numbers in conditions, comparisons and [Math.min] / [Math.max] *)

Module Js.

(** [x > y], [x < y] and [x <= y]: false as soon as one side is NaN. *)
Definition gt (x y : Num.number) : bool := SFltb y x.
Definition lt (x y : Num.number) : bool := SFltb x y.
Definition le (x y : Num.number) : bool := SFleb x y.

(** A number as a condition: false for +0, -0 and NaN. *)
Definition toBoolean (x : Num.number) : bool :=
  match x with
  | S754_zero _ | S754_nan => false
  | _ => true
  end.

(** [Math.min(...values)]: from +Infinity, NaN as soon as one value is
    NaN, and -0 is smaller than +0. *)
Fixpoint lowest_from (lowest : Num.number) (coerced : list Num.number) : Num.number :=
  match coerced with
  | [] => lowest
  | number :: rest =>
      if Num.is_nan number then Num.NaN
      else
        let lowest :=
          match number, lowest with
          | S754_zero true, S754_zero false => number
          | _, _ => lowest
          end in
        lowest_from (if lt number lowest then number else lowest) rest
  end.

Definition Math_min (values : list Num.number) : Num.number :=
  lowest_from (S754_infinity false) values.

(** [Math.max(...values)]: from -Infinity, NaN as soon as one value is
    NaN, and +0 is larger than -0. *)
Fixpoint highest_from (highest : Num.number) (coerced : list Num.number) : Num.number :=
  match coerced with
  | [] => highest
  | number :: rest =>
      if Num.is_nan number then Num.NaN
      else
        let highest :=
          match number, highest with
          | S754_zero false, S754_zero true => number
          | _, _ => highest
          end in
        highest_from (if gt number highest then number else highest) rest
  end.

Definition Math_max (values : list Num.number) : Num.number :=
  highest_from (S754_infinity true) values.

(** How [Array.prototype.sort] reads the number its comparator returns:
    negative puts the first argument first, positive the second, and
    zero or NaN leaves the two in their order. *)
Definition order (v : Num.number) : comparison :=
  match v with
  | S754_finite true _ _ | S754_infinity true => Lt
  | S754_finite false _ _ | S754_infinity false => Gt
  | S754_zero _ | S754_nan => Eq
  end.

(** A number of sign [s]: a finite one or an infinity. *)
Definition signed (s : bool) (v : Num.number) : Prop :=
  (exists m e, v = S754_finite s m e) \/ v = S754_infinity s.

(** [s.toUpperCase()], on the letters a to z. *)
Definition upper_char (c : ascii) : ascii :=
  let n := nat_of_ascii c in
  if (97 <=? n)%nat && (n <=? 122)%nat then ascii_of_nat (n - 32) else c.

Fixpoint toUpperCase (s : string) : string :=
  match s with
  | EmptyString => EmptyString
  | String c r => String (upper_char c) (toUpperCase r)
  end.

(** [l.slice(-n)] *)
Definition slice_last {A} (n : nat) (l : list A) : list A :=
  drop (List.length l - n) l.

(** [l[i]] for an integer [i]: undefined outside the array. *)
Definition item {A} (l : list A) (i : Z) : option A :=
  if i <? 0 then None else l !! Z.to_nat i.

(** [Array.from(new Set(l))]: the distinct values in the order of their
    first occurrence. *)
Fixpoint distinct (seen l : list string) : list string :=
  match l with
  | [] => []
  | x :: r =>
      if existsb (String.eqb x) seen then distinct seen r
      else x :: distinct (x :: seen) r
  end.

End Js.

(** * [PriceGraph] *)

Module PriceGraph.

Inductive Trend := up | down | stable.

(** The state of the component. *)
Record t := {
  priceHistory : list PriceHistory.t;
  isLoading : bool;
  error : option string
}.

(** [item?.price || 0] *)
Definition priceOr0 (item : option PriceHistory.t) : Num.number :=
  match item with
  | Some p =>
      if Js.toBoolean (PriceHistory.price p) then PriceHistory.price p
      else S754_zero false
  | None => S754_zero false
  end.

Definition getPriceTrend (priceHistory : list PriceHistory.t) : option Trend :=
  if (List.length priceHistory <? 2)%nat then None
  else
    let recent := Js.slice_last 7 priceHistory in
    let current := priceOr0 (Js.item recent (Z.of_nat (List.length recent) - 1)) in
    let previous := priceOr0 (Js.item recent (Z.of_nat (List.length recent) - 2)) in
    if Js.gt current previous then Some up
    else if Js.lt current previous then Some down
    else Some stable.

(** [null] is [None]. *)
Definition getCurrentPrice (priceHistory : list PriceHistory.t) (departureDate : string)
    : option Num.number :=
  match List.find (fun item => String.eqb (PriceHistory.date item) departureDate)
          priceHistory with
  | Some selectedData =>
      if Js.toBoolean (PriceHistory.price selectedData)
      then Some (PriceHistory.price selectedData)
      else None
  | None => None
  end.

(** The pair is [{min, max}]. *)
Definition getPriceRange (priceHistory : list PriceHistory.t)
    : option (Num.number * Num.number) :=
  if (List.length priceHistory =? 0)%nat then None
  else
    let prices := map PriceHistory.price priceHistory in
    Some (Js.Math_min prices, Js.Math_max prices).

(** [loadPriceHistory]: the state of the component and of the service
    once the returned promise has settled. *)
Definition loadPriceHistory (env : Env) (origin destination : string)
    (graph : t) (st : State) : t * State :=
  let mockFlightId := "mock-flight-1" in
  match getPriceHistory env mockFlightId origin destination st with
  | (Ok history, st') =>
      ({| priceHistory := history; isLoading := false; error := None |}, st')
  | (Thrown _, st') =>
      ({| priceHistory := priceHistory graph; isLoading := false;
          error := Some "Failed to load price history" |}, st')
  end.

(** The component shows the placeholder "Price history not available". *)
Definition unavailable (graph : t) : bool :=
  match error graph with
  | Some (String _ _) => true
  | _ => (List.length (priceHistory graph) =? 0)%nat
  end.

End PriceGraph.

(** * [App] *)

Module App.

Inductive SortBy := price | duration | departure.

Record FlightFilters := {
  airlines : list string;
  stops : list Z;
  priceRange : Num.number * Num.number;
  sortBy : SortBy
}.

(** The state of the component that [handleSearch] reads and writes. *)
Record t := {
  searchForm : FlightSearchParams;
  flights : list FlightOffer.t;
  isLoading : bool;
  hasSearched : bool
}.

Section Effects.

(** [a.localeCompare(b)], by its sign: the collation of the host. *)
Variable localeCompare : string -> string -> comparison.

(** The comparator given to [filtered.sort]. *)
Definition compareFlights (sortBy : SortBy) (a b : FlightOffer.t) : comparison :=
  match sortBy with
  | price => Js.order (Num.sub (FlightOffer.price a) (FlightOffer.price b))
  | duration => localeCompare (FlightOffer.duration a) (FlightOffer.duration b)
  | departure =>
      localeCompare (FlightOffer.time (FlightOffer.departure a))
                    (FlightOffer.time (FlightOffer.departure b))
  end.

(** The effect on [flights] and [filters]: the list given to
    [setFilteredFlights]. *)
Definition filteredFlights (flights : list FlightOffer.t) (filters : FlightFilters)
    : list FlightOffer.t :=
  let filtered := flights in
  let filtered :=
    if (0 <? List.length (airlines filters))%nat then
      List.filter (fun flight =>
                     existsb (String.eqb (FlightOffer.airline flight)) (airlines filters))
        filtered
    else filtered in
  let filtered :=
    if (0 <? List.length (stops filters))%nat then
      List.filter (fun flight => existsb (Z.eqb (FlightOffer.stops flight)) (stops filters))
        filtered
    else filtered in
  let filtered :=
    List.filter (fun flight =>
                   Num.ge (FlightOffer.price flight) (fst (priceRange filters)) &&
                   Js.le (FlightOffer.price flight) (snd (priceRange filters)))
      filtered in
  sort (compareFlights (sortBy filters)) filtered.

End Effects.

(** The filters of the initial state and of the two "clear" buttons. *)
Definition defaultFilters : FlightFilters :=
  {| airlines := []; stops := [];
     priceRange := (S754_zero false, Num.of_Z 2000); sortBy := price |}.

(** [flight] passes every active filter: the airline boxes when one is
    checked, the stops boxes when one is checked, and the price range. *)
Definition passes (filters : FlightFilters) (flight : FlightOffer.t) : bool :=
  (match airlines filters with
   | [] => true
   | _ => existsb (String.eqb (FlightOffer.airline flight)) (airlines filters)
   end) &&
  (match stops filters with
   | [] => true
   | _ => existsb (Z.eqb (FlightOffer.stops flight)) (stops filters)
   end) &&
  (Num.ge (FlightOffer.price flight) (fst (priceRange filters)) &&
   Js.le (FlightOffer.price flight) (snd (priceRange filters))).

(** The order of two flights by the order of their prices. *)
Definition priceOrder (a b : FlightOffer.t) : comparison :=
  match SFcompare (FlightOffer.price a) (FlightOffer.price b) with
  | Some c => c
  | None => Eq
  end.

(** The effect on [flights]: the filters after [setFilters]. *)
Definition updatePriceRange (flights : list FlightOffer.t) (prev : FlightFilters)
    : FlightFilters :=
  if (0 <? List.length flights)%nat then
    let prices := map FlightOffer.price flights in
    let minPrice := Js.Math_min prices in
    let maxPrice := Js.Math_max prices in
    {| airlines := airlines prev; stops := stops prev;
       priceRange := (minPrice, maxPrice); sortBy := sortBy prev |}
  else prev.

(** The airlines offered as checkboxes. *)
Definition airlineOptions (flights : list FlightOffer.t) : list string :=
  Js.distinct [] (map FlightOffer.airline flights).

(** [onChange] of the checkbox of [airline]. *)
Definition toggleAirline (airline : string) (checked : bool) (prev : FlightFilters)
    : FlightFilters :=
  if checked then
    {| airlines := (airlines prev ++ [airline])%list; stops := stops prev;
       priceRange := priceRange prev; sortBy := sortBy prev |}
  else
    {| airlines := List.filter (fun a => negb (String.eqb a airline)) (airlines prev);
       stops := stops prev; priceRange := priceRange prev; sortBy := sortBy prev |}.

(** [onChange] of the checkbox of a number of stops. *)
Definition toggleStops (n : Z) (checked : bool) (prev : FlightFilters) : FlightFilters :=
  if checked then
    {| airlines := airlines prev; stops := (stops prev ++ [n])%list;
       priceRange := priceRange prev; sortBy := sortBy prev |}
  else
    {| airlines := airlines prev;
       stops := List.filter (fun s => negb (Z.eqb s n)) (stops prev);
       priceRange := priceRange prev; sortBy := sortBy prev |}.

(** [handleSearch]: the state of the component and of the service once
    the returned promise has settled. *)
Definition handleSearch (env : Env) (app : t) (st : State) : t * State :=
  let form := searchForm app in
  match origin form, destination form, departureDate form with
  | String _ _, String _ _, String _ _ =>
      let searchParams :=
        {| origin := Js.toUpperCase (origin form);
           destination := Js.toUpperCase (destination form);
           departureDate := departureDate form;
           returnDate := returnDate form;
           passengers := passengers form;
           roundtrip := roundtrip form |} in
      match searchFlights env searchParams st with
      | (Ok results, st') =>
          ({| searchForm := form; flights := results;
              isLoading := false; hasSearched := true |}, st')
      | (Thrown _, st') =>
          ({| searchForm := form; flights := [];
              isLoading := false; hasSearched := true |}, st')
      end
  | _, _, _ => (app, st)
  end.

End App.

(** * Properties *)

(** ** Strings *)

Lemma prefix_char c a r :
  String.prefix (String c EmptyString) (String a r) = true <-> a = c.
Proof.
  simpl. destruct (ascii_dec c a) as [->|Hne].
  - destruct r; tauto.
  - split; [discriminate | congruence].
Qed.

Lemma split_nonempty c s : Str.split c s <> [].
Proof.
  destruct s as [|a r]; simpl; [discriminate|].
  destruct (Ascii.eqb a c); [discriminate|].
  destruct (Str.split c r); discriminate.
Qed.

Lemma includes_split c s :
  Str.includes s (String c EmptyString) = true ->
  exists d t rest, Str.split c s = d :: t :: rest.
Proof.
  induction s as [|a r IH].
  - discriminate.
  - cbn [Str.includes Str.split]. intros H.
    destruct (Ascii.eqb a c) eqn:Eac.
    + destruct (Str.split c r) as [|t rest] eqn:E; [|eauto].
      now apply split_nonempty in E.
    + apply orb_true_iff in H as [H|H].
      * apply prefix_char in H. apply Ascii.eqb_neq in Eac. contradiction.
      * destruct (IH H) as (d & t & rest & ->). eauto.
Qed.

Example round_examples :
  Num.Math_round (Prim2SF 2.5%float) = Prim2SF 3%float /\
  Num.Math_round (Prim2SF (-2.5)%float) = Prim2SF (-2)%float /\
  Num.Math_round (Prim2SF 149.7%float) = Prim2SF 150%float /\
  Num.Math_round (Prim2SF (-0.2)%float) = Prim2SF (-0)%float.
Proof. vm_compute. repeat split. Qed.

Example parse_examples :
  Parse.parseFloat "199.99" = Prim2SF 199.99%float /\
  Parse.parseFloat "  -0.1e1xyz" = Prim2SF (-1)%float /\
  Parse.parseFloat "1e400" = S754_infinity false /\
  Parse.parseFloat "123456789012345678901234567890"
  = Prim2SF 123456789012345678901234567890%float /\
  Parse.parseFloat "0.30000000000000004" = Prim2SF 0.30000000000000004%float /\
  Parse.parseFloat "5e-324" = Prim2SF 5e-324%float /\
  Parse.parseFloat "2.2250738585072012e-308" = Prim2SF 2.2250738585072012e-308%float /\
  Parse.parseFloat "N/A" = Num.NaN /\
  Parse.parseFloat ".5" = Prim2SF 0.5%float /\
  Parse.parseFloat "3." = Prim2SF 3%float.
Proof. vm_compute. repeat split. Qed.

Example str_examples :
  Str.split "T" "2024-06-01T08:00" = ["2024-06-01"; "08:00"] /\
  Str.replace "PT" "" "PT2H30M" = "2H30M" /\
  Str.toLowerCase "2H30M" = "2h30m" /\
  Str.includes "los angeles" "ang" = true /\
  Str.includes "paris" "x" = false /\
  Str.of_index 12 = "12" /\ Str.of_index 0 = "0".
Proof. vm_compute. repeat split. Qed.

Example date_examples :
  Date.toISOString 1717228800123 = "2024-06-01T08:00:00.123Z" /\
  Date.toISOString 0 = "1970-01-01T00:00:00.000Z" /\
  Date.toISOString (-1) = "1969-12-31T23:59:59.999Z" /\
  Date.toISOString 951782400000 = "2000-02-29T00:00:00.000Z" /\
  Date.toISOString 4107542400000 = "2100-03-01T00:00:00.000Z" /\
  Date.toISOString 253402300799999 = "9999-12-31T23:59:59.999Z" /\
  Date.toISOString 253402300800000 = "+010000-01-01T00:00:00.000Z" /\
  Date.toISOString (-62198755200000) = "-000001-01-01T00:00:00.000Z" /\
  Date.WeekDay 1717228800123 = 6.
Proof. vm_compute. repeat split. Qed.

(** ** The offer normaliser *)

Lemma time_of_includes s :
  Str.includes s "T" = true -> exists t, time_of s = Ok t.
Proof.
  intros H. unfold time_of.
  destruct (includes_split _ _ H) as (d & t & rest & ->). eauto.
Qed.

Lemma normalize_inv offer index f :
  normalize offer index = Ok f ->
  exists itinerary rest,
    Amadeus.itineraries offer = itinerary :: rest /\
    FlightOffer.stops f = Z.of_nat (List.length (Amadeus.segments itinerary)) - 1 /\
    FlightOffer.id f =
      match truthy (Amadeus.id offer) with
      | Some id => id
      | None => "flight-" ++ Str.of_index index
      end.
Proof.
  unfold normalize.
  destruct (Amadeus.itineraries offer) as [|itinerary rest]; [discriminate|].
  destruct (Amadeus.segments itinerary) as [|firstSegment more] eqn:Esegs; [discriminate|].
  destruct (last (firstSegment :: more)) as [lastSegment|]; [|discriminate].
  destruct (time_of _); [|discriminate].
  destruct (time_of _); [|discriminate].
  intros [= <-]. exists itinerary, rest. rewrite Esegs. auto.
Qed.

(** C7: for an offer whose first itinerary has N >= 1 segments, every
    normalised offer has stops = N - 1 (so stops = 0 for N = 1); and the
    normaliser does return one when the timestamps of the segments have a
    time part. *)
Theorem normalize_stops offer index itinerary rest :
  Amadeus.itineraries offer = itinerary :: rest ->
  (1 <= List.length (Amadeus.segments itinerary))%nat ->
  (forall f, normalize offer index = Ok f ->
     FlightOffer.stops f = Z.of_nat (List.length (Amadeus.segments itinerary)) - 1 /\
     (List.length (Amadeus.segments itinerary) = 1%nat -> FlightOffer.stops f = 0)) /\
  (Forall (fun sg =>
             Str.includes (Amadeus.at_ (Amadeus.departure sg)) "T" = true /\
             Str.includes (Amadeus.at_ (Amadeus.arrival sg)) "T" = true)
          (Amadeus.segments itinerary) ->
   exists f, normalize offer index = Ok f).
Proof.
  intros Hit Hlen. split.
  - intros f Hf. destruct (normalize_inv _ _ _ Hf) as (it' & rest' & Hit' & Hstops & _).
    rewrite Hit in Hit'. injection Hit' as <- <-.
    split; [exact Hstops|]. intros H1. rewrite Hstops, H1. reflexivity.
  - intros Hwf. unfold normalize. rewrite Hit.
    destruct (Amadeus.segments itinerary) as [|firstSegment more] eqn:Esegs;
      [simpl in Hlen; lia|].
    destruct (last (firstSegment :: more)) as [lastSegment|] eqn:Elast.
    + assert (Hin : lastSegment ∈ firstSegment :: more).
      { apply last_Some in Elast as [l' ->]. apply elem_of_app. right.
        apply list_elem_of_singleton. reflexivity. }
      rewrite Forall_forall in Hwf.
      destruct (Hwf firstSegment) as [Hd _]; [left; reflexivity|].
      destruct (Hwf lastSegment) as [_ Ha]; [exact Hin|].
      destruct (time_of_includes _ Hd) as [td ->].
      destruct (time_of_includes _ Ha) as [ta ->].
      eauto.
    + apply last_None in Elast. discriminate.
Qed.

Lemma normalize_stops_witness :
  exists f, normalize Scenario.offerX 0 = Ok f /\ FlightOffer.stops f = 0.
Proof.
  destruct (normalize_stops Scenario.offerX 0 _ _ eq_refl (le_n 1)) as [Hstops Htotal].
  destruct Htotal as [f Hf].
  - repeat constructor.
  - exists f. split; [exact Hf|]. apply (Hstops f Hf). reflexivity.
Defined.

(** C8: the raw offer of the scenario normalises, at any index, to id "X",
    airline "AA", flight number "AA 100", departure JFK 08:00 on
    2024-06-01, arrival LAX 11:30 on 2024-06-01, duration "2h30m", no
    stop, price 199.99 and currency "USD". *)
Theorem normalize_scenario index :
  normalize Scenario.offerX index = Ok Scenario.normalizedX.
Proof. vm_compute. reflexivity. Qed.

(** C10: when the offer's id is absent or the empty string, the normalised
    offer carries the synthetic id "flight-" followed by the index, which
    is never the empty id. *)
Theorem normalize_falsy_id offer index f :
  truthy (Amadeus.id offer) = None ->
  normalize offer index = Ok f ->
  FlightOffer.id f = "flight-" ++ Str.of_index index /\
  FlightOffer.id f <> "".
Proof.
  intros Hid Hf. destruct (normalize_inv _ _ _ Hf) as (_ & _ & _ & _ & ->).
  rewrite Hid. split; [reflexivity | discriminate].
Qed.

Lemma normalize_falsy_id_witness :
  exists f, normalize (Scenario.offer (Some "")) 3 = Ok f /\
            FlightOffer.id f = "flight-3" /\ FlightOffer.id f <> "".
Proof.
  eexists. split; [vm_compute; reflexivity|].
  apply (normalize_falsy_id (Scenario.offer (Some "")) 3); reflexivity.
Defined.

(** ** Token acquisition *)

Ltac state_fields :=
  cbv [set_accessToken set_tokenExpiry set_localStorage set_ticks set_draws
       set_requests accessToken tokenExpiry localStorage ticks draws requests].

Lemma truthy_Some s v : truthy s = Some v -> s = Some v /\ v <> "".
Proof.
  destruct s as [[|c r]|]; simpl; intros [= <-]; split; congruence.
Qed.

Lemma truthy_nonempty v : v <> "" -> truthy (Some v) = Some v.
Proof. destruct v; [congruence | reflexivity]. Qed.

Lemma getAccessToken_in_memory env st token e :
  accessToken st = Some token -> token <> "" ->
  tokenExpiry st = Some (Some e) ->
  clock env (ticks st) < e ->
  getAccessToken env st = (Ok token, set_ticks (S (ticks st)) st).
Proof.
  intros Htok Hne Hexp Hlt. unfold getAccessToken, bind, get.
  rewrite Htok, Hexp, (truthy_nonempty _ Hne). unfold now, ret, date_gt.
  apply Z.ltb_lt in Hlt. rewrite Hlt. reflexivity.
Qed.

(** C6: with a non-empty token in memory whose expiry lies after every
    clock reading of the calls, [n] successive acquisitions all return
    that token; no request is sent, storage is not written, and the
    credential in memory stays as it is. *)
Theorem acquireTokens_no_exchange env st token e n :
  accessToken st = Some token -> token <> "" ->
  tokenExpiry st = Some (Some e) ->
  (forall k, (k < n)%nat -> clock env (ticks st + k) < e) ->
  exists st',
    acquireTokens env n st = (Ok (replicate n token), st') /\
    requests st' = requests st /\
    localStorage st' = localStorage st /\
    accessToken st' = Some token /\
    tokenExpiry st' = Some (Some e).
Proof.
  revert st. induction n as [|n IH]; intros st Htok Hne Hexp Hclock.
  - exists st. simpl. unfold ret. auto.
  - cbn [acquireTokens]. unfold bind at 1.
    rewrite (getAccessToken_in_memory env st token e Htok Hne Hexp).
    2:{ specialize (Hclock 0%nat). rewrite Nat.add_0_r in Hclock. apply Hclock. lia. }
    destruct (IH (set_ticks (S (ticks st)) st)) as (st' & Hrun & Hreq & Hsto & Hacc & Hex);
      auto.
    { intros k Hk. simpl. replace (S (ticks st + k)) with (ticks st + S k)%nat by lia.
      apply Hclock. lia. }
    exists st'. unfold bind. rewrite Hrun. unfold ret. simpl. auto.
Qed.

Lemma acquireTokens_no_exchange_witness :
  exists st',
    acquireTokens Scenario.unreachableHost 3
      Scenario.holding = (Ok ["tok"; "tok"; "tok"], st') /\
    requests st' = [] /\ localStorage st' = ∅ /\
    accessToken st' = Some "tok" /\
    tokenExpiry st' = Some (Some (Scenario.noon + 1799000)).
Proof.
  apply (acquireTokens_no_exchange
           Scenario.unreachableHost
           Scenario.holding
           "tok" (Scenario.noon + 1799000) 3).
  - reflexivity.
  - discriminate.
  - reflexivity.
  - intros k _. vm_compute. reflexivity.
Defined.

Lemma loadStoredToken_returns env st :
  exists st', loadStoredToken env st = (Ok tt, st').
Proof.
  unfold loadStoredToken, bind, getItem.
  destruct (truthy (localStorage st !! "amadeus_token")); [|eexists; reflexivity].
  destruct (truthy (localStorage st !! "amadeus_token_expiry")); [|eexists; reflexivity].
  unfold now. destruct (date_gt _ _); eexists; reflexivity.
Qed.

(** ** Running computations *)

Lemma bind_Ok {A B} (c : M A) (k : A -> M B) st b st' :
  bind c k st = (Ok b, st') ->
  exists a st1, c st = (Ok a, st1) /\ k a st1 = (Ok b, st').
Proof.
  unfold bind. destruct (c st) as [[a|e] st1]; [eauto | discriminate].
Qed.

Lemma fetch_Ok {B} (endpoint : list Request -> Request -> Fetched B) r st resp st' :
  fetch endpoint r st = (Ok resp, st') ->
  endpoint (requests st) r = Responded (ok resp) (status resp) (statusText resp) (body resp) /\
  st' = set_requests (r :: requests st) st.
Proof.
  unfold fetch. destruct (endpoint (requests st) r); [discriminate|].
  intros [= <- <-]. auto.
Qed.

(** ** Airport lookup *)

Lemma getMockAirports_match query :
  Forall (fun a => matches query a = true) (getMockAirports query).
Proof.
  unfold getMockAirports. apply Forall_take. apply Forall_forall.
  intros a Ha. apply list_elem_of_In, in_map_iff in Ha as ([code data] & <- & Hin).
  apply filter_In in Hin as [_ Hin]. exact Hin.
Qed.

(** C2, as the code has it: [getAirports] always returns, with at most 5
    suggestions. They are either the filtered catalog, all of whose
    entries match the keyword against code, city or name in lower case, or
    the first five locations of a successful provider response converted
    as they come, with no test against the keyword. *)
Theorem getAirports_result env query st :
  exists l st',
    getAirports env query st = (Ok l, st') /\
    (List.length l <= 5)%nat /\
    ((l = getMockAirports query /\ Forall (fun a => matches query a = true) l) \/
     (exists log token s t data,
        locations_endpoint env log (GetLocations query token)
          = Responded true s t (Some data) /\
        l = take 5 (match Amadeus.locations data with
                    | Some locs => map airportOf locs
                    | None => []
                    end))).
Proof.
  unfold getAirports, try_catch.
  match goal with
  | |- context [match ?c st with _ => _ end] => destruct (c st) as [[l|e] st1] eqn:Erun
  end.
  - exists l, st1. split; [reflexivity|].
    apply bind_Ok in Erun as (_ & s1 & _ & Erun).
    apply bind_Ok in Erun as (token & s2 & _ & Erun).
    apply bind_Ok in Erun as (response & s3 & Hfetch & Erun).
    apply fetch_Ok in Hfetch as [Hresp _].
    destruct (ok response) eqn:Eok; [|discriminate]. cbn [negb] in Erun.
    apply bind_Ok in Erun as (data & s4 & Hjson & Erun).
    unfold json in Hjson. destruct (body response) as [b|] eqn:Ebody; [|discriminate].
    injection Hjson as -> ->. injection Erun as <- <-.
    split; [rewrite length_take; lia|].
    right. exists (requests s2), token, (status response), (statusText response), data.
    split; [exact Hresp | reflexivity].
  - exists (getMockAirports query), st1. split; [reflexivity|].
    split.
    + unfold getMockAirports. rewrite length_take. lia.
    + left. split; [reflexivity | apply getMockAirports_match].
Qed.

(** C2, as stated, fails on the live path: for the keyword "zzz" the
    provider's location LAX is returned although the keyword occurs in
    none of its code, city and name. *)
Lemma getAirports_live_unfiltered :
  exists a st',
    getAirports
      Scenario.liveHost
      "zzz" Scenario.fresh = (Ok [a], st') /\
    matches "zzz" a = false.
Proof.
  eexists. eexists. split; [vm_compute; reflexivity|]. vm_compute. reflexivity.
Qed.

(** ** Numbers *)

Lemma SFcompare_antisym x y c :
  SFcompare x y = Some c -> SFcompare y x = Some (CompOpp c).
Proof.
  destruct x as [sx|sx| |sx mx ex], y as [sy|sy| |sy my ey]; simpl;
    try discriminate; try (intros [= <-]);
    try (destruct sx); try (destruct sy); try reflexivity.
  all: rewrite (Z.compare_antisym ex ey); destruct (ex ?= ey); simpl; try reflexivity.
  all: rewrite (Pos.compare_cont_antisym); simpl; try reflexivity.
  all: rewrite ?CompOpp_involutive; reflexivity.
Qed.

Lemma SFcompare_refl x : Num.is_nan x = false -> SFcompare x x = Some Eq.
Proof.
  destruct x as [s|s| |s m e]; simpl; try discriminate; intros _;
    try (destruct s; reflexivity).
  rewrite Z.compare_refl, Pos.compare_cont_refl. destruct s; reflexivity.
Qed.

Lemma Math_max_ge x y :
  Num.is_nan (Num.Math_max x y) = false -> Num.ge (Num.Math_max x y) y = true.
Proof.
  unfold Num.Math_max, Num.ge, SFleb.
  destruct (SFcompare x y) as [[| |]|] eqn:E; try discriminate.
  - intros _. apply SFcompare_antisym in E. simpl in E.
    destruct x as [[|]| | |], y as [[|]| | |]; try rewrite E; try reflexivity.
  - intros Hy. rewrite (SFcompare_refl _ Hy). reflexivity.
  - intros _. apply SFcompare_antisym in E. rewrite E. reflexivity.
Qed.

Lemma iter_xO_Z p k : Zpos (Pos.iter xO p k) = Zpos p * 2 ^ Zpos k.
Proof.
  induction k as [|k IH] using Pos.peano_ind.
  - simpl. lia.
  - rewrite Pos.iter_succ, Pos2Z.inj_succ, Z.pow_succ_r by lia.
    rewrite Pos2Z.inj_xO, IH. lia.
Qed.

Lemma digits2_pos_iter p k :
  digits2_pos (Pos.iter xO p k) = (digits2_pos p + k)%positive.
Proof.
  induction k as [|k IH] using Pos.peano_ind.
  - simpl. lia.
  - rewrite Pos.iter_succ. simpl. rewrite IH. lia.
Qed.

Lemma shr_exponent mrs e n : e <= snd (shr mrs e n).
Proof. unfold shr. destruct n; simpl; lia. Qed.

Lemma binary_round_aux_integer s m e l :
  0 <= e ->
  Num.is_finite (binary_round_aux prec emax s m e l) = true ->
  Num.is_integer (binary_round_aux prec emax s m e l) = true.
Proof.
  intros He. unfold binary_round_aux, shr_fexp.
  match goal with |- context [shr ?a e ?n] =>
    pose proof (shr_exponent a e n) as H1; destruct (shr a e n) as [mrs' e'] end.
  match goal with |- context [shr ?a e' ?n] =>
    pose proof (shr_exponent a e' n) as H2; destruct (shr a e' n) as [mrs'' e''] end.
  simpl in H1, H2.
  destruct (shr_m mrs''); try reflexivity; try discriminate.
  destruct (e'' <=? emax - prec); [|discriminate].
  intros _. simpl. apply orb_true_iff. left. apply Z.leb_le. lia.
Qed.

Lemma binary_round_integer s p :
  Num.is_finite (binary_round prec emax s p 0) = true ->
  Num.is_integer (binary_round prec emax s p 0) = true.
Proof.
  unfold binary_round, shl_align.
  destruct (fexp prec emax (Z.pos (digits2_pos p) + 0) - 0) as [|k|k] eqn:Ek;
    try (apply binary_round_aux_integer; lia).
  assert (Hd : Z.pos (digits2_pos p) + Z.pos k = 53).
  { revert Ek. unfold fexp, emin, prec, emax. lia. }
  assert (Hez : fexp prec emax (Z.pos (digits2_pos p) + 0) = Z.neg k) by lia.
  rewrite Hez.
  unfold binary_round_aux, shr_fexp. cbn [Zdigits2 shr_record_of_loc].
  rewrite digits2_pos_iter.
  replace (fexp prec emax (Z.pos (digits2_pos p + k) + Z.neg k) - Z.neg k) with 0
    by (unfold fexp, emin, prec, emax; lia).
  cbn [shr shr_m loc_of_shr_record round_nearest_even Zdigits2 shr_record_of_loc].
  rewrite digits2_pos_iter.
  replace (fexp prec emax (Z.pos (digits2_pos p + k) + Z.neg k) - Z.neg k) with 0
    by (unfold fexp, emin, prec, emax; lia).
  cbn [shr shr_m].
  destruct (Z.neg k <=? emax - prec); [|discriminate].
  intros _. cbn [Num.is_integer]. apply orb_true_iff. right.
  rewrite iter_xO_Z. change (- Z.neg k) with (Z.pos k).
  rewrite Z.mod_mul; [reflexivity|]. apply Z.pow_nonzero; lia.
Qed.

Lemma of_Z_integer n :
  Num.is_finite (Num.of_Z n) = true -> Num.is_integer (Num.of_Z n) = true.
Proof.
  unfold Num.of_Z, binary_normalize. destruct n; [reflexivity| |];
    apply binary_round_integer.
Qed.

Lemma Math_round_integer x :
  Num.is_finite (Num.Math_round x) = true -> Num.is_integer (Num.Math_round x) = true.
Proof.
  destruct x as [s|s| |s m e]; try reflexivity; try discriminate.
  unfold Num.Math_round. destruct (0 <=? e) eqn:Ee.
  - intros _. simpl. rewrite Ee. reflexivity.
  - match goal with |- context [if ?n =? 0 then _ else _] => destruct (n =? 0) end;
      [reflexivity | apply of_Z_integer].
Qed.

Lemma Math_max_cases x y :
  Num.Math_max x y = x \/ Num.Math_max x y = y \/ Num.Math_max x y = Num.NaN.
Proof.
  unfold Num.Math_max. destruct (SFcompare x y) as [[| |]|]; auto.
  destruct x as [[|]| | |]; auto. destruct y as [[|]| | |]; auto.
Qed.

(** ** Calendar and ISO dates *)

Module DateFacts.
Import Date.

Ltac div_lia := unfold DayFromYear in *; Z.to_euclidean_division_equations; lia.

Lemma DayFromYear_succ y : 365 <= DayFromYear (y + 1) - DayFromYear y <= 366.
Proof. div_lia. Qed.

Lemma DayFromYear_mono y y' : y <= y' -> DayFromYear y <= DayFromYear y'.
Proof. intros H. div_lia. Qed.

Lemma DayFromYear_lt y y' : DayFromYear y < DayFromYear y' -> y < y'.
Proof.
  intros H. destruct (Z.lt_ge_cases y y') as [|Hge]; [assumption|].
  apply DayFromYear_mono in Hge. lia.
Qed.

Lemma YearFromDay_spec d :
  DayFromYear (YearFromDay d) <= d < DayFromYear (YearFromDay d + 1).
Proof.
  unfold YearFromDay.
  destruct (Z.leb_spec (DayFromYear (1970 + 400 * d / 146097 + 1)) d);
    [|destruct (Z.ltb_spec d (DayFromYear (1970 + 400 * d / 146097)))];
    div_lia.
Qed.

Lemma YearFromDay_mono d d' : d <= d' -> YearFromDay d <= YearFromDay d'.
Proof.
  intros H. pose proof (YearFromDay_spec d). pose proof (YearFromDay_spec d').
  assert (YearFromDay d < YearFromDay d' + 1); [|lia].
  apply DayFromYear_lt. lia.
Qed.

Lemma MonthFromDay_range dwy leap : 0 <= MonthFromDay dwy leap <= 11.
Proof. unfold MonthFromDay. repeat (destruct (_ <? _); [lia|]). lia. Qed.

Lemma MonthFromDay_mono dwy dwy' leap :
  dwy <= dwy' -> MonthFromDay dwy leap <= MonthFromDay dwy' leap.
Proof.
  intros H. unfold MonthFromDay.
  repeat match goal with
         | |- context [?a <? ?b] => destruct (Z.ltb_spec a b)
         end; lia.
Qed.

Lemma DateFromDay_range dwy leap :
  0 <= leap <= 1 -> 0 <= dwy < 365 + leap ->
  1 <= dwy - DaysBeforeMonth (MonthFromDay dwy leap) leap + 1 <= 31.
Proof.
  intros Hl Hd. unfold MonthFromDay.
  repeat match goal with
         | |- context [?a <? ?b] => destruct (Z.ltb_spec a b)
         end; cbn [DaysBeforeMonth]; lia.
Qed.

Lemma MakeDay_DateFromTime lt k :
  MakeDay (YearFromTime lt) (MonthFromTime lt) (DateFromTime lt - k) = Day lt - k.
Proof.
  unfold MakeDay, DateFromTime, DayWithinYear, InLeapYear.
  pose proof (MonthFromDay_range (DayWithinYear lt) (InLeapYear lt)) as Hm.
  fold (MonthFromTime lt) in Hm.
  rewrite (Z.div_small (MonthFromTime lt) 12), (Z.mod_small (MonthFromTime lt) 12) by lia.
  rewrite Z.add_0_r. unfold MonthFromTime, InLeapYear. lia.
Qed.

Lemma setDateLocal_getDate tz t k :
  setDateLocal tz t (getDate tz t - k) = LocalTime tz t - k * msPerDay.
Proof.
  unfold setDateLocal, getDate. rewrite MakeDay_DateFromTime.
  unfold MakeDate, Day, TimeWithinDay, msPerDay.
  pose proof (Z.div_mod (LocalTime tz t) 86400000). lia.
Qed.



Lemma ascii_compare_refl a : Ascii.compare a a = Eq.
Proof. apply N.compare_refl. Qed.

Lemma string_compare_refl s : String.compare s s = Eq.
Proof. induction s as [|a r IH]; simpl; [reflexivity|]. now rewrite ascii_compare_refl. Qed.

Lemma append_String a s t : String a s ++ t = String a (s ++ t).
Proof. reflexivity. Qed.

Lemma append_Empty t : EmptyString ++ t = t.
Proof. reflexivity. Qed.

Lemma string_compare_app s1 s2 t1 t2 :
  String.length s1 = String.length s2 ->
  String.compare (s1 ++ t1) (s2 ++ t2) =
  match String.compare s1 s2 with
  | Eq => String.compare t1 t2
  | c => c
  end.
Proof.
  revert s2. induction s1 as [|a r IH]; intros [|b r']; simpl; try discriminate.
  - reflexivity.
  - intros [= Hlen]. destruct (Ascii.compare a b); auto.
Qed.

Lemma digit_compare a b :
  0 <= a <= 9 -> 0 <= b <= 9 ->
  Ascii.compare (digit a) (digit b) = (a ?= b).
Proof.
  intros Ha Hb.
  assert (Ea : a = 0 \/ a = 1 \/ a = 2 \/ a = 3 \/ a = 4 \/
               a = 5 \/ a = 6 \/ a = 7 \/ a = 8 \/ a = 9) by lia.
  assert (Eb : b = 0 \/ b = 1 \/ b = 2 \/ b = 3 \/ b = 4 \/
               b = 5 \/ b = 6 \/ b = 7 \/ b = 8 \/ b = 9) by lia.
  repeat (destruct Ea as [->|Ea]); try subst a;
    repeat (destruct Eb as [->|Eb]); try subst b; reflexivity.
Qed.

Lemma pad_length w v : String.length (pad w v) = w.
Proof. induction w; simpl; congruence. Qed.

Lemma pad_lt w a b :
  a mod 10 ^ Z.of_nat w < b mod 10 ^ Z.of_nat w ->
  String.compare (pad w a) (pad w b) = Lt.
Proof.
  induction w as [|w IH].
  - simpl. rewrite !Z.mod_1_r. lia.
  - rewrite Nat2Z.inj_succ, Z.pow_succ_r by lia.
    set (p := 10 ^ Z.of_nat w) in *.
    assert (Hp : 0 < p) by (apply Z.pow_pos_nonneg; lia).
    rewrite (Z.mul_comm 10 p), !Z.rem_mul_r by lia.
    intros H. cbn [pad String.compare]. fold p.
    pose proof (Z.mod_pos_bound a p Hp). pose proof (Z.mod_pos_bound b p Hp).
    pose proof (Z.mod_pos_bound (a / p) 10 ltac:(lia)).
    pose proof (Z.mod_pos_bound (b / p) 10 ltac:(lia)).
    rewrite digit_compare by lia.
    destruct (Z.compare_spec ((a / p) mod 10) ((b / p) mod 10)) as [E|E|E].
    + apply IH. rewrite E in H. lia.
    + reflexivity.
    + nia.
Qed.

Lemma year_range d :
  DayFromYear 0 <= d < DayFromYear 10000 -> 0 <= YearFromDay d <= 9999.
Proof.
  intros H. pose proof (YearFromDay_spec d) as Hy.
  assert (0 < YearFromDay d + 1) by (apply DayFromYear_lt; lia).
  assert (YearFromDay d < 10000) by (apply DayFromYear_lt; lia).
  lia.
Qed.

Lemma leap_range y : 0 <= DaysInYear y - 365 <= 1.
Proof. unfold DaysInYear. pose proof (DayFromYear_succ y). lia. Qed.

Lemma iso_date_lt t1 t2 :
  Day t1 < Day t2 ->
  DayFromYear 0 <= Day t1 -> Day t2 < DayFromYear 10000 ->
  String.compare (iso_date t1) (iso_date t2) = Lt.
Proof.
  intros Hlt Hlo Hhi. unfold iso_date, iso_year.
  unfold DateFromTime, MonthFromTime, InLeapYear, DayWithinYear, YearFromTime.
  pose proof (YearFromDay_mono (Day t1) (Day t2) ltac:(lia)) as Hy.
  pose proof (year_range (Day t1) ltac:(lia)) as Hy1.
  pose proof (year_range (Day t2) ltac:(lia)) as Hy2.
  pose proof (YearFromDay_spec (Day t1)) as Hs1.
  pose proof (YearFromDay_spec (Day t2)) as Hs2.
  set (y1 := YearFromDay (Day t1)) in *. set (y2 := YearFromDay (Day t2)) in *.
  replace ((0 <=? y1) && (y1 <=? 9999)) with true by (symmetry; apply andb_true_iff; lia).
  replace ((0 <=? y2) && (y2 <=? 9999)) with true by (symmetry; apply andb_true_iff; lia).
  rewrite string_compare_app by (rewrite !pad_length; reflexivity).
  destruct (Z.eq_dec y1 y2) as [Ey|Ney].
  - fold y1 y2. rewrite <- Ey in *. rewrite string_compare_refl.
    rewrite !append_String, !append_Empty. cbn [String.compare].
    rewrite ascii_compare_refl.
    pose proof (leap_range y1) as Hl.
    set (leap := DaysInYear y1 - 365) in *.
    assert (Hd1 : 0 <= Day t1 - DayFromYear y1 < 365 + leap)
      by (unfold leap, DaysInYear; lia).
    assert (Hd2 : 0 <= Day t2 - DayFromYear y1 < 365 + leap)
      by (unfold leap, DaysInYear; lia).
    set (w1 := Day t1 - DayFromYear y1) in *. set (w2 := Day t2 - DayFromYear y1) in *.
    pose proof (MonthFromDay_mono w1 w2 leap ltac:(lia)) as Hm.
    pose proof (MonthFromDay_range w1 leap) as Hm1.
    pose proof (MonthFromDay_range w2 leap) as Hm2.
    pose proof (DateFromDay_range w1 leap Hl Hd1) as Hdt1.
    pose proof (DateFromDay_range w2 leap Hl Hd2) as Hdt2.
    rewrite string_compare_app by (rewrite !pad_length; reflexivity).
    destruct (Z.eq_dec (MonthFromDay w1 leap) (MonthFromDay w2 leap)) as [Em|Nem].
    + rewrite <- Em in *. rewrite string_compare_refl.
      cbn [String.compare]. rewrite ascii_compare_refl.
      apply pad_lt. change (10 ^ Z.of_nat 2) with 100.
      rewrite !Z.mod_small by lia. lia.
    + rewrite pad_lt; [reflexivity|]. change (10 ^ Z.of_nat 2) with 100.
      rewrite !Z.mod_small by lia. lia.
  - rewrite pad_lt; [reflexivity|]. change (10 ^ Z.of_nat 4) with 10000.
    rewrite !Z.mod_small by lia. lia.
Qed.

Lemma avoids_app c s t : Str.avoids c s -> Str.avoids c t -> Str.avoids c (s ++ t).
Proof.
  induction s as [|a s IH]; [intros _ H; exact H|].
  rewrite append_String. simpl. tauto.
Qed.

Lemma digit_not_T d : 0 <= d <= 9 -> digit d <> "T"%char.
Proof.
  intros Hd.
  assert (E : d = 0 \/ d = 1 \/ d = 2 \/ d = 3 \/ d = 4 \/
              d = 5 \/ d = 6 \/ d = 7 \/ d = 8 \/ d = 9) by lia.
  repeat (destruct E as [->|E]); try subst d; discriminate.
Qed.

Lemma avoids_pad w v : Str.avoids "T" (pad w v).
Proof.
  induction w as [|w IH]; simpl; [exact I|]. split; [|exact IH].
  apply digit_not_T. pose proof (Z.mod_pos_bound (v / 10 ^ Z.of_nat w) 10). lia.
Qed.

Lemma avoids_iso_date t : Str.avoids "T" (iso_date t).
Proof.
  unfold iso_date, iso_year.
  repeat apply avoids_app; try apply avoids_pad; try (simpl; split; [discriminate | exact I]).
  destruct (_ && _); [apply avoids_pad|].
  destruct (_ <? _);
    (apply avoids_app; [simpl; split; [discriminate | exact I] | apply avoids_pad]).
Qed.

Lemma split_avoids c s r :
  Str.avoids c s -> Str.split c (s ++ String c r) = s :: Str.split c r.
Proof.
  induction s as [|a s IH].
  - intros _. rewrite append_Empty. simpl. rewrite Ascii.eqb_refl. reflexivity.
  - intros [Hne Hs]. rewrite append_String. simpl.
    apply Ascii.eqb_neq in Hne. rewrite Hne, (IH Hs). reflexivity.
Qed.

Lemma date_of_toISOString t : date_of (toISOString t) = iso_date t.
Proof.
  unfold date_of, toISOString. rewrite append_String, append_Empty.
  rewrite split_avoids by apply avoids_iso_date. reflexivity.
Qed.

End DateFacts.

(** ** Sorting *)

Section Sorting.

Context {A : Type} (cmp : A -> A -> comparison).

Lemma insert_sorted_perm x l : Permutation (insert_sorted cmp x l) (x :: l).
Proof.
  induction l as [|y r IH]; simpl; [reflexivity|].
  destruct (cmp x y); try reflexivity.
  - rewrite IH. apply perm_swap.
  - rewrite IH. apply perm_swap.
Qed.

Lemma fold_insert_perm l acc :
  Permutation (fold_left (fun acc x => insert_sorted cmp x acc) l acc) (acc ++ l)%list.
Proof.
  revert acc. induction l as [|x l IH]; intros acc; simpl.
  - rewrite app_nil_r. reflexivity.
  - rewrite IH, insert_sorted_perm. apply Permutation_middle.
Qed.

Lemma sort_perm l : Permutation (sort cmp l) l.
Proof. unfold sort. apply (fold_insert_perm l []). Qed.

Hypothesis cmp_antisym : forall a b, cmp a b = CompOpp (cmp b a).

(** [a] may stand before [b]. *)
Let le (a b : A) : Prop := cmp a b <> Gt.

Lemma insert_sorted_HdRel x y l :
  le y x -> HdRel le y l -> HdRel le y (insert_sorted cmp x l).
Proof.
  intros Hyx Hl. destruct l as [|z r]; simpl.
  - constructor. exact Hyx.
  - inversion Hl; subst. destruct (cmp x z); constructor; assumption.
Qed.

Lemma insert_sorted_Sorted x l :
  Sorted le l -> Sorted le (insert_sorted cmp x l).
Proof.
  induction l as [|y r IH]; simpl; intros Hs.
  - repeat constructor.
  - inversion Hs; subst.
    destruct (cmp x y) eqn:E.
    + constructor; [apply IH; assumption|].
      apply insert_sorted_HdRel; [|assumption].
      unfold le. rewrite cmp_antisym, E. discriminate.
    + constructor; [assumption|]. constructor. unfold le. rewrite E. discriminate.
    + constructor; [apply IH; assumption|].
      apply insert_sorted_HdRel; [|assumption].
      unfold le. rewrite cmp_antisym, E. discriminate.
Qed.

Lemma sort_Sorted l : Sorted (fun a b => cmp a b <> Gt) (sort cmp l).
Proof.
  unfold sort. change (Sorted le (fold_left (fun acc x => insert_sorted cmp x acc) l [])).
  assert (H : Sorted le []) by constructor.
  revert H. generalize (@nil A). induction l as [|x l IH]; intros acc Hacc; simpl.
  - exact Hacc.
  - apply IH, insert_sorted_Sorted, Hacc.
Qed.

Lemma insert_sorted_last x l :
  Forall (fun y => cmp y x = Lt) l -> insert_sorted cmp x l = (l ++ [x])%list.
Proof.
  induction 1 as [|y r Hy Hr IH]; simpl; [reflexivity|].
  rewrite cmp_antisym, Hy. simpl. rewrite IH. reflexivity.
Qed.

Lemma fold_insert_ordered l acc :
  StronglySorted (fun a b => cmp a b = Lt) (acc ++ l)%list ->
  fold_left (fun acc x => insert_sorted cmp x acc) l acc = (acc ++ l)%list.
Proof.
  revert acc. induction l as [|x l IH]; intros acc Hs; simpl.
  - rewrite app_nil_r. reflexivity.
  - rewrite insert_sorted_last.
    + rewrite IH; rewrite <- app_assoc; [reflexivity | exact Hs].
    + clear IH. induction acc as [|a acc IHa]; [constructor|].
      simpl in Hs. inversion Hs as [|? ? Hs' Hall]; subst. constructor.
      * rewrite Forall_forall in Hall. apply Hall. apply elem_of_app. right. left.
      * apply IHa. exact Hs'.
Qed.

Lemma sort_ordered l :
  StronglySorted (fun a b => cmp a b = Lt) l -> sort cmp l = l.
Proof. intros H. unfold sort. apply (fold_insert_ordered l [] H). Qed.

End Sorting.

Lemma StronglySorted_lookup {A} (R : A -> A -> Prop) (l : list A) :
  (forall j k a b, (j < k)%nat -> l !! j = Some a -> l !! k = Some b -> R a b) ->
  StronglySorted R l.
Proof.
  induction l as [|x l IH]; intros H; constructor.
  - apply IH. intros j k a b Hjk Ha Hb. apply (H (S j) (S k)); [lia|exact Ha|exact Hb].
  - apply Forall_forall. intros y Hy. apply list_elem_of_lookup in Hy as [k Hk].
    apply (H 0%nat (S k)); [lia|reflexivity|exact Hk].
Qed.

(** ** The loop of the price history *)


Lemma historyPoint_inv env basePrice i st p st' :
  historyPoint env basePrice i st = (Ok p, st') ->
  generatedAt env basePrice (ticks st) (draws st) i p /\
  ticks st' = S (ticks st) /\ draws st' = S (draws st).
Proof.
  unfold historyPoint, bind, now, random. cbn beta iota.
  destruct st as [a e l t dr rq]. state_fields.
  destruct (Date.setDate _ _ _) as [d|] eqn:Ed; [|discriminate].
  unfold ret. intros [= <- <-]. split; [|split; reflexivity].
  exists d. split; [exact Ed|]. split; reflexivity.
Qed.

Lemma historyLoop_O env basePrice history :
  historyLoop env basePrice 0 history =
  (p <- historyPoint env basePrice 0 ;; ret (history ++ [p])%list).
Proof. reflexivity. Qed.

Lemma historyLoop_S env basePrice i history :
  historyLoop env basePrice (S i) history =
  (p <- historyPoint env basePrice (S i) ;;
   historyLoop env basePrice i (history ++ [p])%list).
Proof. reflexivity. Qed.

Lemma historyLoop_inv env basePrice i :
  forall history st out st',
    historyLoop env basePrice i history st = (Ok out, st') ->
    exists h,
      out = (history ++ h)%list /\ List.length h = S i /\
      forall j, (j <= i)%nat ->
        exists p, h !! j = Some p /\
                  generatedAt env basePrice (ticks st + j) (draws st + j) (i - j) p.
Proof.
  induction i as [|i IH]; intros history st out st' Hrun.
  - rewrite historyLoop_O in Hrun. apply bind_Ok in Hrun as (p & s1 & Hp & Hret).
    unfold ret in Hret. injection Hret as <- <-. apply historyPoint_inv in Hp as (Hgen & _ & _).
    exists [p]. split; [reflexivity|]. split; [reflexivity|].
    intros j Hj. assert (j = 0%nat) as -> by lia. exists p. split; [reflexivity|].
    rewrite !Nat.add_0_r, Nat.sub_0_r. exact Hgen.
  - rewrite historyLoop_S in Hrun. apply bind_Ok in Hrun as (p & s1 & Hp & Hrun).
    apply historyPoint_inv in Hp as (Hgen & Ht & Hd).
    apply IH in Hrun as (h & -> & Hlen & Hall).
    exists (p :: h). split; [rewrite <- app_assoc; reflexivity|].
    split; [simpl; congruence|].
    intros [|j] Hj.
    + exists p. split; [reflexivity|]. rewrite !Nat.add_0_r, Nat.sub_0_r. exact Hgen.
    + destruct (Hall j ltac:(lia)) as (q & Hq & Hgq). exists q. split; [exact Hq|].
      rewrite Ht, Hd in Hgq. change (S i - S j)%nat with (i - j)%nat.
      replace (ticks st + S j)%nat with (S (ticks st) + j)%nat by lia.
      replace (draws st + S j)%nat with (S (draws st) + j)%nat by lia.
      exact Hgq.
Qed.

Lemma setDate_valid env n k :
  representable env -> -1 <= k <= 30 ->
  exists d,
    Date.setDate (timezone env) (clock env n)
      (Date.getDate (timezone env) (clock env n) - k) = Some d.
Proof.
  intros [Hclock Hzone] Hk. unfold Date.setDate.
  rewrite DateFacts.setDateLocal_getDate. unfold Date.UTC, Date.LocalTime, Date.TimeClip.
  specialize (Hclock n).
  destruct (Hzone (clock env n)) as [Hu _].
  destruct (Hzone (clock env n + Date.LocalTZA_utc (timezone env) (clock env n)
                   - k * Date.msPerDay)) as [_ Hl].
  unfold Date.msPerDay in *.
  match goal with |- context [Z.abs ?x <=? ?b] =>
    destruct (Z.leb_spec (Z.abs x) b) as [_|Hbad]; [eauto | exfalso; lia]
  end.
Qed.

Lemma historyPoint_total env basePrice i st :
  representable env -> (i <= 30)%nat ->
  exists p st', historyPoint env basePrice i st = (Ok p, st').
Proof.
  intros Hrep Hi.
  destruct (setDate_valid env (ticks st) (Z.of_nat i) Hrep ltac:(lia)) as [d Hd].
  unfold historyPoint, bind, now, random. cbn beta iota.
  destruct st as [a e l t dr rq]. revert Hd. state_fields. intros ->.
  unfold ret. eauto.
Qed.

Lemma historyLoop_total env basePrice i :
  representable env -> (i <= 30)%nat ->
  forall history st, exists out st',
    historyLoop env basePrice i history st = (Ok out, st').
Proof.
  intros Hrep. induction i as [|i IH]; intros Hi history st.
  - rewrite historyLoop_O. unfold bind.
    destruct (historyPoint_total env basePrice 0 st Hrep Hi) as (p & s1 & ->).
    unfold ret. eauto.
  - rewrite historyLoop_S. unfold bind.
    destruct (historyPoint_total env basePrice (S i) st Hrep Hi) as (p & s1 & ->).
    apply IH. lia.
Qed.

Lemma basePrice_inv (response : Response Amadeus.FlightOffersResponse) st basePrice st' :
  (if ok response then
     data <- json response ;;
     match Amadeus.offers data with
     | Some (offer :: rest) =>
         ret (average
                (map (fun offer => Parse.parseFloat (Amadeus.total (Amadeus.price offer)))
                   (offer :: rest)))
     | _ => ret Num.n250
     end
   else ret Num.n250) st = (Ok basePrice, st') ->
  basePrice = Spec.basePrice
                (Responded (ok response) (status response) (statusText response)
                   (body response)) /\
  st' = st.
Proof.
  unfold Spec.basePrice, json.
  destruct (ok response); [|intros [= <- <-]; auto].
  destruct (body response) as [data|]; [|discriminate].
  unfold bind, ret. destruct (Amadeus.offers data) as [[|offer rest]|];
    intros [= <- <-]; auto.
Qed.

(** A non-empty result of [getPriceHistory] is the sorted output of the
    loop, run with the base price of the provider's answer. *)
Lemma getPriceHistory_inv env flightId origin destination st h st' :
  getPriceHistory env flightId origin destination st = (Ok h, st') ->
  h <> [] ->
  exists log token dateStr history s s',
    historyLoop env
      (Spec.basePrice
         (offers_endpoint env log
            (GetFlightOffers
               [ ("originLocationCode", origin);
                 ("destinationLocationCode", destination);
                 ("departureDate", dateStr);
                 ("adults", "1");
                 ("max", "5") ] token))) 30 [] s
      = (Ok history, s') /\
    h = sort byDate history.
Proof.
  unfold getPriceHistory, try_catch.
  match goal with
  | |- context [match ?c st with _ => _ end] => destruct (c st) as [[out|e] s0] eqn:Erun
  end.
  2:{ unfold ret. intros [= <- <-] Hne. congruence. }
  intros [= <- <-] _.
  apply bind_Ok in Erun as (_ & s1 & _ & Erun).
  apply bind_Ok in Erun as (token & s2 & _ & Erun).
  apply bind_Ok in Erun as (currentDate & s3 & _ & Erun).
  apply bind_Ok in Erun as (dateStr & s4 & _ & Erun).
  apply bind_Ok in Erun as (response & s5 & Hfetch & Erun).
  apply bind_Ok in Erun as (basePrice & s6 & Hbase & Erun).
  apply bind_Ok in Erun as (history & s7 & Hloop & Erun).
  unfold ret in Erun. injection Erun as <- <-.
  apply fetch_Ok in Hfetch as [Hresp _].
  apply basePrice_inv in Hbase as [-> ->].
  rewrite <- Hresp in Hloop. eauto 10.
Qed.

Lemma history_points env basePrice history st out st' :
  historyLoop env basePrice 30 history st = (Ok out, st') ->
  exists h,
    out = (history ++ h)%list /\ List.length h = 31%nat /\
    Forall (fun p => exists tick draw k,
                (k <= 30)%nat /\ generatedAt env basePrice tick draw k p) h.
Proof.
  intros Hrun. apply historyLoop_inv in Hrun as (h & -> & Hlen & Hall).
  exists h. split; [reflexivity|]. split; [exact Hlen|].
  apply Forall_forall. intros p Hp. apply list_elem_of_lookup in Hp as [j Hj].
  assert (Hlt : (j < 31)%nat) by (rewrite <- Hlen; apply lookup_lt_Some with p; exact Hj).
  destruct (Hall j ltac:(lia)) as (q & Hq & Hgen).
  rewrite Hj in Hq. injection Hq as <-.
  exists (ticks st + j)%nat, (draws st + j)%nat, (30 - j)%nat. split; [lia | exact Hgen].
Qed.

Lemma generatedAt_price env basePrice tick draw k p :
  generatedAt env basePrice tick draw k p ->
  exists x, PriceHistory.price p
            = Num.Math_max (Num.Math_round x) (Num.Math_round (Num.mul basePrice Num.n0_6)).
Proof. intros (d & _ & _ & ->). unfold variedPrice, minimumPrice. eauto. Qed.

(** C9, as the code has it: every price returned by [getPriceHistory] is
    the larger of two results of [Math.round], and it is an integer
    whenever it is finite. *)
Theorem getPriceHistory_integer_prices env flightId origin destination st h st' :
  getPriceHistory env flightId origin destination st = (Ok h, st') ->
  Forall (fun p =>
            (exists x b, PriceHistory.price p
                         = Num.Math_max (Num.Math_round x) (Num.Math_round b)) /\
            (Num.is_finite (PriceHistory.price p) = true ->
             Num.is_integer (PriceHistory.price p) = true)) h.
Proof.
  intros Hrun. destruct h as [|p0 h0]; [constructor|].
  apply getPriceHistory_inv in Hrun as (log & token & dateStr & history & s & s' & Hloop & ->);
    [|discriminate].
  apply history_points in Hloop as (hs & -> & _ & Hall). cbn [app] in *.
  eapply Permutation_Forall; [symmetry; apply sort_perm|].
  eapply Forall_impl; [exact Hall|].
  intros p (tick & draw & k & _ & Hgen).
  destruct (generatedAt_price _ _ _ _ _ _ Hgen) as [x Hx].
  split; [eauto|]. rewrite Hx.
  match goal with
  | |- context [Num.Math_max ?a ?b] =>
      destruct (Math_max_cases a b) as [->|[->| ->]]
  end.
  - apply Math_round_integer.
  - apply Math_round_integer.
  - discriminate.
Qed.

Lemma Sorted_impl {A} (R R' : A -> A -> Prop) l :
  (forall a b, R a b -> R' a b) -> Sorted R l -> Sorted R' l.
Proof.
  intros HR. induction 1 as [|a l Hs IH Hhd]; constructor; [exact IH|].
  destruct Hhd; constructor. auto.
Qed.

Lemma StronglySorted_impl {A} (R R' : A -> A -> Prop) l :
  (forall a b, R a b -> R' a b) -> StronglySorted R l -> StronglySorted R' l.
Proof.
  intros HR. induction 1 as [|a l Hs IH Hall]; constructor; [exact IH|].
  eapply Forall_impl; [exact Hall|]. auto.
Qed.

Lemma StronglySorted_pair {A} (R : A -> A -> Prop) l j k a b :
  StronglySorted R l -> (j < k)%nat -> l !! j = Some a -> l !! k = Some b -> R a b.
Proof.
  intros Hs. revert j k. induction Hs as [|x l Hs IH Hall]; intros j k Hjk Ha Hb.
  - discriminate.
  - destruct k as [|k]; [lia|]. destruct j as [|j].
    + injection Ha as <-. rewrite Forall_forall in Hall. apply Hall.
      apply list_elem_of_lookup. eauto.
    + apply (IH j k); [lia | exact Ha | exact Hb].
Qed.

Lemma byDate_antisym a b : byDate a b = CompOpp (byDate b a).
Proof. apply String.compare_antisym. Qed.

Lemma setDate_steady tz offset c k d :
  (forall t, Date.LocalTZA_utc tz t = offset /\ Date.LocalTZA_local tz t = offset) ->
  Date.setDate tz c (Date.getDate tz c - k) = Some d ->
  d = c - k * Date.msPerDay.
Proof.
  intros Hoff. unfold Date.setDate. rewrite DateFacts.setDateLocal_getDate.
  unfold Date.UTC, Date.LocalTime, Date.TimeClip.
  destruct (Hoff c) as [-> _].
  destruct (Hoff (c + offset - k * Date.msPerDay)) as [_ ->].
  destruct (_ <=? _); [|discriminate]. intros [= <-]. lia.
Qed.

(** On a steady host the point of index [k] carries the UTC date of the
    clock reading, [k] days back. *)
Lemma generatedAt_steady env basePrice tick draw k p :
  steady env ->
  generatedAt env basePrice tick draw k p ->
  PriceHistory.date p
  = Date.iso_date (clock env tick - Z.of_nat k * Date.msPerDay).
Proof.
  intros [[offset Hoff] _] (d & Hd & Hdate & _).
  rewrite Hdate, DateFacts.date_of_toISOString.
  rewrite (setDate_steady _ _ _ _ _ Hoff Hd). reflexivity.
Qed.

Lemma window_dates_lt c c' (j k : nat) :
  (j < k <= 30)%nat -> c <= c' ->
  (Date.DayFromYear 0 + 30) * Date.msPerDay <= c ->
  c' < Date.DayFromYear 10000 * Date.msPerDay ->
  String.compare
    (Date.iso_date (c - Z.of_nat (30 - j) * Date.msPerDay))
    (Date.iso_date (c' - Z.of_nat (30 - k) * Date.msPerDay)) = Lt.
Proof.
  intros Hjk Hc Hlo Hhi.
  rewrite !Nat2Z.inj_sub by lia.
  change (Date.DayFromYear 0) with (-719528) in *.
  change (Date.DayFromYear 10000) with 2932897 in *.
  apply DateFacts.iso_date_lt;
    change (Date.DayFromYear 0) with (-719528);
    change (Date.DayFromYear 10000) with 2932897;
    unfold Date.Day, Date.msPerDay in *;
    Z.to_euclidean_division_equations; lia.
Qed.

Lemma bind_run {A B} (c : M A) (k : A -> M B) st a st1 r :
  c st = (Ok a, st1) -> k a st1 = r -> bind c k st = r.
Proof. intros Hc Hk. unfold bind. rewrite Hc. exact Hk. Qed.

Lemma try_catch_Ok {A} (c : M A) h st a st' :
  c st = (Ok a, st') -> try_catch c h st = (Ok a, st').
Proof. intros Hc. unfold try_catch. rewrite Hc. reflexivity. Qed.

Lemma isoDay_valid d st : isoDay (Some d) st = (Ok (date_of (Date.toISOString d)), st).
Proof. reflexivity. Qed.

Lemma fetch_run {B} (endpoint : list Request -> Request -> Fetched B) r st o s t b :
  endpoint (requests st) r = Responded o s t b ->
  fetch endpoint r st
  = (Ok {| ok := o; status := s; statusText := t; body := b |},
     set_requests (r :: requests st) st).
Proof. intros H. unfold fetch. rewrite H. reflexivity. Qed.

(** C1, as the code has it: when no response is received from the offers
    endpoint, [getPriceHistory] returns the empty sequence; the 31 points
    derived from the fallback base price of 250 are what it returns when
    the endpoint answers with a non-success status (a token having been
    acquired, on a host whose dates are valid). *)
Theorem getPriceHistory_provider_failure env flightId origin destination st :
  ((forall log r, offers_endpoint env log r = Rejected) ->
   exists st', getPriceHistory env flightId origin destination st = (Ok [], st')) /\
  (representable env ->
   (forall log r, exists s t b, offers_endpoint env log r = Responded false s t b) ->
   forall token st1,
     (loadStoredToken env ;;; getAccessToken env) st = (Ok token, st1) ->
     exists h st',
       getPriceHistory env flightId origin destination st = (Ok h, st') /\
       List.length h = 31%nat /\
       Forall (fun p => exists tick draw k,
                   (k <= 30)%nat /\ generatedAt env Num.n250 tick draw k p) h).
Proof.
  split.
  - intros Hrejected. unfold getPriceHistory, try_catch.
    match goal with
    | |- context [match ?c st with _ => _ end] => destruct (c st) as [[out|e] s0] eqn:Erun
    end; [|eexists; reflexivity].
    exfalso.
    apply bind_Ok in Erun as (_ & s1 & _ & Erun).
    apply bind_Ok in Erun as (token & s2 & _ & Erun).
    apply bind_Ok in Erun as (currentDate & s3 & _ & Erun).
    apply bind_Ok in Erun as (dateStr & s4 & _ & Erun).
    apply bind_Ok in Erun as (response & s5 & Hfetch & _).
    apply fetch_Ok in Hfetch as [Hresp _]. rewrite Hrejected in Hresp. discriminate.
  - intros Hrep Hfail token st1 Hacquire.
    apply bind_Ok in Hacquire as (u & s0 & Hload & Hget).
    destruct (setDate_valid env (ticks st1) (-1) Hrep ltac:(lia)) as [tomorrow Htomorrow].
    replace (Date.getDate (timezone env) (clock env (ticks st1)) - -1)
      with (Date.getDate (timezone env) (clock env (ticks st1)) + 1) in Htomorrow by lia.
    set (request :=
           GetFlightOffers
             [ ("originLocationCode", origin);
               ("destinationLocationCode", destination);
               ("departureDate", date_of (Date.toISOString tomorrow));
               ("adults", "1");
               ("max", "5") ] token).
    destruct (Hfail (requests (set_ticks (S (ticks st1)) st1)) request) as (s & t & b & Hresp).
    destruct (historyLoop_total env Num.n250 30 Hrep ltac:(lia) []
                (set_requests (request :: requests (set_ticks (S (ticks st1)) st1))
                   (set_ticks (S (ticks st1)) st1)))
      as (history & st' & Hloop).
    exists (sort byDate history), st'. split; [|split].
    + unfold getPriceHistory. apply try_catch_Ok.
      eapply bind_run; [exact Hload|]. cbv beta.
      eapply bind_run; [exact Hget|]. cbv beta.
      eapply bind_run; [reflexivity|]. cbv beta.
      rewrite Htomorrow.
      eapply bind_run; [apply isoDay_valid|]. cbv beta.
      eapply bind_run; [apply fetch_run; exact Hresp|]. cbv beta.
      cbn [ok].
      eapply bind_run; [reflexivity|]. cbv beta.
      eapply bind_run; [exact Hloop|]. reflexivity.
    + rewrite (Permutation_length (sort_perm byDate history)).
      apply history_points in Hloop as (hs & -> & Hlen & _). exact Hlen.
    + eapply Permutation_Forall; [symmetry; apply sort_perm|].
      apply history_points in Hloop as (hs & -> & _ & Hall). exact Hall.
Qed.

Lemma getPriceHistory_provider_failure_witness :
  (exists st',
      getPriceHistory
        Scenario.unreachableHost
        "flight" "JFK" "LAX" Scenario.fresh = (Ok [], st')) /\
  (exists h st',
      getPriceHistory
        Scenario.unavailableHost
        "flight" "JFK" "LAX" Scenario.fresh = (Ok h, st') /\
      List.length h = 31%nat /\
      Forall (fun p => exists tick draw k,
                  (k <= 30)%nat /\
                  generatedAt
                    Scenario.unavailableHost
                    Num.n250 tick draw k p) h).
Proof.
  split.
  - apply (getPriceHistory_provider_failure
             Scenario.unreachableHost
             "flight" "JFK" "LAX" Scenario.fresh).
    intros log r. reflexivity.
  - eapply (getPriceHistory_provider_failure
              Scenario.unavailableHost
              "flight" "JFK" "LAX" Scenario.fresh).
    + split.
      * intros n. vm_compute. discriminate.
      * intros t. split; vm_compute; discriminate.
    + intros log r. do 3 eexists. reflexivity.
    + vm_compute. reflexivity.
Defined.

(** C1, as stated, fails: with an unreachable offers endpoint (the token
    having been acquired and the request sent), the result is empty. *)
Lemma getPriceHistory_unreachable_empty :
  exists st' query,
    getPriceHistory
      Scenario.unreachableHost
      "flight" "JFK" "LAX" Scenario.fresh = (Ok [], st') /\
    requests st' = [GetFlightOffers query "tok"; PostToken "client" "secret"].
Proof.
  eexists. eexists. split; [vm_compute; reflexivity|]. reflexivity.
Qed.

Lemma steady_scenario time ttl offers locations :
  (Date.DayFromYear 0 + 30) * Date.msPerDay <= time < Date.DayFromYear 10000 * Date.msPerDay ->
  steady (Scenario.host Scenario.utc time ttl offers locations).
Proof.
  intros Htime. split; [|split].
  - exists 0. intros t. split; reflexivity.
  - intros n m _. reflexivity.
  - intros n. exact Htime.
Qed.

(** C3, as stated, fails. In London, late in the evening of 10 April 2025
    (UTC), with a provider price that is not a number: the window reaches
    back over the change to summer time, the points of 30 and 31 March
    (local) both carry the date 2025-03-30, and no price is at least
    round(0.6 x basePrice), all of them being NaN. *)
Lemma getPriceHistory_repeated_date :
  exists h st' a b,
    getPriceHistory
      Scenario.londonHost
      "flight" "JFK" "LAX" Scenario.fresh = (Ok h, st') /\
    List.length h = 31%nat /\
    h !! 18%nat = Some a /\ h !! 19%nat = Some b /\
    PriceHistory.date a = "2025-03-30" /\ PriceHistory.date b = "2025-03-30" /\
    ~ StronglySorted
        (fun a b => String.ltb (PriceHistory.date a) (PriceHistory.date b) = true) h /\
    Forall (fun p =>
              Num.ge (PriceHistory.price p)
                (Num.Math_round
                   (Num.mul (Spec.basePrice (Scenario.priced "N/A")) Num.n0_6)) = false) h.
Proof.
  eexists. eexists. eexists. eexists.
  split; [vm_compute; reflexivity|].
  split; [reflexivity|].
  split; [reflexivity|]. split; [reflexivity|].
  split; [reflexivity|]. split; [reflexivity|].
  split.
  - intros Hs.
    pose proof (StronglySorted_pair _ _ 18%nat 19%nat _ _ Hs ltac:(lia) eq_refl eq_refl) as H.
    vm_compute in H. discriminate.
  - repeat constructor.
Qed.

Lemma getPriceHistory_integer_prices_witness :
  exists h st',
    getPriceHistory
      Scenario.steadyHost
      "flight" "JFK" "LAX" Scenario.fresh = (Ok h, st') /\
    List.length h = 31%nat /\
    Forall (fun p =>
              (exists x b, PriceHistory.price p
                           = Num.Math_max (Num.Math_round x) (Num.Math_round b)) /\
              (Num.is_finite (PriceHistory.price p) = true ->
               Num.is_integer (PriceHistory.price p) = true)) h.
Proof.
  eexists. eexists. split; [vm_compute; reflexivity|].
  split; [reflexivity|].
  eapply (getPriceHistory_integer_prices
           Scenario.steadyHost
           "flight" "JFK" "LAX" Scenario.fresh).
  vm_compute. reflexivity.
Defined.

(** C9, as stated, fails: when the provider's price string is not a
    number, all 31 prices are NaN, which is no integer. *)
Lemma getPriceHistory_NaN_prices :
  exists h st',
    getPriceHistory
      Scenario.unparsedHost
      "flight" "JFK" "LAX" Scenario.fresh = (Ok h, st') /\
    List.length h = 31%nat /\
    Forall (fun p => PriceHistory.price p = Num.NaN /\
                     Num.is_integer (PriceHistory.price p) = false) h.
Proof.
  eexists. eexists. split; [vm_compute; reflexivity|].
  split; [reflexivity|]. repeat constructor.
Qed.

(** ** The order of the numbers *)

(** A key whose lexicographic order is the order of [SFcompare]. *)
Lemma SFcompare_key x y :
  Num.is_nan x = false -> Num.is_nan y = false ->
  let key (v : Num.number) :=
    match v with
    | S754_zero _ | S754_nan => (0, 0, 0)
    | S754_infinity s => (if s then -2 else 2, 0, 0)
    | S754_finite s m e => if s then (-1, - e, Zneg m) else (1, e, Zpos m)
    end in
  let lex '(a, b, c) '(a', b', c') :=
    match a ?= a' with
    | Eq => match b ?= b' with Eq => c ?= c' | r => r end
    | r => r
    end in
  SFcompare x y = Some (lex (key x) (key y)).
Proof.
  destruct x as [sx|sx| |sx mx ex], y as [sy|sy| |sy my ey]; try discriminate; intros _ _;
    cbv zeta beta iota; try (destruct sx); try (destruct sy); try reflexivity.
  cbn [SFcompare]. change (-1 ?= -1) with Eq. cbv iota.
  rewrite Z.compare_opp, (Z.compare_antisym ey ex).
  destruct (ey ?= ex); reflexivity.
Qed.

Lemma SFleb_trans x y z : SFleb x y = true -> SFleb y z = true -> SFleb x z = true.
Proof.
  unfold SFleb.
  destruct (Num.is_nan x) eqn:Nx; [destruct x; discriminate|].
  destruct (Num.is_nan y) eqn:Ny; [destruct x, y; discriminate|].
  destruct (Num.is_nan z) eqn:Nz; [destruct y, z; discriminate|].
  rewrite (SFcompare_key x y Nx Ny), (SFcompare_key y z Ny Nz), (SFcompare_key x z Nx Nz).
  cbv zeta.
  repeat match goal with
  | |- context [match ?v with S754_zero _ => _ | _ => _ end] =>
      destruct (match v with S754_zero _ | S754_nan => (0, 0, 0)
                | S754_infinity s => (if s then -2 else 2, 0, 0)
                | S754_finite s m e => if s then (-1, - e, Zneg m) else (1, e, Zpos m)
                end) as [[? ?] ?]
  end.
  repeat match goal with
  | |- context [?a ?= ?b] => destruct (Z.compare_spec a b)
  end; try discriminate; try reflexivity; intros; lia.
Qed.

(** ** The sign of a difference of doubles *)

Lemma digits2_pos_bound p :
  2 ^ (Z.pos (digits2_pos p) - 1) <= Z.pos p < 2 ^ Z.pos (digits2_pos p).
Proof.
  induction p as [p IH|p IH|]; cbn [digits2_pos].
  - rewrite Pos2Z.inj_succ. replace (Z.succ (Z.pos (digits2_pos p)) - 1)
      with (Z.succ (Z.pos (digits2_pos p) - 1)) by lia.
    rewrite !Z.pow_succ_r by lia. lia.
  - rewrite Pos2Z.inj_succ. replace (Z.succ (Z.pos (digits2_pos p)) - 1)
      with (Z.succ (Z.pos (digits2_pos p) - 1)) by lia.
    rewrite !Z.pow_succ_r by lia. lia.
  - simpl. lia.
Qed.

Lemma shr_1_half mrs : 0 <= shr_m mrs -> shr_m (shr_1 mrs) = shr_m mrs / 2.
Proof.
  destruct mrs as [m r s]. cbn [shr_m shr_1]. intros Hm.
  destruct m as [|[p|p|]|p]; cbn [shr_m]; try lia; try reflexivity.
  - rewrite Pos2Z.inj_xI. apply Z.div_unique with 1; lia.
  - rewrite Pos2Z.inj_xO. apply Z.div_unique with 0; lia.
Qed.

Lemma iter_shr_1 n : forall mrs,
  0 <= shr_m mrs -> shr_m (SpecFloat.iter_pos shr_1 n mrs) = shr_m mrs / 2 ^ Z.pos n.
Proof.
  assert (Hpos : forall k, 0 < 2 ^ Z.pos k) by (intros k; apply Z.pow_pos_nonneg; lia).
  induction n as [n IH|n IH|]; intros mrs Hm; cbn [SpecFloat.iter_pos].
  - assert (H1 : 0 <= shr_m (shr_1 mrs)) by (rewrite shr_1_half by lia; apply Z.div_pos; lia).
    assert (H2 : 0 <= shr_m (SpecFloat.iter_pos shr_1 n (shr_1 mrs)))
      by (rewrite IH by lia; apply Z.div_pos; [lia | apply Hpos]).
    rewrite IH, IH, shr_1_half by lia.
    rewrite !Z.div_div by (pose proof (Hpos n); lia).
    f_equal. replace (Z.pos n~1) with (Z.pos n + Z.pos n + 1) by lia.
    rewrite !Z.pow_add_r, Z.pow_1_r by lia. ring.
  - assert (H2 : 0 <= shr_m (SpecFloat.iter_pos shr_1 n mrs))
      by (rewrite IH by lia; apply Z.div_pos; [lia | apply Hpos]).
    rewrite IH, IH by lia.
    rewrite !Z.div_div by (pose proof (Hpos n); lia).
    f_equal. replace (Z.pos n~0) with (Z.pos n + Z.pos n) by lia.
    rewrite !Z.pow_add_r by lia. ring.
  - rewrite shr_1_half by lia. reflexivity.
Qed.

Lemma shr_record_of_loc_m m l : shr_m (shr_record_of_loc m l) = m.
Proof. destruct l as [|[| |]]; reflexivity. Qed.

(** Above the least exponent a shift to the canonical exponent keeps a
    positive mantissa positive. *)
Lemma shr_fexp_pos p e l :
  emin <= e ->
  0 < shr_m (fst (shr_fexp prec emax (Z.pos p) e l)) /\
  emin <= snd (shr_fexp prec emax (Z.pos p) e l).
Proof.
  intros He. unfold shr_fexp, shr. cbn [Zdigits2].
  pose proof (digits2_pos_bound p) as [Hlo _].
  destruct (fexp prec emax (Z.pos (digits2_pos p) + e) - e) as [|n|n] eqn:En;
    cbn [fst snd]; rewrite ?shr_record_of_loc_m; try (split; lia).
  assert (Hn : Z.pos n = Z.pos (digits2_pos p) - 53)
    by (revert En He; unfold fexp, SpecFloat.emin, prec, emax; lia).
  split; [|lia].
  rewrite iter_shr_1 by (rewrite shr_record_of_loc_m; lia).
  rewrite shr_record_of_loc_m.
  apply Z.div_str_pos. split; [apply Z.pow_pos_nonneg; lia|].
  etransitivity; [|exact Hlo]. apply Z.pow_le_mono_r; lia.
Qed.

Lemma binary_round_aux_signed s p e l :
  emin <= e -> Js.signed s (binary_round_aux prec emax s (Z.pos p) e l).
Proof.
  intros He. unfold binary_round_aux.
  pose proof (shr_fexp_pos p e l He) as [Hm1 He1].
  destruct (shr_fexp prec emax (Z.pos p) e l) as [mrs' e']. cbn [fst snd] in Hm1, He1.
  assert (Hr : 0 < round_nearest_even (shr_m mrs') (loc_of_shr_record mrs')).
  { unfold round_nearest_even. destruct (loc_of_shr_record mrs') as [|[| |]]; try lia.
    destruct (Z.even (shr_m mrs')); lia. }
  destruct (round_nearest_even (shr_m mrs') (loc_of_shr_record mrs')) as [|q|q]; try lia.
  pose proof (shr_fexp_pos q e' loc_Exact He1) as [Hm2 _].
  destruct (shr_fexp prec emax (Z.pos q) e' loc_Exact) as [mrs'' e'']. cbn [fst] in Hm2.
  destruct (shr_m mrs'') as [|m|m]; try lia.
  destruct (e'' <=? emax - prec); [left; eauto | right; reflexivity].
Qed.

Lemma binary_round_signed s p e :
  emin <= e -> Js.signed s (binary_round prec emax s p e).
Proof.
  intros He. unfold binary_round, shl_align.
  destruct (fexp prec emax (Z.pos (digits2_pos p) + e) - e) as [|k|k] eqn:Ek;
    apply binary_round_aux_signed; try exact He.
  unfold fexp, SpecFloat.emin, prec, emax. lia.
Qed.

Lemma signed_order s v : Js.signed s v -> Js.order v = if s then Lt else Gt.
Proof. intros [(m & e & ->)| ->]; destruct s; reflexivity. Qed.

Lemma binary_normalize_order z e :
  emin <= e -> Js.order (binary_normalize prec emax z e false) = (z ?= 0).
Proof.
  intros He. destruct z as [|p|p]; cbn [binary_normalize].
  - reflexivity.
  - apply (signed_order false), binary_round_signed, He.
  - apply (signed_order true), binary_round_signed, He.
Qed.

Lemma shl_align_value m e e' :
  e' <= e -> Z.pos (fst (shl_align m e e')) = Z.pos m * 2 ^ (e - e').
Proof.
  intros He. unfold shl_align. destruct (e' - e) as [|k|k] eqn:Ek; cbn [fst]; try lia.
  - replace (e - e') with 0 by lia. lia.
  - rewrite iter_xO_Z. f_equal. f_equal. lia.
Qed.

Lemma bounded_digits m e :
  bounded prec emax m e = true ->
  emin <= e /\ Z.pos (digits2_pos m) <= 53 /\ (emin < e -> Z.pos (digits2_pos m) = 53).
Proof.
  unfold bounded, canonical_mantissa. intros H. apply andb_true_iff in H as [H _].
  apply Z.eqb_eq in H. revert H. unfold fexp, SpecFloat.emin, prec, emax. lia.
Qed.

(** Of two doubles with exponents [e1 < e2], the one with the larger
    exponent has the larger magnitude. *)
Lemma magnitude_by_exponent m1 e1 m2 e2 :
  bounded prec emax m1 e1 = true -> bounded prec emax m2 e2 = true ->
  e1 < e2 -> Z.pos m1 < Z.pos m2 * 2 ^ (e2 - e1).
Proof.
  intros H1 H2 He.
  apply bounded_digits in H1 as (Hmin & Hd1 & _).
  apply bounded_digits in H2 as (_ & _ & Hd2). specialize (Hd2 ltac:(lia)).
  pose proof (digits2_pos_bound m1) as [_ Hhi].
  pose proof (digits2_pos_bound m2) as [Hlo _]. rewrite Hd2 in Hlo.
  assert (Hp : 2 ^ Z.pos (digits2_pos m1) <= 2 ^ 53) by (apply Z.pow_le_mono_r; lia).
  assert (Hk : 2 ^ 1 <= 2 ^ (e2 - e1)) by (apply Z.pow_le_mono_r; lia).
  change (2 ^ 1) with 2 in Hk. change (2 ^ (53 - 1)) with 4503599627370496 in Hlo.
  change (2 ^ 53) with 9007199254740992 in Hp.
  nia.
Qed.

(** The sign of [x - y] is the order of [x] and [y], for doubles. *)
Lemma order_sub x y c :
  SpecFloat.valid_binary prec emax x = true -> SpecFloat.valid_binary prec emax y = true ->
  SFcompare x y = Some c -> Js.order (Num.sub x y) = c.
Proof.
  intros Vx Vy.
  destruct x as [sx|sx| |sx mx ex], y as [sy|sy| |sy my ey]; try discriminate;
    try (destruct sx, sy; intros [= <-]; reflexivity);
    try (destruct sx; intros [= <-]; reflexivity);
    try (destruct sy; intros [= <-]; reflexivity).
  cbn [SpecFloat.valid_binary] in Vx, Vy.
  pose proof (bounded_digits _ _ Vx) as (Hex & _ & _).
  pose proof (bounded_digits _ _ Vy) as (Hey & _ & _).
  unfold Num.sub. cbn [SFsub SFcompare]. cbv zeta.
  rewrite binary_normalize_order by lia.
  rewrite !shl_align_value by lia.
  intros [= <-].
  rewrite <- Z.compare_sub.
  assert (Hpx : 0 < Z.pos mx * 2 ^ (ex - Z.min ex ey))
    by (apply Z.mul_pos_pos; [lia | apply Z.pow_pos_nonneg; lia]).
  assert (Hpy : 0 < Z.pos my * 2 ^ (ey - Z.min ex ey))
    by (apply Z.mul_pos_pos; [lia | apply Z.pow_pos_nonneg; lia]).
  destruct (Z.compare_spec ex ey) as [He|He|He].
  - subst ey. rewrite Z.min_id, Z.sub_diag, !Z.mul_1_r in *.
    rewrite Pos.compare_cont_spec. cbn [Pos.switch_Eq].
    destruct sx, sy; cbn [cond_Zopp]; try reflexivity.
    + rewrite Z.compare_opp. cbn [Z.compare]. rewrite (Pos.compare_antisym mx my).
      destruct (mx ?= my)%positive; reflexivity.
    + cbn [Z.compare]. destruct (mx ?= my)%positive; reflexivity.
  - pose proof (magnitude_by_exponent _ _ _ _ Vx Vy He) as Hm.
    rewrite Z.min_l in * by lia. rewrite Z.sub_diag, Z.mul_1_r in *.
    destruct sx, sy; cbn [cond_Zopp]; (apply Z.compare_lt_iff || apply Z.compare_gt_iff); lia.
  - pose proof (magnitude_by_exponent _ _ _ _ Vy Vx He) as Hm.
    rewrite Z.min_r in * by lia. rewrite Z.sub_diag, Z.mul_1_r in *.
    destruct sx, sy; cbn [cond_Zopp]; (apply Z.compare_lt_iff || apply Z.compare_gt_iff); lia.
Qed.

(** ** [Math.min] and [Math.max] of a list *)

Example js_examples :
  Js.Math_min [Num.of_Z 3; Num.of_Z 1; Num.of_Z 2] = Num.of_Z 1 /\
  Js.Math_max [Num.of_Z 3; Num.of_Z 1; Num.of_Z 2] = Num.of_Z 3 /\
  Js.Math_min [] = S754_infinity false /\
  Js.Math_max [] = S754_infinity true /\
  Js.Math_min [S754_zero false; S754_zero true] = S754_zero true /\
  Js.Math_max [S754_zero true; S754_zero false] = S754_zero false /\
  Js.Math_max [Num.of_Z 1; Num.NaN] = Num.NaN /\
  Js.Math_min [Num.NaN; Num.of_Z 1] = Num.NaN /\
  Js.order (Num.sub (Parse.parseFloat "199.99") (Parse.parseFloat "250.50")) = Lt /\
  Js.order (Num.sub (Parse.parseFloat "N/A") (Parse.parseFloat "250.50")) = Eq /\
  Js.toUpperCase "New York-jfk" = "NEW YORK-JFK" /\
  Js.slice_last 7 [1; 2; 3; 4; 5; 6; 7; 8; 9] = [3; 4; 5; 6; 7; 8; 9] /\
  Js.slice_last 7 [1; 2] = [1; 2] /\
  Js.item [1; 2] (-1) = None /\ Js.item [1; 2] 1 = Some 2 /\
  Js.distinct [] ["AA"; "UA"; "AA"; "DL"; "UA"] = ["AA"; "UA"; "DL"].
Proof. vm_compute. repeat split. Qed.

Lemma SFleb_refl x : Num.is_nan x = false -> SFleb x x = true.
Proof. intros H. unfold SFleb. rewrite (SFcompare_refl x H). reflexivity. Qed.

Lemma SFltb_leb x y : SFltb x y = true -> SFleb x y = true.
Proof. unfold SFltb, SFleb. destruct (SFcompare x y) as [[| |]|]; congruence. Qed.

Lemma SFltb_false_leb x y :
  Num.is_nan x = false -> Num.is_nan y = false -> SFltb x y = false -> SFleb y x = true.
Proof.
  intros Hx Hy. unfold SFltb, SFleb.
  destruct (SFcompare x y) as [c|] eqn:E.
  - rewrite (SFcompare_antisym _ _ _ E). destruct c; simpl; congruence.
  - destruct x, y; discriminate.
Qed.

Lemma SFleb_not_nan x y : SFleb x y = true -> Num.is_nan x = false /\ Num.is_nan y = false.
Proof. destruct x, y; simpl; try discriminate; auto. Qed.

Lemma highest_from_nan l : forall acc,
  Exists (fun v => Num.is_nan v = true) l -> Js.highest_from acc l = Num.NaN.
Proof.
  induction l as [|v l IH]; intros acc H; [inversion H|].
  cbn [Js.highest_from]. destruct (Num.is_nan v) eqn:Ev; [reflexivity|].
  apply IH. inversion H; subst; [congruence | assumption].
Qed.

Lemma lowest_from_nan l : forall acc,
  Exists (fun v => Num.is_nan v = true) l -> Js.lowest_from acc l = Num.NaN.
Proof.
  induction l as [|v l IH]; intros acc H; [inversion H|].
  cbn [Js.lowest_from]. destruct (Num.is_nan v) eqn:Ev; [reflexivity|].
  apply IH. inversion H; subst; [congruence | assumption].
Qed.

(** One step of [Math.max]: the new highest value is the old one or the
    number, and is above both. *)
Lemma highest_step acc v :
  Num.is_nan acc = false -> Num.is_nan v = false ->
  let acc' :=
    let highest :=
      match v, acc with
      | S754_zero false, S754_zero true => v
      | _, _ => acc
      end in
    if Js.gt v highest then v else highest in
  (acc' = acc \/ acc' = v) /\ SFleb acc acc' = true /\ SFleb v acc' = true.
Proof.
  intros Ha Hv. cbv zeta.
  assert (Hz : match v, acc with
               | S754_zero false, S754_zero true => v
               | _, _ => acc
               end = acc \/
               (v = S754_zero false /\ acc = S754_zero true)).
  { destruct v as [[|]| | |]; auto. destruct acc as [[|]| | |]; auto. }
  destruct Hz as [-> | [-> ->]].
  - unfold Js.gt. destruct (SFltb acc v) eqn:E.
    + split; [auto|]. split; [apply SFltb_leb, E | apply SFleb_refl, Hv].
    + split; [auto|]. split; [apply SFleb_refl, Ha | apply SFltb_false_leb; assumption].
  - cbn. auto.
Qed.

Lemma lowest_step acc v :
  Num.is_nan acc = false -> Num.is_nan v = false ->
  let acc' :=
    let lowest :=
      match v, acc with
      | S754_zero true, S754_zero false => v
      | _, _ => acc
      end in
    if Js.lt v lowest then v else lowest in
  (acc' = acc \/ acc' = v) /\ SFleb acc' acc = true /\ SFleb acc' v = true.
Proof.
  intros Ha Hv. cbv zeta.
  assert (Hz : match v, acc with
               | S754_zero true, S754_zero false => v
               | _, _ => acc
               end = acc \/
               (v = S754_zero true /\ acc = S754_zero false)).
  { destruct v as [[|]| | |]; auto. destruct acc as [[|]| | |]; auto. }
  destruct Hz as [-> | [-> ->]].
  - unfold Js.lt. destruct (SFltb v acc) eqn:E.
    + split; [auto|]. split; [apply SFltb_leb, E | apply SFleb_refl, Hv].
    + split; [auto|]. split; [apply SFleb_refl, Ha | apply SFltb_false_leb; assumption].
  - cbn. auto.
Qed.

Lemma highest_from_bound l : forall acc,
  Num.is_nan acc = false -> Forall (fun v => Num.is_nan v = false) l ->
  (Js.highest_from acc l = acc \/ In (Js.highest_from acc l) l) /\
  SFleb acc (Js.highest_from acc l) = true /\
  Forall (fun v => SFleb v (Js.highest_from acc l) = true) l.
Proof.
  induction l as [|v l IH]; intros acc Ha Hl.
  - cbn. split; [auto|]. split; [apply SFleb_refl, Ha | constructor].
  - inversion Hl as [|? ? Hv Hl']; subst. cbn [Js.highest_from]. rewrite Hv.
    destruct (highest_step acc v Ha Hv) as (Hor & Hacc & Hle). cbv zeta in Hor, Hacc, Hle.
    set (acc' := if Js.gt v _ then v else _) in *.
    assert (Ha' : Num.is_nan acc' = false) by (destruct Hor as [-> | ->]; assumption).
    destruct (IH acc' Ha' Hl') as (Hin & Hab & Hall).
    split; [|split].
    + destruct Hin as [-> | Hin]; [|right; right; exact Hin].
      destruct Hor as [-> | ->]; [left; reflexivity | right; left; reflexivity].
    + eapply SFleb_trans; eassumption.
    + constructor; [eapply SFleb_trans; eassumption | exact Hall].
Qed.

Lemma lowest_from_bound l : forall acc,
  Num.is_nan acc = false -> Forall (fun v => Num.is_nan v = false) l ->
  (Js.lowest_from acc l = acc \/ In (Js.lowest_from acc l) l) /\
  SFleb (Js.lowest_from acc l) acc = true /\
  Forall (fun v => SFleb (Js.lowest_from acc l) v = true) l.
Proof.
  induction l as [|v l IH]; intros acc Ha Hl.
  - cbn. split; [auto|]. split; [apply SFleb_refl, Ha | constructor].
  - inversion Hl as [|? ? Hv Hl']; subst. cbn [Js.lowest_from]. rewrite Hv.
    destruct (lowest_step acc v Ha Hv) as (Hor & Hacc & Hle). cbv zeta in Hor, Hacc, Hle.
    set (acc' := if Js.lt v _ then v else _) in *.
    assert (Ha' : Num.is_nan acc' = false) by (destruct Hor as [-> | ->]; assumption).
    destruct (IH acc' Ha' Hl') as (Hin & Hab & Hall).
    split; [|split].
    + destruct Hin as [-> | Hin]; [|right; right; exact Hin].
      destruct Hor as [-> | ->]; [left; reflexivity | right; left; reflexivity].
    + eapply SFleb_trans; eassumption.
    + constructor; [eapply SFleb_trans; eassumption | exact Hall].
Qed.

(** Of values none of which is NaN, [Math.max] is one of them and is
    above each. *)
Lemma Math_max_bound v l :
  Forall (fun v => Num.is_nan v = false) (v :: l) ->
  In (Js.Math_max (v :: l)) (v :: l) /\
  Forall (fun x => SFleb x (Js.Math_max (v :: l)) = true) (v :: l).
Proof.
  intros Hl. unfold Js.Math_max.
  destruct (highest_from_bound (v :: l) (S754_infinity true) eq_refl Hl) as (Hin & _ & Hall).
  split; [|exact Hall].
  destruct Hin as [Heq | Hin]; [|exact Hin].
  rewrite Heq in *. inversion Hall as [|? ? Hv _]; subst.
  left. destruct v as [s|[|]| |s m e]; try discriminate; try reflexivity;
    destruct s; discriminate.
Qed.

Lemma Math_min_bound v l :
  Forall (fun v => Num.is_nan v = false) (v :: l) ->
  In (Js.Math_min (v :: l)) (v :: l) /\
  Forall (fun x => SFleb (Js.Math_min (v :: l)) x = true) (v :: l).
Proof.
  intros Hl. unfold Js.Math_min.
  destruct (lowest_from_bound (v :: l) (S754_infinity false) eq_refl Hl) as (Hin & _ & Hall).
  split; [|exact Hall].
  destruct Hin as [Heq | Hin]; [|exact Hin].
  rewrite Heq in *. inversion Hall as [|? ? Hv _]; subst.
  left. destruct v as [s|[|]| |s m e]; try discriminate; try reflexivity;
    destruct s; discriminate.
Qed.

(** The two-argument [Math.max] of the service is the [Math.max] of a
    list of two. *)
Lemma Math_max_pair x y : Js.Math_max [x; y] = Num.Math_max x y.
Proof.
  destruct x as [[|]|[|]| |[|] mx ex], y as [[|]|[|]| |[|] my ey]; try reflexivity;
    unfold Js.Math_max, Num.Math_max, Js.highest_from, Js.gt, SFltb; cbn [Num.is_nan SFcompare];
    try reflexivity;
    destruct (ex ?= ey); try reflexivity;
    destruct (Pos.compare_cont Eq mx my); reflexivity.
Qed.

(** ** Integers as doubles: sums and products without rounding *)

Lemma shifted_Z p k : 0 <= k -> Z.pos (shifted p k) = Z.pos p * 2 ^ k.
Proof.
  intros Hk. destruct k as [|d|d]; cbn [shifted]; try lia.
  apply iter_xO_Z.
Qed.

Lemma shifted_digits p k :
  0 <= k -> Z.pos (digits2_pos (shifted p k)) = Z.pos (digits2_pos p) + k.
Proof.
  intros Hk. destruct k as [|d|d]; cbn [shifted]; try lia.
  rewrite digits2_pos_iter. lia.
Qed.

Lemma shifted_add p a b : 0 <= a -> 0 <= b -> shifted (shifted p a) b = shifted p (a + b).
Proof.
  intros Ha Hb. apply Pos2Z.inj. rewrite !shifted_Z by lia.
  rewrite Z.pow_add_r by lia. ring.
Qed.

Lemma digits2_pos_le p : Z.pos p < 2 ^ 53 -> Z.pos (digits2_pos p) <= 53.
Proof.
  intros Hp. pose proof (digits2_pos_bound p) as [Hlo _].
  destruct (Z_le_gt_dec (Z.pos (digits2_pos p)) 53) as [H|H]; [exact H|].
  assert (2 ^ 53 <= 2 ^ (Z.pos (digits2_pos p) - 1)) by (apply Z.pow_le_mono_r; lia).
  lia.
Qed.

Lemma digits2_pos_mul p q :
  Z.pos (digits2_pos p) + Z.pos (digits2_pos q) <= Z.pos (digits2_pos (p * q)) + 1.
Proof.
  pose proof (digits2_pos_bound p) as [Hp _].
  pose proof (digits2_pos_bound q) as [Hq _].
  pose proof (digits2_pos_bound (p * q)) as [_ Hpq].
  destruct (Z_le_gt_dec (Z.pos (digits2_pos p) + Z.pos (digits2_pos q))
              (Z.pos (digits2_pos (p * q)) + 1)) as [H|H]; [exact H|].
  assert (H1 : 2 ^ Z.pos (digits2_pos (p * q))
               <= 2 ^ (Z.pos (digits2_pos p) - 1 + (Z.pos (digits2_pos q) - 1)))
    by (apply Z.pow_le_mono_r; lia).
  rewrite Z.pow_add_r in H1 by lia.
  rewrite Pos2Z.inj_mul in Hpq.
  assert (H2 : 2 ^ (Z.pos (digits2_pos p) - 1) * 2 ^ (Z.pos (digits2_pos q) - 1)
               <= Z.pos p * Z.pos q) by (apply Z.mul_le_mono_nonneg; lia).
  lia.
Qed.

Lemma iter_pos_iter {A} (f : A -> A) n : forall x, SpecFloat.iter_pos f n x = Pos.iter f x n.
Proof.
  induction n as [n IH|n IH|]; intros x; cbn [SpecFloat.iter_pos Pos.iter].
  - rewrite !IH, !Pos.iter_swap. reflexivity.
  - rewrite !IH. reflexivity.
  - reflexivity.
Qed.

(** A shift to the right that only drops zero bits is exact. *)
Lemma iter_shr_exact p n :
  SpecFloat.iter_pos shr_1 n
    {| shr_m := Z.pos (Pos.iter xO p n); shr_r := false; shr_s := false |}
  = {| shr_m := Z.pos p; shr_r := false; shr_s := false |}.
Proof.
  rewrite iter_pos_iter. induction n as [|n IH] using Pos.peano_ind.
  - reflexivity.
  - rewrite Pos.iter_succ_r, Pos.iter_succ. cbn [shr_1 orb]. exact IH.
Qed.

Lemma binary_round_aux_exact s p k :
  Z.pos (digits2_pos p) <= 53 -> 53 - Z.pos (digits2_pos p) <= k ->
  binary_round_aux prec emax s (Z.pos (shifted p k)) (- k) loc_Exact = integral s p.
Proof.
  intros Hd Hk. set (d := Z.pos (digits2_pos p)) in *.
  assert (Hd1 : 1 <= d) by (unfold d; lia).
  assert (Hsplit : shifted p k = shifted (shifted p (53 - d)) (k - (53 - d)))
    by (rewrite shifted_add by lia; f_equal; lia).
  unfold binary_round_aux, shr_fexp. cbn [Zdigits2 shr_record_of_loc].
  rewrite (shifted_digits p k) by lia. fold d.
  replace (fexp prec emax (d + k + - k) - - k) with (k - (53 - d))
    by (unfold fexp, SpecFloat.emin, prec, emax; lia).
  assert (Hshr : shr {| shr_m := Z.pos (shifted p k); shr_r := false; shr_s := false |}
                   (- k) (k - (53 - d))
                 = ({| shr_m := Z.pos (shifted p (53 - d)); shr_r := false; shr_s := false |},
                    d - 53)).
  { unfold shr. destruct (k - (53 - d)) as [|n|n] eqn:En; try lia.
    - replace k with (53 - d) by lia. f_equal. lia.
    - rewrite Hsplit. cbn [shifted]. rewrite iter_shr_exact. f_equal. lia. }
  rewrite Hshr. cbn [shr_m loc_of_shr_record round_nearest_even Zdigits2 shr_record_of_loc].
  rewrite (shifted_digits p (53 - d)) by lia. fold d.
  replace (fexp prec emax (d + (53 - d) + (d - 53)) - (d - 53)) with 0
    by (unfold fexp, SpecFloat.emin, prec, emax; lia).
  cbn [shr shr_m].
  replace (d - 53 <=? emax - prec) with true
    by (symmetry; apply Z.leb_le; unfold emax, prec; lia).
  reflexivity.
Qed.

Lemma binary_round_exact s p k :
  0 <= k -> Z.pos (digits2_pos p) <= 53 ->
  binary_round prec emax s (shifted p k) (- k) = integral s p.
Proof.
  intros Hk Hd. set (d := Z.pos (digits2_pos p)) in *.
  unfold binary_round, shl_align. rewrite (shifted_digits p k) by lia. fold d.
  assert (Hf : fexp prec emax (d + k + - k) = d - 53)
    by (unfold fexp, SpecFloat.emin, prec, emax, d; lia).
  rewrite Hf.
  destruct (d - 53 - - k) as [|n|n] eqn:En.
  - apply binary_round_aux_exact; fold d; lia.
  - apply binary_round_aux_exact; fold d; lia.
  - change (Pos.iter xO (shifted p k) n) with (shifted (shifted p k) (Z.pos n)).
    rewrite shifted_add by lia.
    replace (k + Z.pos n) with (53 - d) by lia.
    replace (d - 53) with (- (53 - d)) by lia.
    apply binary_round_aux_exact; fold d; lia.
Qed.

Lemma of_Z_integral n :
  n <> 0 -> Z.abs n < 2 ^ 53 ->
  Num.of_Z n = integral (n <? 0) (Z.to_pos (Z.abs n)).
Proof.
  intros Hn Hb. unfold Num.of_Z, binary_normalize.
  destruct n as [|p|p]; [congruence| |]; cbn [Z.ltb Z.compare Z.abs Z.to_pos];
    apply (binary_round_exact _ p 0); try lia; apply digits2_pos_le; exact Hb.
Qed.

Lemma integral_truncate s p :
  Z.pos (digits2_pos p) <= 53 ->
  Num.truncate (integral s p) = Some (cond_Zopp s (Z.pos p)).
Proof.
  intros Hd. unfold integral, Num.truncate. f_equal. f_equal.
  destruct (Z.leb_spec 0 (Z.pos (digits2_pos p) - 53)) as [H|H].
  - replace (Z.pos (digits2_pos p) - 53) with 0 by lia.
    replace (53 - Z.pos (digits2_pos p)) with 0 by lia. cbn [shifted]. lia.
  - rewrite shifted_Z by lia.
    replace (- (Z.pos (digits2_pos p) - 53)) with (53 - Z.pos (digits2_pos p)) by lia.
    apply Z.div_mul. apply Z.pow_nonzero; lia.
Qed.

(** The integers of less than 54 bits are doubles. *)
Lemma of_Z_truncate n : Z.abs n < 2 ^ 53 -> Num.truncate (Num.of_Z n) = Some n.
Proof.
  intros Hb. destruct (Z.eq_dec n 0) as [->|Hn]; [reflexivity|].
  rewrite (of_Z_integral n Hn Hb), integral_truncate.
  - f_equal. destruct n; [congruence | reflexivity | reflexivity].
  - apply digits2_pos_le. rewrite Z2Pos.id by lia. exact Hb.
Qed.

(** Their product is exact when it has less than 54 bits. *)
Lemma of_Z_mul a b :
  a <> 0 -> b <> 0 -> Z.abs (a * b) < 2 ^ 53 ->
  Num.mul (Num.of_Z a) (Num.of_Z b) = Num.of_Z (a * b).
Proof.
  intros Ha Hb Hab.
  assert (Ha' : Z.abs a < 2 ^ 53) by nia.
  assert (Hb' : Z.abs b < 2 ^ 53) by nia.
  rewrite (of_Z_integral a Ha Ha'), (of_Z_integral b Hb Hb'),
          (of_Z_integral (a * b) ltac:(nia) Hab).
  set (p := Z.to_pos (Z.abs a)). set (q := Z.to_pos (Z.abs b)).
  assert (Hpq : Z.to_pos (Z.abs (a * b)) = (p * q)%positive).
  { unfold p, q. rewrite Z.abs_mul, Z2Pos.inj_mul by lia. reflexivity. }
  assert (Hs : (a * b <? 0) = xorb (a <? 0) (b <? 0)).
  { destruct a, b; try congruence; reflexivity. }
  rewrite Hpq, Hs.
  assert (Hdpq : Z.pos (digits2_pos (p * q)) <= 53).
  { apply digits2_pos_le. rewrite <- Hpq, Z2Pos.id by lia. exact Hab. }
  assert (Hdp : Z.pos (digits2_pos p) <= 53)
    by (apply digits2_pos_le; unfold p; rewrite Z2Pos.id by lia; exact Ha').
  assert (Hdq : Z.pos (digits2_pos q) <= 53)
    by (apply digits2_pos_le; unfold q; rewrite Z2Pos.id by lia; exact Hb').
  pose proof (digits2_pos_mul p q) as Hmul.
  unfold integral at 1 2. unfold Num.mul. cbn [SFmul].
  set (kp := 53 - Z.pos (digits2_pos p)) in *.
  set (kq := 53 - Z.pos (digits2_pos q)) in *.
  assert (Hm : (shifted p kp * shifted q kq)%positive = shifted (p * q) (kp + kq)).
  { apply Pos2Z.inj. rewrite Pos2Z.inj_mul, !shifted_Z by (unfold kp, kq; lia).
    rewrite Pos2Z.inj_mul, Z.pow_add_r by (unfold kp, kq; lia). ring. }
  rewrite Hm.
  replace (Z.pos (digits2_pos p) - 53 + (Z.pos (digits2_pos q) - 53)) with (- (kp + kq))
    by (unfold kp, kq; lia).
  apply binary_round_aux_exact; [exact Hdpq | unfold kp, kq; lia].
Qed.

(** Their sum is exact when it has less than 54 bits. *)
Lemma of_Z_add a b :
  a <> 0 -> b <> 0 -> Z.abs a < 2 ^ 53 -> Z.abs b < 2 ^ 53 -> Z.abs (a + b) < 2 ^ 53 ->
  Num.add (Num.of_Z a) (Num.of_Z b) = Num.of_Z (a + b).
Proof.
  intros Ha Hb Ha' Hb' Hab.
  rewrite (of_Z_integral a Ha Ha'), (of_Z_integral b Hb Hb').
  set (p := Z.to_pos (Z.abs a)). set (q := Z.to_pos (Z.abs b)).
  assert (Hdp : Z.pos (digits2_pos p) <= 53)
    by (apply digits2_pos_le; unfold p; rewrite Z2Pos.id by lia; exact Ha').
  assert (Hdq : Z.pos (digits2_pos q) <= 53)
    by (apply digits2_pos_le; unfold q; rewrite Z2Pos.id by lia; exact Hb').
  assert (Hp : cond_Zopp (a <? 0) (Z.pos p) = a)
    by (unfold p; destruct a; [congruence | reflexivity | reflexivity]).
  assert (Hq : cond_Zopp (b <? 0) (Z.pos q) = b)
    by (unfold q; destruct b; [congruence | reflexivity | reflexivity]).
  unfold integral. unfold Num.add. cbn [SFadd]. cbv zeta.
  set (dp := Z.pos (digits2_pos p)) in *. set (dq := Z.pos (digits2_pos q)) in *.
  set (k := - Z.min (dp - 53) (dq - 53)).
  assert (Hk : 0 <= k) by (unfold k; lia).
  rewrite !shl_align_value by lia.
  rewrite !shifted_Z by lia.
  replace (Z.min (dp - 53) (dq - 53)) with (- k) by (unfold k; lia).
  assert (Hx : cond_Zopp (a <? 0) (Z.pos p * 2 ^ (53 - dp) * 2 ^ (dp - 53 - - k))
               = a * 2 ^ k).
  { rewrite <- Hp at 2. rewrite <- Z.mul_assoc, <- Z.pow_add_r by lia.
    replace (53 - dp + (dp - 53 - - k)) with k by lia.
    destruct (a <? 0); cbn [cond_Zopp]; lia. }
  assert (Hy : cond_Zopp (b <? 0) (Z.pos q * 2 ^ (53 - dq) * 2 ^ (dq - 53 - - k))
               = b * 2 ^ k).
  { rewrite <- Hq at 2. rewrite <- Z.mul_assoc, <- Z.pow_add_r by lia.
    replace (53 - dq + (dq - 53 - - k)) with k by lia.
    destruct (b <? 0); cbn [cond_Zopp]; lia. }
  rewrite Hx, Hy, <- Z.mul_add_distr_r.
  destruct (a + b) as [|r|r] eqn:Er.
  - reflexivity.
  - rewrite <- (shifted_Z r k Hk). cbn [binary_normalize Num.of_Z].
    unfold Num.of_Z. cbn [binary_normalize].
    rewrite (binary_round_exact false r k Hk) by (apply digits2_pos_le; exact Hab).
    symmetry. apply (binary_round_exact false r 0); [lia | apply digits2_pos_le; exact Hab].
  - change (Z.neg r * 2 ^ k) with (- (Z.pos r) * 2 ^ k).
    rewrite Z.mul_opp_l, <- (shifted_Z r k Hk).
    change (- Z.pos (shifted r k)) with (Z.neg (shifted r k)).
    unfold Num.of_Z. cbn [binary_normalize].
    rewrite (binary_round_exact true r k Hk) by (apply digits2_pos_le; exact Hab).
    symmetry. apply (binary_round_exact true r 0); [lia | apply digits2_pos_le; exact Hab].
Qed.

(** The sum of a clock reading and a whole number of milliseconds is
    computed without rounding, and is the time value of its Date. *)
Lemma expiry_whole_milliseconds t ms :
  Z.abs t <= 8640000000000000 ->
  Z.abs ms <= 8640000000000000 ->
  Z.abs (t + ms) <= 8640000000000000 ->
  Date.ofNumber (Num.add (Num.of_Z t) (Num.of_Z ms)) = Some (t + ms).
Proof.
  intros Ht Hs Hsum.
  assert (H53 : 8640000000000000 < 2 ^ 53) by reflexivity.
  assert (Hclip : Date.TimeClip (t + ms) = Some (t + ms)).
  { unfold Date.TimeClip. apply Z.leb_le in Hsum. rewrite Hsum. reflexivity. }
  unfold Date.ofNumber.
  destruct (Z.eq_dec ms 0) as [->|Hms].
  - change (Num.of_Z 0) with (S754_zero false).
    destruct (Z.eq_dec t 0) as [->|Ht0]; [reflexivity|].
    rewrite (of_Z_integral t Ht0) by lia. unfold integral, Num.add. cbn [SFadd].
    change (S754_finite (t <? 0) _ _)
      with (integral (t <? 0) (Z.to_pos (Z.abs t))).
    rewrite <- (of_Z_integral t Ht0) by lia. rewrite of_Z_truncate by lia.
    replace (t + 0) with t in * by lia. exact Hclip.
  - destruct (Z.eq_dec t 0) as [->|Ht0].
    + rewrite (of_Z_integral ms) by lia.
      change (Num.of_Z 0) with (S754_zero false). unfold integral, Num.add. cbn [SFadd].
      change (S754_finite (ms <? 0) _ _)
        with (integral (ms <? 0) (Z.to_pos (Z.abs ms))).
      rewrite <- (of_Z_integral ms) by lia. rewrite of_Z_truncate by lia.
      exact Hclip.
    + rewrite of_Z_add by lia. rewrite of_Z_truncate by lia. exact Hclip.
Qed.

(** A lifetime of whole seconds is a whole number of milliseconds. *)
Lemma whole_seconds secs :
  Z.abs (secs * 1000) <= 8640000000000000 ->
  Num.mul (Num.of_Z secs) Num.n1000 = Num.of_Z (secs * 1000).
Proof.
  intros Hs. assert (H53 : 8640000000000000 < 2 ^ 53) by reflexivity.
  change Num.n1000 with (Num.of_Z 1000).
  destruct (Z.eq_dec secs 0) as [->|Hsecs]; [reflexivity|].
  apply of_Z_mul; lia.
Qed.

(** The expiry of a lifetime of whole seconds: [new Date(now + secs *
    1000)] is computed without rounding. *)
Lemma expiry_whole_seconds t secs :
  Z.abs t <= 8640000000000000 ->
  Z.abs (secs * 1000) <= 8640000000000000 ->
  Z.abs (t + secs * 1000) <= 8640000000000000 ->
  Date.ofNumber (Num.add (Num.of_Z t) (Num.mul (Num.of_Z secs) Num.n1000))
  = Some (t + secs * 1000).
Proof.
  intros Ht Hs Hsum. rewrite whole_seconds by exact Hs.
  apply expiry_whole_milliseconds; assumption.
Qed.

(** ** The expiry of a returned token *)

Lemma loadStoredToken_requests env st st1 :
  loadStoredToken env st = (Ok tt, st1) -> requests st1 = requests st.
Proof.
  unfold loadStoredToken, bind, getItem. cbn beta iota.
  destruct (truthy (localStorage st !! "amadeus_token")) as [token|];
    [|unfold ret; intros [= <-]; reflexivity].
  destruct (truthy (localStorage st !! "amadeus_token_expiry")) as [iso|];
    [|unfold ret; intros [= <-]; reflexivity].
  unfold now. cbn beta iota.
  destruct (date_gt _ _); unfold modify, removeItem, modify; cbn beta iota;
    intros [= <-]; destruct st; reflexivity.
Qed.

Lemma exchange_unexpired env st0 (response : Response Amadeus.AuthResponse) token st' :
  Z.abs (clock env (ticks st0)) <= 8640000000000000 ->
  (forall b, body response = Some b ->
     exists ms, Num.mul (Amadeus.expires_in b) Num.n1000 = Num.of_Z ms /\ 0 < ms /\
                ms <= 8640000000000000 /\
                clock env (ticks st0) + ms <= 8640000000000000) ->
  (if negb (ok response) then
     throw (AuthenticationFailed (status response) (statusText response))
   else
     data <- json response ;;
     modify (set_accessToken (Some (Amadeus.access_token data))) ;;;
     t <- now env ;;
     let expiry :=
       Date.ofNumber
         (Num.add (Num.of_Z t) (Num.mul (Amadeus.expires_in data) Num.n1000)) in
     modify (set_tokenExpiry (Some expiry)) ;;;
     setItem "amadeus_token" (Amadeus.access_token data) ;;;
     iso <- toISOString expiry ;;
     setItem "amadeus_token_expiry" iso ;;;
     ret (Amadeus.access_token data)) st0 = (Ok token, st') ->
  exists b ms,
    ok response = true /\ body response = Some b /\
    Num.mul (Amadeus.expires_in b) Num.n1000 = Num.of_Z ms /\ 0 < ms /\
    token = Amadeus.access_token b /\
    accessToken st' = Some token /\
    tokenExpiry st' = Some (Some (clock env (ticks st0) + ms)) /\
    ticks st' = S (ticks st0) /\ requests st' = requests st0.
Proof.
  intros Hclock Httl. destruct (ok response); [|discriminate]. cbn [negb].
  unfold json. destruct (body response) as [data|] eqn:Ebody; [|discriminate].
  destruct (Httl data eq_refl) as (ms & Hms & Hpos & Hlife & Hexp).
  unfold bind, ret, modify, now, setItem. cbn beta iota.
  destruct st0 as [a x l tk dr rq]. revert Hclock Hexp. state_fields. intros Hclock Hexp.
  rewrite Hms, expiry_whole_milliseconds by lia. cbn.
  intros [= <- <-]. exists data, ms. state_fields. repeat split; auto.
Qed.

(** C5, as the code has it: a token returned by [getAccessToken] is the
    one in memory afterwards and its expiry is strictly later than the
    latest clock reading, provided that for every lifetime granted by the
    token endpoint [expires_in * 1000] is a positive whole number of
    milliseconds (as it is for a positive whole number of seconds), and
    that the clock readings, these milliseconds and the expiries are time
    values (at most 8.64e15 in absolute value). Either no request was
    sent, and the token is the one in memory, possibly adopted by
    [loadStoredToken], which has passed the test of its expiry against
    the clock; or the token comes from one exchange, and its expiry is
    the clock reading of the exchange plus [expires_in * 1000]. *)
Theorem getAccessToken_unexpired env st token st' :
  (forall n, Z.abs (clock env n) <= 8640000000000000) ->
  (forall log r o s t b,
      token_endpoint env log r = Responded o s t (Some b) ->
      exists ms,
        Num.mul (Amadeus.expires_in b) Num.n1000 = Num.of_Z ms /\ 0 < ms /\
        ms <= 8640000000000000 /\
        forall n, clock env n + ms <= 8640000000000000) ->
  getAccessToken env st = (Ok token, st') \/
  (loadStoredToken env ;;; getAccessToken env) st = (Ok token, st') ->
  accessToken st' = Some token /\ unexpired env st' /\
  (requests st' = requests st \/
   exists clientId clientSecret s t b ms,
     requests st' = PostToken clientId clientSecret :: requests st /\
     token_endpoint env (requests st) (PostToken clientId clientSecret)
       = Responded true s t (Some b) /\
     token = Amadeus.access_token b /\
     Num.mul (Amadeus.expires_in b) Num.n1000 = Num.of_Z ms /\ 0 < ms /\
     tokenExpiry st' = Some (Some (clock env (ticks st' - 1) + ms))).
Proof.
  intros Hclock Httl.
  assert (Hget : forall s,
             requests s = requests st ->
             getAccessToken env s = (Ok token, st') ->
             accessToken st' = Some token /\ unexpired env st' /\
             (requests st' = requests st \/
              exists clientId clientSecret s t b ms,
                requests st' = PostToken clientId clientSecret :: requests st /\
                token_endpoint env (requests st) (PostToken clientId clientSecret)
                  = Responded true s t (Some b) /\
                token = Amadeus.access_token b /\
                Num.mul (Amadeus.expires_in b) Num.n1000 = Num.of_Z ms /\ 0 < ms /\
                tokenExpiry st' = Some (Some (clock env (ticks st' - 1) + ms)))).
  { intros s0 Hreq0. rewrite <- Hreq0. clear st Hreq0. rename s0 into st.
    unfold getAccessToken.
    match goal with
    | |- bind get (fun st0 => bind (@?c st0) ?k) st = _ -> _ =>
        set (K := k); set (C := c)
    end.
    assert (HK : forall s0, requests s0 = requests st ->
                 K None s0 = (Ok token, st') ->
                 accessToken st' = Some token /\ unexpired env st' /\
                 (requests st' = requests st \/
                  exists clientId clientSecret s t b ms,
                    requests st' = PostToken clientId clientSecret :: requests st /\
                    token_endpoint env (requests st) (PostToken clientId clientSecret)
                      = Responded true s t (Some b) /\
                    token = Amadeus.access_token b /\
                    Num.mul (Amadeus.expires_in b) Num.n1000 = Num.of_Z ms /\ 0 < ms /\
                    tokenExpiry st' = Some (Some (clock env (ticks st' - 1) + ms)))).
    { intros s0 Hreq0. unfold K.
      destruct (truthy (VITE_AMADEUS_CLIENT_ID env)) as [clientId|]; [|discriminate].
      destruct (truthy (VITE_AMADEUS_CLIENT_SECRET env)) as [clientSecret|]; [|discriminate].
      unfold try_catch. unfold bind at 1. unfold fetch.
      destruct (token_endpoint env (requests s0) (PostToken clientId clientSecret))
        as [|o s t b] eqn:Eresp; [discriminate|].
      match goal with
      | |- match ?body ?s1 with _ => _ end = _ -> _ =>
          destruct (body s1) as [[a|e] s2] eqn:Ebody; [|discriminate]
      end.
      intros [= <- <-].
      eapply exchange_unexpired in Ebody
        as (b' & ms & Hok & Hb' & Hms & Hpos & Htok & Hacc & Hexp & Hticks & Hreq).
      - cbn [ok body] in Hok, Hb'. subst o b.
        destruct s0 as [a0 x0 l0 tk0 dr0 rq0].
        cbn [set_requests ticks requests] in Hexp, Hticks, Hreq, Hreq0, Eresp.
        split; [exact Hacc|]. split.
        + exists (clock env tk0 + ms). split; [exact Hexp|].
          rewrite Hticks. split; [lia|]. cbn [Nat.sub]. rewrite Nat.sub_0_r. lia.
        + right. exists clientId, clientSecret, s, t, b', ms.
          rewrite Hreq, <- Hreq0. split; [reflexivity|]. split; [exact Eresp|].
          split; [exact Htok|]. split; [exact Hms|]. split; [exact Hpos|].
          rewrite Hticks. cbn [Nat.sub]. rewrite Nat.sub_0_r. exact Hexp.
      - apply Hclock.
      - intros b' Hb'. cbn [body] in Hb'. subst b.
        destruct (Httl _ _ _ _ _ _ Eresp) as (ms & Hms & Hpos & Hlife & Hexp).
        exists ms. auto. }
    unfold bind at 1. unfold get. unfold bind at 1. unfold C.
    destruct (truthy (accessToken st)) as [token0|] eqn:Etok; [|apply HK; reflexivity].
    destruct (tokenExpiry st) as [expiry|] eqn:Eexp; [|apply HK; reflexivity].
    unfold bind, now, ret.
    destruct (date_gt expiry (clock env (ticks st))) eqn:Egt;
      [|apply HK; destruct st; reflexivity].
    unfold K, ret. intros [= <- <-].
    apply truthy_Some in Etok as [Etok _].
    destruct expiry as [e|]; [|discriminate]. apply Z.ltb_lt in Egt.
    unfold unexpired. destruct st. revert Etok Eexp Egt. state_fields.
    intros -> -> Egt. split; [reflexivity|]. split; [|left; reflexivity].
    exists e. split; [reflexivity|]. split; [lia|].
    cbn [Nat.sub]. rewrite Nat.sub_0_r. exact Egt. }
  intros [H|H]; [exact (Hget _ eq_refl H)|].
  unfold bind in H. destruct (loadStoredToken_returns env st) as [st1 Hload].
  rewrite Hload in H. apply (Hget st1); [|exact H].
  apply (loadStoredToken_requests env st st1 Hload).
Qed.

Lemma getAccessToken_unexpired_witness :
  exists st',
    getAccessToken Scenario.unreachableHost Scenario.fresh = (Ok "tok", st') /\
    requests st' = [PostToken "client" "secret"] /\
    tokenExpiry st' = Some (Some (Scenario.noon + 1799000)) /\
    accessToken st' = Some "tok" /\
    unexpired Scenario.unreachableHost st' /\
    (requests st' = requests Scenario.fresh \/
     exists clientId clientSecret s t b ms,
       requests st' = PostToken clientId clientSecret :: requests Scenario.fresh /\
       token_endpoint Scenario.unreachableHost (requests Scenario.fresh)
         (PostToken clientId clientSecret) = Responded true s t (Some b) /\
       "tok" = Amadeus.access_token b /\
       Num.mul (Amadeus.expires_in b) Num.n1000 = Num.of_Z ms /\ 0 < ms /\
       tokenExpiry st'
       = Some (Some (clock Scenario.unreachableHost (ticks st' - 1) + ms))).
Proof.
  destruct (getAccessToken Scenario.unreachableHost Scenario.fresh) as [r st'] eqn:Hrun.
  assert (Hr : r = Ok "tok")
    by (apply (f_equal fst) in Hrun; cbn [fst] in Hrun; rewrite <- Hrun;
        vm_compute; reflexivity).
  subst r. exists st'. split; [reflexivity|].
  split; [apply (f_equal (fun p => requests (snd p))) in Hrun; cbn [snd] in Hrun;
          rewrite <- Hrun; vm_compute; reflexivity|].
  split; [apply (f_equal (fun p => tokenExpiry (snd p))) in Hrun; cbn [snd] in Hrun;
          rewrite <- Hrun; vm_compute; reflexivity|].
  apply (getAccessToken_unexpired Scenario.unreachableHost Scenario.fresh "tok" st').
  - intros n. vm_compute. discriminate.
  - intros log r o s t b [= _ _ _ <-]. exists 1799000.
    split; [apply (whole_seconds 1799); discriminate|].
    split; [reflexivity|]. split; [discriminate|]. intros n. vm_compute. discriminate.
  - left. exact Hrun.
Defined.

(** C5, as stated, fails. When the token endpoint grants a lifetime of 0
    seconds, the token returned by a fresh exchange expires at the very
    instant of the exchange; and so it does for a positive lifetime of
    half a millisecond, because the time value of a Date is the integral
    part of [Date.now() + expires_in * 1000]. *)
Lemma getAccessToken_expired_token :
  (exists st',
     getAccessToken Scenario.zeroTtlHost Scenario.fresh = (Ok "tok", st') /\
     tokenExpiry st' = Some (Some Scenario.noon) /\
     clock Scenario.zeroTtlHost (ticks st' - 1) = Scenario.noon /\
     ~ unexpired Scenario.zeroTtlHost st') /\
  (exists st',
     SFltb (S754_zero false) Scenario.halfMillisecond = true /\
     getAccessToken Scenario.briefHost Scenario.fresh = (Ok "tok", st') /\
     tokenExpiry st' = Some (Some Scenario.noon) /\
     clock Scenario.briefHost (ticks st' - 1) = Scenario.noon /\
     ~ unexpired Scenario.briefHost st').
Proof.
  split.
  - eexists. split; [vm_compute; reflexivity|].
    split; [reflexivity|]. split; [reflexivity|].
    intros (e & He & _ & Hlt). injection He as <-. vm_compute in Hlt. discriminate.
  - eexists. split; [reflexivity|]. split; [vm_compute; reflexivity|].
    split; [reflexivity|]. split; [reflexivity|].
    intros (e & He & _ & Hlt). injection He as <-. vm_compute in Hlt. discriminate.
Qed.

(** ** The stored token *)

(** X1: After [loadStoredToken], a token and an expiry still in storage are
    the ones now in memory: the stored expiry parses to an instant after
    the clock reading, and storage is as it was. *)
Theorem loadStoredToken_agreement env st st' token iso :
  loadStoredToken env st = (Ok tt, st') ->
  truthy (localStorage st' !! "amadeus_token") = Some token ->
  truthy (localStorage st' !! "amadeus_token_expiry") = Some iso ->
  exists e,
    Date_parse env iso = Some e /\ clock env (ticks st) < e /\
    accessToken st' = Some token /\ tokenExpiry st' = Some (Some e) /\
    localStorage st' = localStorage st.
Proof.
  unfold loadStoredToken, bind, getItem.
  destruct (truthy (localStorage st !! "amadeus_token")) as [tok|] eqn:Etok.
  2:{ intros [= <-] Ht. rewrite Etok in Ht. discriminate. }
  destruct (truthy (localStorage st !! "amadeus_token_expiry")) as [exp|] eqn:Eexp.
  2:{ intros [= <-] _ He. rewrite Eexp in He. discriminate. }
  unfold now. destruct (date_gt (Date_parse env exp) (clock env (ticks st))) eqn:Egt.
  - unfold modify, ret. intros [= <-]. destruct st as [a x l t dr rq].
    revert Etok Eexp Egt. state_fields. intros Etok Eexp Egt Ht He.
    rewrite Etok in Ht. rewrite Eexp in He. injection Ht as <-. injection He as <-.
    unfold date_gt in Egt. destruct (Date_parse env exp) as [e|]; [|discriminate].
    exists e. apply Z.ltb_lt in Egt. auto.
  - unfold removeItem, modify. intros [= <-]. destruct st as [a x l t dr rq]. state_fields.
    intros Ht _. rewrite lookup_delete_ne, lookup_delete_eq in Ht by discriminate.
    discriminate.
Qed.

(** X2: A stored token whose expiry does not parse, or does not lie after
    the clock reading, is evicted: [loadStoredToken] removes both entries
    from storage and touches nothing else, neither the other entries nor
    the token in memory, and sends no request. *)
Theorem loadStoredToken_evicts env st token iso :
  truthy (localStorage st !! "amadeus_token") = Some token ->
  truthy (localStorage st !! "amadeus_token_expiry") = Some iso ->
  (forall e, Date_parse env iso = Some e -> e <= clock env (ticks st)) ->
  exists st',
    loadStoredToken env st = (Ok tt, st') /\
    localStorage st' !! "amadeus_token" = None /\
    localStorage st' !! "amadeus_token_expiry" = None /\
    (forall key, key <> "amadeus_token" -> key <> "amadeus_token_expiry" ->
                 localStorage st' !! key = localStorage st !! key) /\
    accessToken st' = accessToken st /\ tokenExpiry st' = tokenExpiry st /\
    requests st' = requests st.
Proof.
  intros Etok Eexp Hexpired. unfold loadStoredToken, bind, getItem.
  rewrite Etok, Eexp. unfold now.
  assert (Egt : date_gt (Date_parse env iso) (clock env (ticks st)) = false).
  { unfold date_gt. destruct (Date_parse env iso) as [e|]; [|reflexivity].
    apply Z.ltb_ge. apply Hexpired. reflexivity. }
  rewrite Egt. unfold removeItem, modify. eexists. split; [reflexivity|].
  destruct st as [a x l t dr rq]. state_fields.
  split; [rewrite lookup_delete_ne by discriminate; apply lookup_delete_eq|].
  split; [apply lookup_delete_eq|].
  split; [|auto].
  intros key H1 H2. rewrite !lookup_delete_ne by congruence. reflexivity.
Qed.

Lemma loadStoredToken_agreement_witness :
  exists st',
    loadStoredToken (Case.parsing Scenario.steadyHost)
      (Case.stored "2025-04-10T12:29:59.000Z") = (Ok tt, st') /\
    accessToken st' = Some "old" /\
    tokenExpiry st' = Some (Some (Scenario.noon + 1799000)).
Proof.
  destruct (loadStoredToken (Case.parsing Scenario.steadyHost)
              (Case.stored "2025-04-10T12:29:59.000Z")) as [r st'] eqn:Hrun.
  assert (Hr : r = Ok tt) by (destruct r as [[]|e]; [reflexivity|];
    apply (f_equal fst) in Hrun; cbn [fst] in Hrun; vm_compute in Hrun; discriminate).
  subst r.
  destruct (loadStoredToken_agreement (Case.parsing Scenario.steadyHost)
              (Case.stored "2025-04-10T12:29:59.000Z") st' "old"
              "2025-04-10T12:29:59.000Z" Hrun) as (e & Hparse & _ & Htok & Hexp & _).
  - apply (f_equal (fun p => truthy (localStorage (snd p) !! "amadeus_token"))) in Hrun.
    cbn [snd] in Hrun. rewrite <- Hrun. vm_compute. reflexivity.
  - apply (f_equal (fun p => truthy (localStorage (snd p) !! "amadeus_token_expiry"))) in Hrun.
    cbn [snd] in Hrun. rewrite <- Hrun. vm_compute. reflexivity.
  - exists st'. split; [reflexivity|]. split; [exact Htok|].
    rewrite Hexp. vm_compute in Hparse. injection Hparse as <-. reflexivity.
Defined.

Lemma loadStoredToken_evicts_witness :
  exists st',
    loadStoredToken (Case.parsing Scenario.steadyHost)
      (Case.stored "2025-04-10T11:00:00.000Z") = (Ok tt, st') /\
    localStorage st' !! "amadeus_token" = None /\
    localStorage st' !! "amadeus_token_expiry" = None.
Proof.
  destruct (loadStoredToken_evicts (Case.parsing Scenario.steadyHost)
              (Case.stored "2025-04-10T11:00:00.000Z") "old" "2025-04-10T11:00:00.000Z")
    as (st' & Hrun & Htok & Hexp & _).
  - vm_compute. reflexivity.
  - vm_compute. reflexivity.
  - intros e He. vm_compute in He. injection He as <-. vm_compute. discriminate.
  - exists st'. auto.
Defined.

Lemma getAccessToken_stale env st :
  noValidToken env st ->
  exists st0,
    (st0 = st \/ st0 = set_ticks (S (ticks st)) st) /\
    getAccessToken env st = requestToken env st0.
Proof.
  unfold noValidToken, getAccessToken, requestToken. intros Hstale.
  unfold bind at 1. unfold get. unfold bind at 1.
  destruct (truthy (accessToken st)) as [token|]; [|exists st; split; [auto | reflexivity]].
  destruct (tokenExpiry st) as [expiry|]; [|exists st; split; [auto | reflexivity]].
  unfold bind at 1. unfold now at 1. unfold ret at 1. rewrite Hstale.
  exists (set_ticks (S (ticks st)) st). split; [auto | reflexivity].
Qed.

Lemma requestToken_unconfigured env st :
  truthy (VITE_AMADEUS_CLIENT_ID env) = None \/
  truthy (VITE_AMADEUS_CLIENT_SECRET env) = None ->
  requestToken env st = (Thrown CredentialsNotFound, st).
Proof.
  unfold requestToken. intros [H|H]; rewrite H; [reflexivity|].
  destruct (truthy (VITE_AMADEUS_CLIENT_ID env)); reflexivity.
Qed.

Lemma requestToken_failed env st clientId clientSecret e :
  truthy (VITE_AMADEUS_CLIENT_ID env) = Some clientId ->
  truthy (VITE_AMADEUS_CLIENT_SECRET env) = Some clientSecret ->
  exchangeError (token_endpoint env (requests st) (PostToken clientId clientSecret)) = Some e ->
  requestToken env st
  = (Thrown e, set_requests (PostToken clientId clientSecret :: requests st) st).
Proof.
  unfold requestToken, exchangeError. intros -> ->.
  unfold try_catch, bind at 1, fetch.
  destruct (token_endpoint env (requests st) (PostToken clientId clientSecret))
    as [|[|] s t [b|]]; intros [= <-]; reflexivity.
Qed.

Lemma requestToken_granted env st clientId clientSecret s t data e :
  truthy (VITE_AMADEUS_CLIENT_ID env) = Some clientId ->
  truthy (VITE_AMADEUS_CLIENT_SECRET env) = Some clientSecret ->
  token_endpoint env (requests st) (PostToken clientId clientSecret)
    = Responded true s t (Some data) ->
  Date.ofNumber
    (Num.add (Num.of_Z (clock env (ticks st)))
       (Num.mul (Amadeus.expires_in data) Num.n1000)) = Some e ->
  requestToken env st
  = (Ok (Amadeus.access_token data),
     {| accessToken := Some (Amadeus.access_token data);
        tokenExpiry := Some (Some e);
        localStorage :=
          <["amadeus_token_expiry" := Date.toISOString e]>
            (<["amadeus_token" := Amadeus.access_token data]> (localStorage st));
        ticks := S (ticks st);
        draws := draws st;
        requests := PostToken clientId clientSecret :: requests st |}).
Proof.
  unfold requestToken. intros -> -> Hresp Hclip.
  unfold try_catch, bind at 1, fetch. rewrite Hresp. cbn [negb ok].
  unfold json. cbn [body]. unfold bind, ret, modify, now, setItem. cbn beta iota.
  destruct st as [a x l tk dr rq]. revert Hclip. state_fields. intros ->.
  reflexivity.
Qed.

(** ** How [getAccessToken] fails and what it stores *)

(** X3: Without a client id or a client secret, and with no valid token in
    memory, [getAccessToken] throws the configuration error before any
    request: the request log, the storage and the memory are as before. *)
Theorem getAccessToken_unconfigured env st :
  noValidToken env st ->
  truthy (VITE_AMADEUS_CLIENT_ID env) = None \/
  truthy (VITE_AMADEUS_CLIENT_SECRET env) = None ->
  exists st',
    getAccessToken env st = (Thrown CredentialsNotFound, st') /\
    requests st' = requests st /\ localStorage st' = localStorage st /\
    accessToken st' = accessToken st /\ tokenExpiry st' = tokenExpiry st.
Proof.
  intros Hstale Hconf.
  destruct (getAccessToken_stale env st Hstale) as (st0 & Hst0 & ->).
  rewrite (requestToken_unconfigured env st0 Hconf). exists st0.
  split; [reflexivity|]. destruct Hst0 as [->| ->]; auto.
Qed.

Lemma getAccessToken_unconfigured_witness :
  exists st',
    getAccessToken (Case.unconfigured Scenario.steadyHost) Scenario.fresh
      = (Thrown CredentialsNotFound, st') /\
    requests st' = [] /\ localStorage st' = ∅ /\
    accessToken st' = None /\ tokenExpiry st' = None.
Proof.
  apply (getAccessToken_unconfigured (Case.unconfigured Scenario.steadyHost) Scenario.fresh).
  - exact I.
  - right. reflexivity.
Defined.

(** X4: A token exchange that fails (no response, a non-success status, or a
    body that does not parse) makes [getAccessToken] throw the matching
    error after exactly one request; the storage and the credential in
    memory are as before. *)
Theorem getAccessToken_exchange_failed env st clientId clientSecret e :
  noValidToken env st ->
  truthy (VITE_AMADEUS_CLIENT_ID env) = Some clientId ->
  truthy (VITE_AMADEUS_CLIENT_SECRET env) = Some clientSecret ->
  exchangeError (token_endpoint env (requests st) (PostToken clientId clientSecret)) = Some e ->
  exists st',
    getAccessToken env st = (Thrown e, st') /\
    requests st' = PostToken clientId clientSecret :: requests st /\
    localStorage st' = localStorage st /\
    accessToken st' = accessToken st /\ tokenExpiry st' = tokenExpiry st.
Proof.
  intros Hstale Hid Hsecret Herr.
  destruct (getAccessToken_stale env st Hstale) as (st0 & Hst0 & ->).
  assert (Hreq : requests st0 = requests st) by (destruct Hst0 as [->| ->]; reflexivity).
  rewrite <- Hreq in Herr.
  rewrite (requestToken_failed env st0 clientId clientSecret e Hid Hsecret Herr).
  eexists. split; [reflexivity|]. destruct Hst0 as [->| ->]; auto.
Qed.

Lemma getAccessToken_exchange_failed_witness :
  exists st',
    getAccessToken
      (Case.answering (Responded false 401 "Unauthorized" None) Scenario.steadyHost)
      Scenario.fresh = (Thrown (AuthenticationFailed 401 "Unauthorized"), st') /\
    requests st' = [PostToken "client" "secret"] /\ localStorage st' = ∅ /\
    accessToken st' = None /\ tokenExpiry st' = None.
Proof.
  apply (getAccessToken_exchange_failed
           (Case.answering (Responded false 401 "Unauthorized" None) Scenario.steadyHost)
           Scenario.fresh "client" "secret"); try reflexivity; exact I.
Defined.

(** X5: A successful exchange stores what it returns: the token and the expiry
    (the Date of the clock reading plus [expires_in * 1000], which is
    exactly that sum for a lifetime of whole seconds) are in memory, the
    token and the ISO string of the expiry are in [localStorage] under
    their two keys, the other keys are as before, and one request was
    sent. *)
Theorem getAccessToken_persists env st clientId clientSecret s t data :
  noValidToken env st ->
  truthy (VITE_AMADEUS_CLIENT_ID env) = Some clientId ->
  truthy (VITE_AMADEUS_CLIENT_SECRET env) = Some clientSecret ->
  token_endpoint env (requests st) (PostToken clientId clientSecret)
    = Responded true s t (Some data) ->
  (forall n, Date.ofNumber
               (Num.add (Num.of_Z (clock env n))
                  (Num.mul (Amadeus.expires_in data) Num.n1000)) <> None) ->
  exists st' e,
    getAccessToken env st = (Ok (Amadeus.access_token data), st') /\
    Date.ofNumber
      (Num.add (Num.of_Z (clock env (ticks st' - 1)))
         (Num.mul (Amadeus.expires_in data) Num.n1000)) = Some e /\
    (forall secs,
        Amadeus.expires_in data = Num.of_Z secs ->
        Z.abs (clock env (ticks st' - 1)) <= 8640000000000000 ->
        Z.abs (secs * 1000) <= 8640000000000000 ->
        Z.abs (clock env (ticks st' - 1) + secs * 1000) <= 8640000000000000 ->
        e = clock env (ticks st' - 1) + secs * 1000) /\
    accessToken st' = Some (Amadeus.access_token data) /\
    tokenExpiry st' = Some (Some e) /\
    localStorage st' !! "amadeus_token" = Some (Amadeus.access_token data) /\
    localStorage st' !! "amadeus_token_expiry" = Some (Date.toISOString e) /\
    (forall key, key <> "amadeus_token" -> key <> "amadeus_token_expiry" ->
                 localStorage st' !! key = localStorage st !! key) /\
    requests st' = PostToken clientId clientSecret :: requests st.
Proof.
  intros Hstale Hid Hsecret Hresp Hvalid.
  destruct (getAccessToken_stale env st Hstale) as (st0 & Hst0 & ->).
  assert (Hreq : requests st0 = requests st) by (destruct Hst0 as [->| ->]; reflexivity).
  assert (Hsto : localStorage st0 = localStorage st) by (destruct Hst0 as [->| ->]; reflexivity).
  rewrite <- Hreq in Hresp.
  destruct (Date.ofNumber
              (Num.add (Num.of_Z (clock env (ticks st0)))
                 (Num.mul (Amadeus.expires_in data) Num.n1000))) as [e|] eqn:Hclip;
    [|exfalso; exact (Hvalid _ Hclip)].
  rewrite (requestToken_granted env st0 clientId clientSecret s t data e Hid Hsecret Hresp Hclip).
  eexists. exists e. split; [reflexivity|].
  cbn [accessToken tokenExpiry localStorage ticks requests].
  cbn [Nat.sub]. rewrite Nat.sub_0_r.
  split; [exact Hclip|]. split.
  { intros secs Hsecs H1 H2 H3. rewrite Hsecs, expiry_whole_seconds in Hclip by assumption.
    injection Hclip as <-. reflexivity. }
  split; [reflexivity|]. split; [reflexivity|].
  split; [rewrite lookup_insert_ne by discriminate; apply lookup_insert_eq|].
  split; [apply lookup_insert_eq|].
  split; [|rewrite Hreq; reflexivity].
  intros key H1 H2. rewrite !lookup_insert_ne by congruence. rewrite Hsto. reflexivity.
Qed.

Lemma getAccessToken_persists_witness :
  exists st',
    getAccessToken Scenario.steadyHost Scenario.fresh = (Ok "tok", st') /\
    accessToken st' = Some "tok" /\
    tokenExpiry st' = Some (Some (Scenario.noon + 1799000)) /\
    localStorage st' !! "amadeus_token" = Some "tok" /\
    localStorage st' !! "amadeus_token_expiry" = Some "2025-04-10T12:29:59.000Z" /\
    requests st' = [PostToken "client" "secret"].
Proof.
  destruct (getAccessToken_persists Scenario.steadyHost Scenario.fresh "client" "secret"
              200 "OK"
              {| Amadeus.access_token := "tok"; Amadeus.expires_in := Num.of_Z 1799 |})
    as (st' & e & Hrun & _ & Hwhole & Hacc & Hexp & Htok & Hiso & _ & Hreq).
  - exact I.
  - reflexivity.
  - reflexivity.
  - reflexivity.
  - intros n. vm_compute. discriminate.
  - assert (He : e = Scenario.noon + 1799000).
    { apply (Hwhole 1799); [reflexivity | | |]; vm_compute; discriminate. }
    subst e. exists st'. split; [exact Hrun|]. split; [exact Hacc|].
    split; [exact Hexp|]. split; [exact Htok|]. split; [|exact Hreq].
    rewrite Hiso. vm_compute. reflexivity.
Defined.

Lemma stored_token_run env st token iso e :
  localStorage st !! "amadeus_token" = Some token -> token <> "" ->
  localStorage st !! "amadeus_token_expiry" = Some iso -> iso <> "" ->
  Date_parse env iso = Some e ->
  clock env (ticks st) < e -> clock env (S (ticks st)) < e ->
  (loadStoredToken env ;;; getAccessToken env) st
  = (Ok token,
     set_ticks (S (S (ticks st)))
       (set_tokenExpiry (Some (Some e)) (set_accessToken (Some token) st))).
Proof.
  intros Htok Hne Hiso Hine Hparse Hlt1 Hlt2.
  assert (Hload : loadStoredToken env st
                  = (Ok tt, set_tokenExpiry (Some (Some e))
                              (set_accessToken (Some token) (set_ticks (S (ticks st)) st)))).
  { unfold loadStoredToken, bind, getItem. rewrite Htok, Hiso.
    rewrite (truthy_nonempty _ Hne), (truthy_nonempty _ Hine), Hparse.
    unfold now, date_gt. apply Z.ltb_lt in Hlt1. rewrite Hlt1. reflexivity. }
  eapply bind_run; [exact Hload|]. cbv beta.
  rewrite (getAccessToken_in_memory env _ token e); try reflexivity; [exact Hne|].
  destruct st; exact Hlt2.
Qed.

(** X6: A credential in storage that is not yet expired is returned by
    [loadStoredToken] followed by [getAccessToken], whatever the memory
    held, without any request and without a change of the storage. *)
Theorem stored_token_reused env st token iso e :
  localStorage st !! "amadeus_token" = Some token -> token <> "" ->
  localStorage st !! "amadeus_token_expiry" = Some iso -> iso <> "" ->
  Date_parse env iso = Some e ->
  clock env (ticks st) < e -> clock env (S (ticks st)) < e ->
  exists st',
    (loadStoredToken env ;;; getAccessToken env) st = (Ok token, st') /\
    requests st' = requests st /\ localStorage st' = localStorage st /\
    accessToken st' = Some token /\ tokenExpiry st' = Some (Some e).
Proof.
  intros Htok Hne Hiso Hine Hparse Hlt1 Hlt2. eexists. split.
  - apply (stored_token_run env st token iso e); assumption.
  - destruct st; auto.
Qed.

Lemma stored_token_reused_witness :
  exists st',
    (loadStoredToken (Case.parsing Scenario.steadyHost) ;;;
     getAccessToken (Case.parsing Scenario.steadyHost))
      (Case.stored "2025-04-10T12:29:59.000Z") = (Ok "old", st') /\
    requests st' = [] /\
    localStorage st' = localStorage (Case.stored "2025-04-10T12:29:59.000Z") /\
    accessToken st' = Some "old" /\
    tokenExpiry st' = Some (Some (Scenario.noon + 1799000)).
Proof.
  apply (stored_token_reused (Case.parsing Scenario.steadyHost)
           (Case.stored "2025-04-10T12:29:59.000Z") "old" "2025-04-10T12:29:59.000Z"
           (Scenario.noon + 1799000)); try reflexivity; discriminate.
Defined.

Lemma toISOString_nonempty t : Date.toISOString t <> "".
Proof.
  unfold Date.toISOString. destruct (Date.iso_date t); discriminate.
Qed.

Lemma requestToken_Ok env st token st' :
  requestToken env st = (Ok token, st') ->
  exists e,
    accessToken st' = Some token /\ tokenExpiry st' = Some (Some e) /\
    localStorage st' !! "amadeus_token" = Some token /\
    localStorage st' !! "amadeus_token_expiry" = Some (Date.toISOString e) /\
    draws st' = draws st.
Proof.
  unfold requestToken.
  destruct (truthy (VITE_AMADEUS_CLIENT_ID env)) as [clientId|]; [|discriminate].
  destruct (truthy (VITE_AMADEUS_CLIENT_SECRET env)) as [clientSecret|]; [|discriminate].
  unfold try_catch, bind at 1, fetch.
  destruct (token_endpoint env (requests st) (PostToken clientId clientSecret))
    as [|[|] s t [data|]]; try discriminate.
  cbn [negb ok]. unfold json. cbn [body].
  unfold bind, ret, modify, now, setItem. cbn beta iota.
  destruct (Date.ofNumber _) as [e|] eqn:Eclip; [|discriminate].
  unfold toISOString, ret. intros [= <- <-]. exists e. destruct st. state_fields.
  split; [reflexivity|]. split; [reflexivity|].
  split; [rewrite lookup_insert_ne by discriminate; apply lookup_insert_eq|].
  split; [apply lookup_insert_eq | reflexivity].
Qed.

(** X7: A token obtained by an exchange survives a new page load: when the
    service is created afresh over the same storage, on a host whose Date
    parser reads back the stored ISO string, and before the expiry, the
    next acquisition returns the same token and sends no request. *)
Theorem token_survives_restart env st token st1 e :
  noValidToken env st ->
  getAccessToken env st = (Ok token, st1) ->
  token <> "" ->
  tokenExpiry st1 = Some (Some e) ->
  Date_parse env (Date.toISOString e) = Some e ->
  clock env (ticks st1) < e -> clock env (S (ticks st1)) < e ->
  exists st2,
    (loadStoredToken env ;;; getAccessToken env) (restart st1) = (Ok token, st2) /\
    requests st2 = requests st1 /\ localStorage st2 = localStorage st1.
Proof.
  intros Hstale Hrun Hne Hexp Hparse Hlt1 Hlt2.
  destruct (getAccessToken_stale env st Hstale) as (st0 & _ & Hreq).
  rewrite Hreq in Hrun. apply requestToken_Ok in Hrun as (e' & _ & He' & Htok & Hiso & _).
  rewrite Hexp in He'. injection He' as <-.
  pose proof (toISOString_nonempty e) as Hiso_ne.
  destruct st1 as [a x l tk dr rq]. revert Htok Hiso Hlt1 Hlt2. state_fields.
  intros Htok Hiso Hlt1 Hlt2.
  eexists. split.
  - apply (stored_token_run env _ token (Date.toISOString e) e); assumption.
  - auto.
Qed.

Lemma token_survives_restart_witness :
  exists st1 st2,
    getAccessToken (Case.parsing Scenario.steadyHost) Scenario.fresh = (Ok "tok", st1) /\
    (loadStoredToken (Case.parsing Scenario.steadyHost) ;;;
     getAccessToken (Case.parsing Scenario.steadyHost)) (restart st1) = (Ok "tok", st2) /\
    requests st2 = requests st1 /\ localStorage st2 = localStorage st1.
Proof.
  destruct (getAccessToken (Case.parsing Scenario.steadyHost) Scenario.fresh)
    as [r st1] eqn:Hrun.
  assert (Hr : r = Ok "tok")
    by (apply (f_equal fst) in Hrun; cbn [fst] in Hrun; rewrite <- Hrun;
        vm_compute; reflexivity).
  subst r.
  assert (Hexp : tokenExpiry st1 = Some (Some (Scenario.noon + 1799000)))
    by (apply (f_equal (fun p => tokenExpiry (snd p))) in Hrun; cbn [snd] in Hrun;
        rewrite <- Hrun; vm_compute; reflexivity).
  assert (Htk : ticks st1 = 1%nat)
    by (apply (f_equal (fun p => ticks (snd p))) in Hrun; cbn [snd] in Hrun;
        rewrite <- Hrun; vm_compute; reflexivity).
  destruct (token_survives_restart (Case.parsing Scenario.steadyHost) Scenario.fresh "tok" st1
              (Scenario.noon + 1799000) I Hrun ltac:(discriminate) Hexp)
    as (st2 & H2 & Hreq & Hsto).
  - vm_compute. reflexivity.
  - rewrite Htk. vm_compute. reflexivity.
  - rewrite Htk. vm_compute. reflexivity.
  - exists st1, st2. auto.
Defined.

(** ** The three operations, by the outcome of their requests *)

Lemma bind_thrown {A B} (c : M A) (k : A -> M B) st e st1 :
  c st = (Thrown e, st1) -> bind c k st = (Thrown e, st1).
Proof. intros Hc. unfold bind. rewrite Hc. reflexivity. Qed.

Lemma try_catch_thrown {A} (c : M A) h st e st1 :
  c st = (Thrown e, st1) -> try_catch c h st = h e st1.
Proof. intros Hc. unfold try_catch. rewrite Hc. reflexivity. Qed.

Lemma acquire_split env st r st1 :
  (loadStoredToken env ;;; getAccessToken env) st = (r, st1) ->
  exists st0, loadStoredToken env st = (Ok tt, st0) /\ getAccessToken env st0 = (r, st1).
Proof.
  destruct (loadStoredToken_returns env st) as [st0 Hload].
  unfold bind. rewrite Hload. eauto.
Qed.

Lemma fetch_rejected {B} (endpoint : list Request -> Request -> Fetched B) r st :
  endpoint (requests st) r = Rejected ->
  fetch endpoint r st = (Thrown FetchFailed, set_requests (r :: requests st) st).
Proof. intros H. unfold fetch. rewrite H. reflexivity. Qed.

Lemma normalize_from_Ok l : forall k fs,
  normalize_from k l = Ok fs ->
  List.length fs = List.length l /\
  forall i offer, l !! i = Some offer ->
    exists f, fs !! i = Some f /\ normalize offer (k + i) = Ok f.
Proof.
  induction l as [|o l IH]; intros k fs.
  - intros [= <-]. split; [reflexivity|]. intros i offer H. discriminate.
  - change (normalize_from k (o :: l))
      with (match normalize o k with
            | Ok f => match normalize_from (S k) l with
                      | Ok fs => Ok (f :: fs)
                      | Thrown e => Thrown e
                      end
            | Thrown e => Thrown e
            end).
    destruct (normalize o k) as [f|e] eqn:Ef; [|discriminate].
    destruct (normalize_from (S k) l) as [fs'|e] eqn:Efs; [|discriminate].
    intros [= <-]. destruct (IH _ _ Efs) as [Hlen Hall].
    split; [simpl; congruence|].
    intros [|i] offer Hi.
    + injection Hi as <-. exists f. rewrite Nat.add_0_r. auto.
    + destruct (Hall i offer Hi) as (f' & Hf' & Hn). exists f'. split; [exact Hf'|].
      replace (k + S i)%nat with (S k + i)%nat by lia. exact Hn.
Qed.

Lemma normalize_thrown offer index e : normalize offer index = Thrown e -> e = TypeError.
Proof.
  unfold normalize.
  destruct (Amadeus.itineraries offer) as [|it rest]; [congruence|].
  destruct (Amadeus.segments it) as [|sg more]; [congruence|].
  destruct (last (sg :: more)); [|congruence].
  destruct (time_of _); [|congruence].
  destruct (time_of _); congruence.
Qed.

Lemma normalize_from_thrown l : forall k offer,
  offer ∈ l ->
  (forall j, normalize offer j = Thrown TypeError) ->
  normalize_from k l = Thrown TypeError.
Proof.
  induction l as [|o l IH]; intros k offer Hin Hbad.
  - inversion Hin.
  - change (normalize_from k (o :: l))
      with (match normalize o k with
            | Ok f => match normalize_from (S k) l with
                      | Ok fs => Ok (f :: fs)
                      | Thrown e => Thrown e
                      end
            | Thrown e => Thrown e
            end).
    destruct (normalize o k) as [f|e] eqn:Ef.
    + apply elem_of_cons in Hin as [->|Hin]; [rewrite Hbad in Ef; discriminate|].
      rewrite (IH (S k) offer Hin Hbad). reflexivity.
    + apply normalize_thrown in Ef. subst e. reflexivity.
Qed.

(** X8: A successful [searchFlights] answers a successful provider response
    one to one: without [data] it returns no flight, otherwise as many
    flights as offers, in the provider's order, each the normalisation of
    the offer at its own index. *)
Theorem searchFlights_maps env params st fs st' :
  searchFlights env params st = (Ok fs, st') ->
  exists log query token s t data,
    offers_endpoint env log (GetFlightOffers query token)
      = Responded true s t (Some data) /\
    match Amadeus.offers data with
    | None => fs = []
    | Some l =>
        List.length fs = List.length l /\
        forall i offer, l !! i = Some offer ->
          exists f, fs !! i = Some f /\ normalize offer i = Ok f
    end.
Proof.
  unfold searchFlights, try_catch.
  match goal with
  | |- context [match ?c st with _ => _ end] => destruct (c st) as [[out|e] s0] eqn:Erun
  end; [|discriminate].
  intros [= <- <-].
  apply bind_Ok in Erun as (_ & s1 & _ & Erun).
  apply bind_Ok in Erun as (token & s2 & _ & Erun).
  apply bind_Ok in Erun as (response & s3 & Hfetch & Erun).
  apply fetch_Ok in Hfetch as [Hresp _].
  destruct (ok response) eqn:Eok; [|discriminate]. cbn [negb] in Erun.
  apply bind_Ok in Erun as (data & s4 & Hjson & Erun).
  unfold json in Hjson. destruct (body response) as [b|] eqn:Ebody; [|discriminate].
  unfold ret in Hjson. injection Hjson as -> ->.
  do 6 eexists. split; [exact Hresp|].
  destruct (Amadeus.offers data) as [l|].
  - unfold lift in Erun. injection Erun as Hn _.
    apply normalize_from_Ok in Hn. exact Hn.
  - unfold ret in Erun. injection Erun as <- _. reflexivity.
Qed.

Lemma searchFlights_maps_witness :
  exists log query token s t data,
    offers_endpoint (Case.offering (Case.found [Scenario.offerX; Scenario.offer None]))
      log (GetFlightOffers query token) = Responded true s t (Some data) /\
    match Amadeus.offers data with
    | None => True
    | Some l =>
        forall i offer, l !! i = Some offer ->
          exists f, [Scenario.normalizedX;
                     {| FlightOffer.id := "flight-1";
                        FlightOffer.airline := FlightOffer.airline Scenario.normalizedX;
                        FlightOffer.flightNumber := FlightOffer.flightNumber Scenario.normalizedX;
                        FlightOffer.departure := FlightOffer.departure Scenario.normalizedX;
                        FlightOffer.arrival := FlightOffer.arrival Scenario.normalizedX;
                        FlightOffer.duration := FlightOffer.duration Scenario.normalizedX;
                        FlightOffer.stops := 0;
                        FlightOffer.price := FlightOffer.price Scenario.normalizedX;
                        FlightOffer.currency := "USD";
                        FlightOffer.aircraft := None |}] !! i = Some f /\
                    normalize offer i = Ok f
    end.
Proof.
  destruct (searchFlights (Case.offering (Case.found [Scenario.offerX; Scenario.offer None]))
              Case.trip Scenario.fresh) as [r st'] eqn:Hrun.
  assert (Hr : r = Ok [Scenario.normalizedX;
                     {| FlightOffer.id := "flight-1";
                        FlightOffer.airline := FlightOffer.airline Scenario.normalizedX;
                        FlightOffer.flightNumber := FlightOffer.flightNumber Scenario.normalizedX;
                        FlightOffer.departure := FlightOffer.departure Scenario.normalizedX;
                        FlightOffer.arrival := FlightOffer.arrival Scenario.normalizedX;
                        FlightOffer.duration := FlightOffer.duration Scenario.normalizedX;
                        FlightOffer.stops := 0;
                        FlightOffer.price := FlightOffer.price Scenario.normalizedX;
                        FlightOffer.currency := "USD";
                        FlightOffer.aircraft := None |}])
    by (apply (f_equal fst) in Hrun; cbn [fst] in Hrun; rewrite <- Hrun;
        vm_compute; reflexivity).
  subst r.
  destruct (searchFlights_maps _ _ _ _ _ Hrun) as (log & query & token & s & t & data & Hresp & H).
  exists log, query, token, s, t, data. split; [exact Hresp|].
  destruct (Amadeus.offers data); [apply H | exact I].
Defined.

(** What [searchFlights] does with a token at hand: one request to the
    offers endpoint, and a result read off the answer. *)
Lemma searchFlights_run env params st token st1 :
  (loadStoredToken env ;;; getAccessToken env) st = (Ok token, st1) ->
  let request :=
    GetFlightOffers
      ([ ("originLocationCode", origin params);
         ("destinationLocationCode", destination params);
         ("departureDate", departureDate params);
         ("adults", Str.of_index (passengers params)) ]
       ++ match truthy (returnDate params), roundtrip params with
          | Some r, true => [("returnDate", r)]
          | _, _ => []
          end ++ [("max", "20")])%list token in
  searchFlights env params st =
    (match offers_endpoint env (requests st1) request with
     | Rejected => Thrown FetchFailed
     | Responded false s t _ => Thrown (FlightSearchFailed s t)
     | Responded true _ _ None => Thrown JsonFailed
     | Responded true _ _ (Some data) =>
         match Amadeus.offers data with
         | Some l => normalize_from 0 l
         | None => Ok []
         end
     end, set_requests (request :: requests st1) st1).
Proof.
  intros Hacq request.
  apply acquire_split in Hacq as (st0 & Hload & Hget).
  unfold searchFlights, try_catch, bind at 1. rewrite Hload.
  unfold bind at 1. rewrite Hget.
  rewrite <- app_assoc. fold request.
  unfold bind at 1, fetch.
  destruct (offers_endpoint env (requests st1) request) as [|[|] s t [data|]];
    cbn [ok body status statusText negb]; try reflexivity.
  - unfold json, bind, ret. cbn [body].
    destruct (Amadeus.offers data) as [l|]; [|reflexivity].
    unfold lift. destruct (normalize_from 0 l); reflexivity.
Qed.

(** ** Well-formed offers and the normaliser *)

Lemma split_includes c s d t rest :
  Str.split c s = d :: t :: rest -> Str.includes s (String c EmptyString) = true.
Proof.
  revert d t rest. induction s as [|a r IH]; intros d t rest.
  - discriminate.
  - cbn [Str.split Str.includes]. destruct (Ascii.eqb a c) eqn:Eac.
    + intros _. apply Ascii.eqb_eq in Eac.
      apply orb_true_iff. left. apply prefix_char. exact Eac.
    + destruct (Str.split c r) as [|h [|t' rest']] eqn:E; try discriminate.
      intros _. apply orb_true_iff. right. eapply IH. reflexivity.
Qed.

Lemma time_of_Ok s : (exists t, time_of s = Ok t) <-> Str.includes s "T" = true.
Proof.
  split; [|apply time_of_includes].
  intros [t Ht]. unfold time_of in Ht.
  destruct (Str.split "T" s) as [|d [|t' rest]] eqn:E; try discriminate.
  eapply split_includes. exact E.
Qed.

Lemma time_of_Thrown s : Str.includes s "T" = false -> time_of s = Thrown TypeError.
Proof.
  intros H. destruct (time_of s) as [t|e] eqn:E.
  - assert (Str.includes s "T" = true) by (apply time_of_Ok; eauto). congruence.
  - unfold time_of in E. destruct (Str.split "T" s) as [|d [|t' rest]]; congruence.
Qed.

Lemma normalize_wellFormed_Ok offer index :
  wellFormed offer = true -> exists f, normalize offer index = Ok f.
Proof.
  unfold normalize, wellFormed.
  destruct (Amadeus.itineraries offer) as [|itinerary rest]; [discriminate|].
  destruct (Amadeus.segments itinerary) as [|firstSegment more]; [discriminate|].
  destruct (last (firstSegment :: more)) as [lastSegment|]; [|discriminate].
  intros H. apply andb_true_iff in H as [Hd Ha].
  apply time_of_includes in Hd as [dt ->]. apply time_of_includes in Ha as [art ->].
  eauto.
Qed.

Lemma normalize_malformed offer index :
  wellFormed offer = false -> normalize offer index = Thrown TypeError.
Proof.
  unfold normalize, wellFormed.
  destruct (Amadeus.itineraries offer) as [|itinerary rest]; [reflexivity|].
  destruct (Amadeus.segments itinerary) as [|firstSegment more]; [reflexivity|].
  destruct (last (firstSegment :: more)) as [lastSegment|]; [|reflexivity].
  intros H. apply andb_false_iff in H as [H|H]; rewrite (time_of_Thrown _ H).
  - reflexivity.
  - destruct (time_of _); reflexivity.
Qed.

Lemma split_prefix c s t :
  Str.avoids c s -> exists x rest, Str.split c (s ++ t) = (s ++ x) :: rest.
Proof.
  induction s as [|a s IH].
  - intros _. rewrite DateFacts.append_Empty.
    destruct (Str.split c t) as [|x rest] eqn:E; [now apply split_nonempty in E|].
    exists x, rest. reflexivity.
  - intros [Hne Hs]. rewrite DateFacts.append_String. cbn [Str.split].
    apply Ascii.eqb_neq in Hne. rewrite Hne.
    destruct (IH Hs) as (x & rest & ->). exists x, rest. reflexivity.
Qed.

Lemma substring0_app s x : Str.substring0 (String.length s) (s ++ x) = s.
Proof.
  unfold Str.substring0. induction s as [|a s IH].
  - destruct x; reflexivity.
  - rewrite DateFacts.append_String. cbn [String.length String.substring].
    rewrite IH. reflexivity.
Qed.

Lemma timestamp_parts d hm tail :
  Str.avoids "T" d -> Str.avoids "T" hm -> String.length hm = 5%nat ->
  date_of (d ++ "T" ++ hm ++ tail) = d /\
  time_of (d ++ "T" ++ hm ++ tail) = Ok hm.
Proof.
  intros Hd Hhm Hlen. unfold date_of, time_of.
  change ("T" ++ hm ++ tail) with (String "T" (hm ++ tail)).
  rewrite (DateFacts.split_avoids "T" d (hm ++ tail) Hd).
  destruct (split_prefix "T" hm tail Hhm) as (x & rest & ->).
  split; [reflexivity|]. rewrite <- Hlen, substring0_app. reflexivity.
Qed.

(** X9: The normaliser returns a flight exactly for the well-formed offers: a
    first itinerary with at least one segment, and a 'T' in the departure
    timestamp of its first segment and in the arrival timestamp of its
    last. The position of the offer plays no part. *)
Theorem normalize_succeeds_iff offer index :
  (exists f, normalize offer index = Ok f) <-> wellFormed offer = true.
Proof.
  split.
  - intros [f Hf]. destruct (wellFormed offer) eqn:E; [reflexivity|].
    rewrite (normalize_malformed offer index E) in Hf. discriminate.
  - apply normalize_wellFormed_Ok.
Qed.

(** X10: The two ends of a normalised flight: the departure is read from the
    first segment of the first itinerary and the arrival from its last
    segment, the airport code standing in for the city; a timestamp
    [date]T[hh:mm][rest] gives the date and the five characters of the
    time. *)
Theorem normalize_endpoints offer index f itinerary rest firstSegment more lastSegment
    d1 hm1 tail1 d2 hm2 tail2 :
  normalize offer index = Ok f ->
  Amadeus.itineraries offer = itinerary :: rest ->
  Amadeus.segments itinerary = firstSegment :: more ->
  last (Amadeus.segments itinerary) = Some lastSegment ->
  Amadeus.at_ (Amadeus.departure firstSegment) = d1 ++ "T" ++ hm1 ++ tail1 ->
  Amadeus.at_ (Amadeus.arrival lastSegment) = d2 ++ "T" ++ hm2 ++ tail2 ->
  Str.avoids "T" d1 -> Str.avoids "T" hm1 -> String.length hm1 = 5%nat ->
  Str.avoids "T" d2 -> Str.avoids "T" hm2 -> String.length hm2 = 5%nat ->
  FlightOffer.departure f =
    {| FlightOffer.airport := Amadeus.iataCode (Amadeus.departure firstSegment);
       FlightOffer.city := Amadeus.iataCode (Amadeus.departure firstSegment);
       FlightOffer.time := hm1; FlightOffer.date := d1 |} /\
  FlightOffer.arrival f =
    {| FlightOffer.airport := Amadeus.iataCode (Amadeus.arrival lastSegment);
       FlightOffer.city := Amadeus.iataCode (Amadeus.arrival lastSegment);
       FlightOffer.time := hm2; FlightOffer.date := d2 |} /\
  FlightOffer.airline f = Amadeus.carrierCode firstSegment.
Proof.
  intros Hn Hit Hsegs Hlast Hdep Harr Hd1 Hhm1 Hl1 Hd2 Hhm2 Hl2.
  unfold normalize in Hn. rewrite Hit, Hlast, Hsegs in Hn.
  rewrite Hdep, Harr in Hn.
  destruct (timestamp_parts d1 hm1 tail1 Hd1 Hhm1 Hl1) as [Hdate1 Htime1].
  destruct (timestamp_parts d2 hm2 tail2 Hd2 Hhm2 Hl2) as [Hdate2 Htime2].
  rewrite Htime1, Htime2, Hdate1, Hdate2 in Hn.
  injection Hn as <-. cbn. auto.
Qed.

Lemma normalize_endpoints_witness :
  FlightOffer.departure Scenario.normalizedX =
    {| FlightOffer.airport := "JFK"; FlightOffer.city := "JFK";
       FlightOffer.time := "08:00"; FlightOffer.date := "2024-06-01" |} /\
  FlightOffer.arrival Scenario.normalizedX =
    {| FlightOffer.airport := "LAX"; FlightOffer.city := "LAX";
       FlightOffer.time := "11:30"; FlightOffer.date := "2024-06-01" |} /\
  FlightOffer.airline Scenario.normalizedX = "AA".
Proof.
  apply (normalize_endpoints Scenario.offerX 0 Scenario.normalizedX
           {| Amadeus.duration := "PT2H30M";
              Amadeus.segments :=
                [ Scenario.segment "JFK" "2024-06-01T08:00" "LAX" "2024-06-01T11:30"
                    "AA" "100" ] |}
           []
           (Scenario.segment "JFK" "2024-06-01T08:00" "LAX" "2024-06-01T11:30" "AA" "100")
           []
           (Scenario.segment "JFK" "2024-06-01T08:00" "LAX" "2024-06-01T11:30" "AA" "100")
           "2024-06-01" "08:00" "" "2024-06-01" "11:30" "");
    try reflexivity;
    try (vm_compute; reflexivity);
    simpl; repeat split; discriminate.
Defined.

(** ** Flight search *)

(** X11: With a token at hand, [searchFlights] sends exactly one request, to
    the offers endpoint with that token. Its query carries the origin,
    destination, departure date and passenger count of the search and
    max=20, and a return date exactly when the search is a round trip
    with a non-empty return date. *)
Theorem searchFlights_request env params st token st1 :
  (loadStoredToken env ;;; getAccessToken env) st = (Ok token, st1) ->
  exists query,
    requests (snd (searchFlights env params st))
      = GetFlightOffers query token :: requests st1 /\
    (forall v, In ("originLocationCode", v) query <-> v = origin params) /\
    (forall v, In ("destinationLocationCode", v) query <-> v = destination params) /\
    (forall v, In ("departureDate", v) query <-> v = departureDate params) /\
    (forall v, In ("adults", v) query <-> v = Str.of_index (passengers params)) /\
    (forall v, In ("max", v) query <-> v = "20") /\
    (forall v, In ("returnDate", v) query <->
               roundtrip params = true /\ truthy (returnDate params) = Some v).
Proof.
  intros Hacq. rewrite (searchFlights_run env params st token st1 Hacq).
  eexists. split; [cbn [snd]; destruct st1; reflexivity|].
  destruct (truthy (returnDate params)) as [r|], (roundtrip params);
    cbn [app In]; repeat split; intros; intuition congruence.
Qed.

Lemma searchFlights_request_witness :
  exists query st1,
    requests (snd (searchFlights Scenario.steadyHost Case.trip Scenario.fresh))
      = GetFlightOffers query "tok" :: requests st1 /\
    In ("returnDate", "2024-06-08") query /\ In ("adults", "2") query.
Proof.
  destruct ((loadStoredToken Scenario.steadyHost ;;; getAccessToken Scenario.steadyHost)
              Scenario.fresh) as [r st1] eqn:Hacq.
  assert (Hr : r = Ok "tok")
    by (apply (f_equal fst) in Hacq; cbn [fst] in Hacq; rewrite <- Hacq;
        vm_compute; reflexivity).
  subst r.
  destruct (searchFlights_request Scenario.steadyHost Case.trip Scenario.fresh "tok" st1 Hacq)
    as (query & Hreq & _ & _ & _ & Had & _ & Hret).
  exists query, st1. split; [exact Hreq|]. split.
  - apply Hret. split; reflexivity.
  - apply Had. reflexivity.
Defined.

(** X12: A search that gets no usable answer from the offers endpoint ends
    with an exception: the network's own when no response arrives, the
    status and status text of a non-success response, and the parser's
    when the body of a success response does not parse. *)
Theorem searchFlights_provider_failure env params st token st1 answer :
  (loadStoredToken env ;;; getAccessToken env) st = (Ok token, st1) ->
  (forall query, offers_endpoint env (requests st1) (GetFlightOffers query token) = answer) ->
  match answer with
  | Rejected => fst (searchFlights env params st) = Thrown FetchFailed
  | Responded false status statusText _ =>
      fst (searchFlights env params st) = Thrown (FlightSearchFailed status statusText)
  | Responded true _ _ None => fst (searchFlights env params st) = Thrown JsonFailed
  | Responded true _ _ (Some _) => True
  end.
Proof.
  intros Hacq Hanswer. rewrite (searchFlights_run env params st token st1 Hacq).
  rewrite Hanswer. destruct answer as [|[|] s t [data|]]; cbn [fst]; eauto.
Qed.

Lemma searchFlights_provider_failure_witness :
  fst (searchFlights Scenario.unavailableHost Case.trip Scenario.fresh)
  = Thrown (FlightSearchFailed 503 "Service Unavailable").
Proof.
  destruct ((loadStoredToken Scenario.unavailableHost ;;; getAccessToken Scenario.unavailableHost)
              Scenario.fresh) as [r st1] eqn:Hacq.
  assert (Hr : r = Ok "tok")
    by (apply (f_equal fst) in Hacq; cbn [fst] in Hacq; rewrite <- Hacq;
        vm_compute; reflexivity).
  subst r.
  apply (searchFlights_provider_failure Scenario.unavailableHost Case.trip Scenario.fresh
           "tok" st1 Scenario.unavailable Hacq).
  intros query. reflexivity.
Defined.

(** X13: One offer that is not well formed fails the whole search: no flight
    is returned, however many well-formed offers came with it. *)
Theorem searchFlights_all_or_nothing env params st token st1 status statusText l offer :
  (loadStoredToken env ;;; getAccessToken env) st = (Ok token, st1) ->
  (forall query,
     offers_endpoint env (requests st1) (GetFlightOffers query token)
     = Responded true status statusText (Some {| Amadeus.offers := Some l |})) ->
  offer ∈ l ->
  wellFormed offer = false ->
  fst (searchFlights env params st) = Thrown TypeError.
Proof.
  intros Hacq Hanswer Hin Hbad. rewrite (searchFlights_run env params st token st1 Hacq).
  rewrite Hanswer. cbn [fst Amadeus.offers].
  apply (normalize_from_thrown l 0 offer Hin).
  intros j. apply normalize_malformed. exact Hbad.
Qed.

Lemma searchFlights_all_or_nothing_witness :
  fst (searchFlights (Case.offering (Case.found [Scenario.offerX; Case.bare; Scenario.offerX]))
         Case.trip Scenario.fresh)
  = Thrown TypeError.
Proof.
  destruct ((loadStoredToken (Case.offering (Case.found [Scenario.offerX; Case.bare; Scenario.offerX])) ;;;
             getAccessToken (Case.offering (Case.found [Scenario.offerX; Case.bare; Scenario.offerX])))
              Scenario.fresh) as [r st1] eqn:Hacq.
  assert (Hr : r = Ok "tok")
    by (apply (f_equal fst) in Hacq; cbn [fst] in Hacq; rewrite <- Hacq;
        vm_compute; reflexivity).
  subst r.
  apply (searchFlights_all_or_nothing _ Case.trip Scenario.fresh "tok" st1 200 "OK"
           [Scenario.offerX; Case.bare; Scenario.offerX] Case.bare Hacq).
  - intros query. reflexivity.
  - apply list_elem_of_In. simpl. auto.
  - reflexivity.
Defined.

(** ** Price history and airport lookup, by the outcome of their requests *)

Lemma historyPoint_requests env basePrice i st r st' :
  historyPoint env basePrice i st = (r, st') -> requests st' = requests st.
Proof.
  unfold historyPoint, bind, now, random. cbn beta iota.
  destruct st as [a e l t dr rq]. state_fields.
  destruct (Date.setDate _ _ _); unfold ret, throw; intros [= <- <-]; reflexivity.
Qed.

Lemma historyLoop_requests env basePrice i :
  forall history st r st',
    historyLoop env basePrice i history st = (r, st') -> requests st' = requests st.
Proof.
  induction i as [|i IH]; intros history st r st'.
  - rewrite historyLoop_O. unfold bind.
    destruct (historyPoint env basePrice 0 st) as [[p|e] s1] eqn:Hp;
      apply historyPoint_requests in Hp; unfold ret; intros [= <- <-]; exact Hp.
  - rewrite historyLoop_S. unfold bind.
    destruct (historyPoint env basePrice (S i) st) as [[p|e] s1] eqn:Hp;
      apply historyPoint_requests in Hp.
    + intros Hrun. apply IH in Hrun. congruence.
    + intros [= <- <-]. exact Hp.
Qed.

Lemma historyLoop_ticks env basePrice i :
  forall history st out st',
    historyLoop env basePrice i history st = (Ok out, st') ->
    ticks st' = (S i + ticks st)%nat.
Proof.
  induction i as [|i IH]; intros history st out st'.
  - rewrite historyLoop_O. intros Hrun. apply bind_Ok in Hrun as (p & s1 & Hp & Hret).
    unfold ret in Hret. injection Hret as _ <-.
    apply historyPoint_inv in Hp as (_ & Ht & _). rewrite Ht. reflexivity.
  - rewrite historyLoop_S. intros Hrun. apply bind_Ok in Hrun as (p & s1 & Hp & Hrun).
    apply IH in Hrun. apply historyPoint_inv in Hp as (_ & Ht & _). lia.
Qed.

Lemma catch_all {A} (c : M A) (a : A) st :
  exists x st', try_catch c (fun _ => ret a) st = (Ok x, st').
Proof.
  unfold try_catch. destruct (c st) as [[x|e] s1]; unfold ret; eauto.
Qed.

(** X14: [getPriceHistory] never ends with an exception, on any host and from
    any state: it returns no point at all or 31 points. *)
Theorem getPriceHistory_never_throws env flightId origin destination st :
  exists h st',
    getPriceHistory env flightId origin destination st = (Ok h, st') /\
    (h = [] \/ List.length h = 31%nat).
Proof.
  destruct (catch_all
              (loadStoredToken env ;;;
               token <- getAccessToken env ;;
               currentDate <- now env ;;
               let tomorrow :=
                 Date.setDate (timezone env) currentDate
                   (Date.getDate (timezone env) currentDate + 1) in
               dateStr <- isoDay tomorrow ;;
               response <- fetch (offers_endpoint env)
                             (GetFlightOffers
                                [ ("originLocationCode", origin);
                                  ("destinationLocationCode", destination);
                                  ("departureDate", dateStr);
                                  ("adults", "1");
                                  ("max", "5") ] token) ;;
               basePrice <-
                 (if ok response then
                    data <- json response ;;
                    match Amadeus.offers data with
                    | Some (offer :: rest) =>
                        ret (average
                               (map (fun offer =>
                                       Parse.parseFloat (Amadeus.total (Amadeus.price offer)))
                                  (offer :: rest)))
                    | _ => ret Num.n250
                    end
                  else ret Num.n250) ;;
               history <- historyLoop env basePrice 30 [] ;;
               ret (sort byDate history)) [] st) as (h & st' & Hrun).
  change (getPriceHistory env flightId origin destination st = (Ok h, st')) in Hrun.
  exists h, st'. split; [exact Hrun|].
  destruct h as [|p h0]; [left; reflexivity | right].
  apply getPriceHistory_inv in Hrun
    as (log & token & dateStr & history & s & s' & Hloop & ->); [|discriminate].
  rewrite (Permutation_length (sort_perm byDate history)).
  apply history_points in Hloop as (hs & -> & Hlen & _). exact Hlen.
Qed.



(** X16: [getAirports] by the outcome of its requests: only a success
    response whose body parses is shown, its first five locations as they
    come; a failure to acquire a token, no response, a non-success
    response and a body that does not parse all give the matches of the
    built-in catalog instead. *)
Theorem getAirports_outcome env query st :
  match (loadStoredToken env ;;; getAccessToken env) st with
  | (Thrown _, st1) => getAirports env query st = (Ok (getMockAirports query), st1)
  | (Ok token, st1) =>
      getAirports env query st =
      (Ok match locations_endpoint env (requests st1) (GetLocations query token) with
          | Responded true _ _ (Some data) =>
              take 5 match Amadeus.locations data with
                     | Some l => map airportOf l
                     | None => []
                     end
          | _ => getMockAirports query
          end,
       set_requests (GetLocations query token :: requests st1) st1)
  end.
Proof.
  destruct ((loadStoredToken env ;;; getAccessToken env) st) as [[token|e] st1] eqn:Hacq;
    apply acquire_split in Hacq as (st0 & Hload & Hget);
    unfold getAirports, try_catch, bind at 1; rewrite Hload;
    unfold bind at 1; rewrite Hget; [|reflexivity].
  unfold bind at 1, fetch.
  destruct (locations_endpoint env (requests st1) (GetLocations query token))
    as [|[|] s t [data|]]; reflexivity.
Qed.

(** X17: Without a token the three operations part ways: [searchFlights] ends
    with the very exception of the acquisition, [getPriceHistory] returns
    the empty history and [getAirports] the matches of the built-in
    catalog; none of them sends a request of its own. *)
Theorem without_token env st e st1 :
  (loadStoredToken env ;;; getAccessToken env) st = (Thrown e, st1) ->
  (forall params, searchFlights env params st = (Thrown e, st1)) /\
  (forall flightId origin destination,
     getPriceHistory env flightId origin destination st = (Ok [], st1)) /\
  (forall query, getAirports env query st = (Ok (getMockAirports query), st1)).
Proof.
  intros Hacq. apply acquire_split in Hacq as (st0 & Hload & Hget).
  split; [|split].
  - intros params. unfold searchFlights, try_catch, bind at 1. rewrite Hload.
    unfold bind at 1. rewrite Hget. reflexivity.
  - intros flightId origin destination.
    unfold getPriceHistory, try_catch, bind at 1. rewrite Hload.
    unfold bind at 1. rewrite Hget. reflexivity.
  - intros query. unfold getAirports, try_catch, bind at 1. rewrite Hload.
    unfold bind at 1. rewrite Hget. reflexivity.
Qed.

Lemma without_token_witness :
  exists st1,
    searchFlights (Case.unconfigured Scenario.steadyHost) Case.trip Scenario.fresh
      = (Thrown CredentialsNotFound, st1) /\
    getPriceHistory (Case.unconfigured Scenario.steadyHost) "flight" "JFK" "LAX" Scenario.fresh
      = (Ok [], st1) /\
    getAirports (Case.unconfigured Scenario.steadyHost) "paris" Scenario.fresh
      = (Ok (getMockAirports "paris"), st1) /\
    requests st1 = [].
Proof.
  destruct (without_token (Case.unconfigured Scenario.steadyHost) Scenario.fresh
              CredentialsNotFound Scenario.fresh) as (Hs & Hp & Ha).
  - vm_compute. reflexivity.
  - exists Scenario.fresh. split; [apply Hs|]. split; [apply Hp|]. split; [apply Ha | reflexivity].
Defined.

(** ** The built-in catalog *)

Lemma getMockAirports_filter query :
  getMockAirports query = take 5 (List.filter (matches query) catalog).
Proof.
  unfold getMockAirports, catalog. f_equal.
  induction mockAirports as [|[code data] l IH]; [reflexivity|].
  cbn [List.filter map]. unfold matches at 1. cbn [Airport.code Airport.city Airport.name].
  destruct (_ || _ || _); cbn [map]; rewrite IH; reflexivity.
Qed.

Lemma filter_sublist {A} (f : A -> bool) l : sublist (List.filter f l) l.
Proof.
  induction l as [|a l IH]; cbn; [constructor|].
  destruct (f a); [apply sublist_skip | apply sublist_cons]; exact IH.
Qed.

Lemma catalog_codes : NoDup (map Airport.code catalog).
Proof.
  apply NoDup_ListNoDup. vm_compute.
  repeat (constructor; [simpl; intuition discriminate|]). constructor.
Qed.

(** X18: The fallback suggestions are entries of the catalog in the order of
    the catalog, and no two of them have the same code (the key under
    which the suggestion list renders them). *)
Theorem getMockAirports_catalog query :
  sublist (getMockAirports query) catalog /\
  NoDup (map Airport.code (getMockAirports query)).
Proof.
  assert (Hsub : sublist (getMockAirports query) catalog).
  { rewrite getMockAirports_filter.
    etransitivity; [apply sublist_take | apply filter_sublist]. }
  split; [exact Hsub|].
  apply (fmap_sublist Airport.code) in Hsub.
  exact (sublist_NoDup _ _ catalog_codes Hsub).
Qed.

(** X19: When fewer than five fallback suggestions are shown, no entry of the
    catalog that matches the keyword is missing from them. *)
Theorem getMockAirports_complete query a :
  (List.length (getMockAirports query) < 5)%nat ->
  a ∈ catalog -> matches query a = true ->
  a ∈ getMockAirports query.
Proof.
  rewrite getMockAirports_filter. intros Hlen Hin Hm.
  rewrite take_ge.
  - apply list_elem_of_In, filter_In. split; [apply list_elem_of_In; exact Hin | exact Hm].
  - rewrite length_take in Hlen. lia.
Qed.

Lemma getMockAirports_complete_witness :
  {| Airport.code := "CDG"; Airport.city := "Paris";
     Airport.name := "Charles de Gaulle Airport" |} ∈ getMockAirports "paris".
Proof.
  apply getMockAirports_complete.
  - vm_compute. lia.
  - apply list_elem_of_In. vm_compute. tauto.
  - vm_compute. reflexivity.
Defined.

(** ** The window of the price history *)

Lemma now_Ok env st t st' :
  now env st = (Ok t, st') -> t = clock env (ticks st) /\ st' = set_ticks (S (ticks st)) st.
Proof. unfold now. intros [= <- <-]. auto. Qed.

Lemma isoDay_Ok d st x st' :
  isoDay d st = (Ok x, st') ->
  exists t, d = Some t /\ x = date_of (Date.toISOString t) /\ st' = st.
Proof.
  unfold isoDay, toISOString. destruct d as [t|]; [|discriminate].
  unfold bind, ret. intros [= <- <-]. eauto.
Qed.

(** A synthesized history comes from one run of the loop, which starts
    right after the request for the offers of the next day and whose last
    clock reading is the last one of [getPriceHistory]. *)
Lemma getPriceHistory_window env flightId origin destination st h st' :
  getPriceHistory env flightId origin destination st = (Ok h, st') ->
  h <> [] ->
  exists st1 token tomorrow history,
    (loadStoredToken env ;;; getAccessToken env) st = (Ok token, st1) /\
    Date.setDate (timezone env) (clock env (ticks st1))
      (Date.getDate (timezone env) (clock env (ticks st1)) + 1) = Some tomorrow /\
    let request :=
      GetFlightOffers
        [ ("originLocationCode", origin);
          ("destinationLocationCode", destination);
          ("departureDate", date_of (Date.toISOString tomorrow));
          ("adults", "1");
          ("max", "5") ] token in
    historyLoop env (Spec.basePrice (offers_endpoint env (requests st1) request)) 30 []
      (set_requests (request :: requests st1) (set_ticks (S (ticks st1)) st1))
      = (Ok history, st') /\
    h = sort byDate history.
Proof.
  unfold getPriceHistory, try_catch.
  match goal with
  | |- context [match ?c st with _ => _ end] => destruct (c st) as [[out|e] s0] eqn:Erun
  end.
  2:{ unfold ret. intros [= <- <-] Hne. congruence. }
  intros [= <- <-] _.
  apply bind_Ok in Erun as ([] & s1 & Hload & Erun).
  apply bind_Ok in Erun as (token & s2 & Htoken & Erun).
  apply bind_Ok in Erun as (currentDate & s3 & Hnow & Erun).
  apply bind_Ok in Erun as (dateStr & s4 & Hiso & Erun).
  apply bind_Ok in Erun as (response & s5 & Hfetch & Erun).
  apply bind_Ok in Erun as (basePrice & s6 & Hbase & Erun).
  apply bind_Ok in Erun as (history & s7 & Hloop & Erun).
  unfold ret in Erun. injection Erun as <- <-.
  apply now_Ok in Hnow as [-> ->].
  apply isoDay_Ok in Hiso as (tomorrow & Etomorrow & -> & ->).
  apply fetch_Ok in Hfetch as [Hresp ->].
  apply basePrice_inv in Hbase as [-> ->].
  rewrite <- Hresp in Hloop.
  exists s2, token, tomorrow, history.
  split; [eapply bind_run; [exact Hload | exact Htoken]|].
  split; [exact Etomorrow|].
  split; [exact Hloop | reflexivity].
Qed.

Lemma setDate_during tz offset c k d :
  Date.LocalTZA_utc tz c = offset ->
  Date.LocalTZA_local tz (c + offset - k * Date.msPerDay) = offset ->
  Date.setDate tz c (Date.getDate tz c - k) = Some d ->
  d = c - k * Date.msPerDay.
Proof.
  intros Hutc Hlocal. unfold Date.setDate. rewrite DateFacts.setDateLocal_getDate.
  unfold Date.UTC, Date.LocalTime, Date.TimeClip. rewrite Hutc, Hlocal.
  destruct (_ <=? _); [|discriminate]. intros [= <-]. lia.
Qed.

(** A host that is steady is steady during every window. *)
Lemma steady_during env first last : steady env -> steadyDuring env first last.
Proof.
  intros ((offset & Hoff) & Hmono & Hrange). split; [|split].
  - exists offset. split; intros t _; apply Hoff.
  - intros n m _ Hnm _. apply Hmono. exact Hnm.
  - intros n _ _. apply Hrange.
Qed.

(** During a steady window the loop generates strictly ascending dates. *)
Lemma history_during env basePrice st history st' :
  steadyDuring env (ticks st) (ticks st + 30) ->
  historyLoop env basePrice 30 [] st = (Ok history, st') ->
  StronglySorted (fun a b => byDate a b = Lt) history.
Proof.
  intros ((offset & Hutc & Hlocal) & Hmono & Hrange) Hrun.
  apply historyLoop_inv in Hrun as (h & -> & Hlen & Hall). cbn [app].
  assert (Hdate : forall j p, (j <= 30)%nat ->
            generatedAt env basePrice (ticks st + j) (draws st + j) (30 - j) p ->
            PriceHistory.date p
            = Date.iso_date (clock env (ticks st + j)
                             - Z.of_nat (30 - j) * Date.msPerDay)).
  { intros j p Hj (d & Hd & Hp & _).
    rewrite Hp, DateFacts.date_of_toISOString. f_equal.
    pose proof (Hmono (ticks st) (ticks st + j)%nat ltac:(lia) ltac:(lia) ltac:(lia)) as Hlo.
    pose proof (Hmono (ticks st + j)%nat (ticks st + 30)%nat
                  ltac:(lia) ltac:(lia) ltac:(lia)) as Hhi.
    apply (setDate_during (timezone env) offset _ _ _) in Hd; [exact Hd | |].
    - apply Hutc. unfold Date.msPerDay. lia.
    - apply Hlocal. unfold Date.msPerDay. lia. }
  apply StronglySorted_lookup. intros j k a b Hjk Ha Hb.
  assert (Hk : (k < 31)%nat) by (rewrite <- Hlen; apply lookup_lt_Some with b; exact Hb).
  destruct (Hall j ltac:(lia)) as (a' & Ha' & Hga).
  destruct (Hall k ltac:(lia)) as (b' & Hb' & Hgb).
  rewrite Ha in Ha'. injection Ha' as <-. rewrite Hb in Hb'. injection Hb' as <-.
  unfold byDate. rewrite (Hdate j a ltac:(lia) Hga), (Hdate k b ltac:(lia) Hgb).
  apply window_dates_lt; [lia | apply Hmono; lia | apply Hrange; lia | apply Hrange; lia].
Qed.

(** C3, as the code has it: a synthesized history has exactly 31 points in
    ascending order of their dates; every price that is a number is at
    least round(0.6 x basePrice), where basePrice is the mean of the parsed
    offer prices when the provider answered with at least one offer and
    250 otherwise; and the dates are strictly ascending when the host is
    steady during the 31 clock readings of the loop, the last ones of
    [getPriceHistory]: the zone offset is constant from 30 days before
    the first of them to the last, the clock does not go back and the
    window lies within the years 0000 to 9999. *)
Theorem getPriceHistory_synthesized env flightId origin destination st h st' :
  getPriceHistory env flightId origin destination st = (Ok h, st') ->
  h <> [] ->
  exists log token dateStr,
    let basePrice :=
      Spec.basePrice
        (offers_endpoint env log
           (GetFlightOffers
              [ ("originLocationCode", origin);
                ("destinationLocationCode", destination);
                ("departureDate", dateStr);
                ("adults", "1");
                ("max", "5") ] token)) in
    List.length h = 31%nat /\
    Sorted (fun a b => String.leb (PriceHistory.date a) (PriceHistory.date b) = true) h /\
    Forall (fun p =>
              Num.is_nan (PriceHistory.price p) = false ->
              Num.ge (PriceHistory.price p)
                     (Num.Math_round (Num.mul basePrice Num.n0_6)) = true) h /\
    (steadyDuring env (ticks st' - 31) (ticks st' - 1) ->
     StronglySorted
       (fun a b => String.ltb (PriceHistory.date a) (PriceHistory.date b) = true) h).
Proof.
  intros Hrun Hne.
  apply getPriceHistory_window in Hrun
    as (st1 & token & tomorrow & history & _ & _ & Hloop & ->); [|exact Hne].
  cbv zeta in Hloop.
  exists (requests st1), token, (date_of (Date.toISOString tomorrow)). cbv zeta.
  pose proof (history_points _ _ _ _ _ _ Hloop) as (hs & Ehs & Hlen & Hall).
  cbn [app] in Ehs. subst hs.
  pose proof (historyLoop_ticks _ _ _ _ _ _ _ Hloop) as Hticks.
  split; [|split; [|split]].
  - rewrite (Permutation_length (sort_perm byDate history)). exact Hlen.
  - eapply Sorted_impl; [|apply sort_Sorted, byDate_antisym].
    intros a b Hab. unfold byDate in Hab. unfold String.leb.
    destruct (String.compare _ _); congruence.
  - eapply Permutation_Forall; [symmetry; apply sort_perm|].
    eapply Forall_impl; [exact Hall|].
    intros p (tick & draw & k & _ & (d & _ & _ & ->)). apply Math_max_ge.
  - intros Hsteady.
    assert (Hs : StronglySorted (fun a b => byDate a b = Lt) history).
    { eapply history_during; [|exact Hloop].
      replace (ticks st' - 31)%nat with
        (ticks (set_requests
                  (GetFlightOffers
                     [ ("originLocationCode", origin);
                       ("destinationLocationCode", destination);
                       ("departureDate", date_of (Date.toISOString tomorrow));
                       ("adults", "1");
                       ("max", "5") ] token :: requests st1)
                  (set_ticks (S (ticks st1)) st1))) in Hsteady by lia.
      replace (ticks st' - 1)%nat with
        (ticks (set_requests
                  (GetFlightOffers
                     [ ("originLocationCode", origin);
                       ("destinationLocationCode", destination);
                       ("departureDate", date_of (Date.toISOString tomorrow));
                       ("adults", "1");
                       ("max", "5") ] token :: requests st1)
                  (set_ticks (S (ticks st1)) st1)) + 30)%nat in Hsteady by lia.
      exact Hsteady. }
    rewrite (sort_ordered byDate byDate_antisym history Hs).
    eapply StronglySorted_impl; [|exact Hs].
    intros a b Hab. unfold byDate in Hab. unfold String.ltb. rewrite Hab. reflexivity.
Qed.

Lemma getPriceHistory_synthesized_witness :
  exists h st',
    getPriceHistory Scenario.winterHost "flight" "JFK" "LAX" Scenario.fresh = (Ok h, st') /\
    ~ steady Scenario.winterHost /\
    List.length h = 31%nat /\
    Sorted (fun a b => String.leb (PriceHistory.date a) (PriceHistory.date b) = true) h /\
    Forall (fun p =>
              Num.is_nan (PriceHistory.price p) = false ->
              Num.ge (PriceHistory.price p)
                (Num.Math_round
                   (Num.mul (Spec.basePrice (Scenario.priced "199.99")) Num.n0_6)) = true) h /\
    StronglySorted
      (fun a b => String.ltb (PriceHistory.date a) (PriceHistory.date b) = true) h.
Proof.
  eexists. eexists. split; [vm_compute; reflexivity|].
  split.
  { intros ((offset & Hoff) & _).
    destruct (Hoff 0) as [H0 _]. destruct (Hoff 1750000000000) as [H1 _].
    vm_compute in H0, H1. congruence. }
  match goal with
  | |- List.length ?h = _ /\ _ =>
      destruct (getPriceHistory_synthesized
                  Scenario.winterHost
                  "flight" "JFK" "LAX" Scenario.fresh h _
                  ltac:(vm_compute; reflexivity) ltac:(discriminate))
        as (log & token & dateStr & Hlen & Hsorted & Hprice & Hstrict)
  end.
  split; [exact Hlen|]. split; [exact Hsorted|]. split; [exact Hprice|].
  apply Hstrict. split; [|split].
  - exists 0. cbn [clock timezone Scenario.winterHost Scenario.host
                   Date.LocalTZA_utc Date.LocalTZA_local Scenario.london].
    unfold Scenario.midwinter, Date.msPerDay.
    split; intros t Ht.
    + destruct (1743296400000 <=? t) eqn:E; [apply Z.leb_le in E; lia | reflexivity].
    + destruct (1743300000000 <=? t) eqn:E; [apply Z.leb_le in E; lia | reflexivity].
  - intros n m _ _ _. reflexivity.
  - intros n _ _. vm_compute. split; [discriminate | reflexivity].
Defined.

(** ** The urgency factor *)

Lemma localDay_eq env tick k :
  localDay env tick k
  = Date.Day (Date.LocalTime (timezone env) (clock env tick)) - Z.of_nat k.
Proof.
  unfold localDay. rewrite DateFacts.setDateLocal_getDate.
  unfold Date.Day, Date.msPerDay. Z.to_euclidean_division_equations. lia.
Qed.

Lemma urgencyMultiplier_distance k :
  (k <= 30)%nat ->
  urgencyMultiplier (Z.of_nat k) = Spec.urgencyByDistance (30 - Z.of_nat k).
Proof.
  intros Hk. unfold urgencyMultiplier, Spec.urgencyByDistance.
  replace (Z.abs (Z.of_nat k - 30)) with (30 - Z.of_nat k) by lia. reflexivity.
Qed.




(** ** The price graph *)

Lemma slice_last_app {A} (n : nat) (l s : list A) :
  (List.length s <= n)%nat ->
  Js.slice_last n (l ++ s) = (Js.slice_last (n - List.length s) l ++ s)%list.
Proof.
  intros Hs. unfold Js.slice_last. rewrite length_app.
  rewrite drop_app_le by lia. f_equal. f_equal. lia.
Qed.

Lemma item_last_two {A} (l : list A) (a b : A) :
  Js.item (l ++ [a; b]) (Z.of_nat (List.length (l ++ [a; b])) - 1) = Some b /\
  Js.item (l ++ [a; b]) (Z.of_nat (List.length (l ++ [a; b])) - 2) = Some a.
Proof.
  unfold Js.item. rewrite length_app. cbn [List.length].
  split.
  - replace (Z.of_nat (List.length l + 2) - 1 <? 0) with false by (symmetry; apply Z.ltb_ge; lia).
    replace (Z.to_nat (Z.of_nat (List.length l + 2) - 1)) with (S (List.length l)) by lia.
    change (l ++ [a; b])%list with (l ++ a :: [b])%list.
    rewrite lookup_app_r by lia.
    replace (S (List.length l) - List.length l)%nat with 1%nat by lia. reflexivity.
  - replace (Z.of_nat (List.length l + 2) - 2 <? 0) with false by (symmetry; apply Z.ltb_ge; lia).
    replace (Z.to_nat (Z.of_nat (List.length l + 2) - 2)) with (List.length l) by lia.
    apply list_lookup_middle. reflexivity.
Qed.

(** X20: The trend badge is absent exactly for a history of fewer than two
    points; otherwise it compares the last point with the one before it,
    a price of zero or NaN counting as 0, and the seven-point window
    plays no part. *)
Theorem getPriceTrend_last_two :
  (forall h, PriceGraph.getPriceTrend h = None <-> (List.length h < 2)%nat) /\
  (forall l a b,
     PriceGraph.getPriceTrend (l ++ [a; b]) =
     let current := PriceGraph.priceOr0 (Some b) in
     let previous := PriceGraph.priceOr0 (Some a) in
     Some (if Js.gt current previous then PriceGraph.up
           else if Js.lt current previous then PriceGraph.down
           else PriceGraph.stable)).
Proof.
  split.
  - intros h. unfold PriceGraph.getPriceTrend.
    destruct (Nat.ltb_spec (List.length h) 2) as [Hlt|Hge].
    + split; [intros _; exact Hlt | reflexivity].
    + split; [|lia].
      destruct (Js.gt _ _); [discriminate|]. destruct (Js.lt _ _); discriminate.
  - intros l a b. unfold PriceGraph.getPriceTrend.
    replace (List.length (l ++ [a; b]) <? 2)%nat with false
      by (symmetry; apply Nat.ltb_ge; rewrite length_app; simpl; lia).
    rewrite (slice_last_app 7 l [a; b]) by (simpl; lia).
    destruct (item_last_two (Js.slice_last (7 - List.length [a; b]) l) a b) as [-> ->].
    cbv zeta. destruct (Js.gt _ _); [reflexivity|]. destruct (Js.lt _ _); reflexivity.
Qed.

(** X21: The range shown under the graph: absent for an empty history; NaN on
    both sides as soon as one price is NaN; otherwise two prices of the
    history that bound every price. *)
Theorem getPriceRange_bounds h :
  match PriceGraph.getPriceRange h with
  | None => h = []
  | Some (lo, hi) =>
      h <> [] /\
      if forallb (fun p => negb (Num.is_nan (PriceHistory.price p))) h then
        (exists p, In p h /\ PriceHistory.price p = lo) /\
        (exists p, In p h /\ PriceHistory.price p = hi) /\
        Forall (fun p => Js.le lo (PriceHistory.price p) = true /\
                         Js.le (PriceHistory.price p) hi = true) h
      else lo = Num.NaN /\ hi = Num.NaN
  end.
Proof.
  unfold PriceGraph.getPriceRange. destruct h as [|p0 h]; [reflexivity|].
  cbn [List.length Nat.eqb]. split; [discriminate|].
  destruct (forallb _ (p0 :: h)) eqn:Hall.
  - assert (Hnan : Forall (fun v => Num.is_nan v = false)
                     (map PriceHistory.price (p0 :: h))).
    { rewrite forallb_forall in Hall. apply List.Forall_forall. intros v Hv.
      apply in_map_iff in Hv as (p & <- & Hp). apply Hall in Hp.
      apply negb_true_iff in Hp. exact Hp. }
    cbn [map] in Hnan.
    destruct (Math_min_bound _ _ Hnan) as [Hmin Hlo].
    destruct (Math_max_bound _ _ Hnan) as [Hmax Hhi].
    change (PriceHistory.price p0 :: map PriceHistory.price h)
      with (map PriceHistory.price (p0 :: h)) in *.
    apply in_map_iff in Hmin as (pmin & Emin & Hpmin).
    apply in_map_iff in Hmax as (pmax & Emax & Hpmax).
    split; [eauto|]. split; [eauto|].
    rewrite List.Forall_forall in Hlo, Hhi. apply List.Forall_forall. intros p Hp.
    split; [apply Hlo | apply Hhi]; apply in_map; exact Hp.
  - assert (Hex : Exists (fun v => Num.is_nan v = true) (map PriceHistory.price (p0 :: h))).
    { apply List.Exists_exists.
      assert (Hn : exists p, In p (p0 :: h) /\ Num.is_nan (PriceHistory.price p) = true).
      { clear -Hall. induction (p0 :: h) as [|p l IH]; [discriminate|].
        cbn [forallb] in Hall. apply andb_false_iff in Hall as [Hp|Hl].
        - exists p. split; [left; reflexivity | apply negb_false_iff, Hp].
        - destruct (IH Hl) as (q & Hq & Hnq). exists q. split; [right; exact Hq | exact Hnq]. }
      destruct Hn as (p & Hp & Hnp). exists (PriceHistory.price p).
      split; [apply in_map; exact Hp | exact Hnp]. }
    split; [apply lowest_from_nan | apply highest_from_nan]; exact Hex.
Qed.

Lemma getPriceHistory_loop env flightId origin destination st h st' :
  getPriceHistory env flightId origin destination st = (Ok h, st') ->
  h <> [] ->
  exists basePrice history s,
    historyLoop env basePrice 30 [] s = (Ok history, st') /\
    h = sort byDate history.
Proof.
  unfold getPriceHistory, try_catch.
  match goal with
  | |- context [match ?c st with _ => _ end] => destruct (c st) as [[out|e] s0] eqn:Erun
  end.
  2:{ unfold ret. intros [= <- <-] Hne. congruence. }
  intros [= <- <-] _.
  apply bind_Ok in Erun as (_ & s1 & _ & Erun).
  apply bind_Ok in Erun as (token & s2 & _ & Erun).
  apply bind_Ok in Erun as (currentDate & s3 & _ & Erun).
  apply bind_Ok in Erun as (dateStr & s4 & _ & Erun).
  apply bind_Ok in Erun as (response & s5 & _ & Erun).
  apply bind_Ok in Erun as (basePrice & s6 & _ & Erun).
  apply bind_Ok in Erun as (history & s7 & Hloop & Erun).
  unfold ret in Erun. injection Erun as <- <-. eauto.
Qed.

Lemma iso_date_Day t1 t2 : Date.Day t1 = Date.Day t2 -> Date.iso_date t1 = Date.iso_date t2.
Proof.
  intros H. unfold Date.iso_date, Date.DateFromTime, Date.MonthFromTime, Date.InLeapYear,
    Date.DayWithinYear, Date.YearFromTime. rewrite H. reflexivity.
Qed.

(** A day of the window is not after the day of a later clock reading. *)
Lemma window_date_le c c' (k : nat) :
  (k <= 30)%nat -> c <= c' ->
  (Date.DayFromYear 0 + 30) * Date.msPerDay <= c ->
  c' < Date.DayFromYear 10000 * Date.msPerDay ->
  String.compare (Date.iso_date (c - Z.of_nat k * Date.msPerDay)) (Date.iso_date c') <> Gt.
Proof.
  intros Hk Hc Hlo Hhi.
  assert (Hd : Date.Day (c - Z.of_nat k * Date.msPerDay) <= Date.Day c')
    by (unfold Date.Day, Date.msPerDay in *; Z.to_euclidean_division_equations; lia).
  destruct (Z.eq_dec (Date.Day (c - Z.of_nat k * Date.msPerDay)) (Date.Day c')) as [E|N].
  - rewrite (iso_date_Day _ _ E), DateFacts.string_compare_refl. discriminate.
  - rewrite DateFacts.iso_date_lt; [discriminate | lia | |];
      change (Date.DayFromYear 0) with (-719528) in *;
      change (Date.DayFromYear 10000) with 2932897 in *;
      unfold Date.Day, Date.msPerDay in *; Z.to_euclidean_division_equations; lia.
Qed.

(** X22: The history never reaches past the day of the clock: on a host whose
    zone offset is constant and whose clock does not go back, a departure
    date after the UTC date of the next clock reading matches no point, so
    no price is shown for the selected date. *)
Theorem getCurrentPrice_future env flightId origin destination st h st' departureDate :
  steady env ->
  getPriceHistory env flightId origin destination st = (Ok h, st') ->
  String.compare (Date.iso_date (clock env (ticks st'))) departureDate = Lt ->
  PriceGraph.getCurrentPrice h departureDate = None.
Proof.
  intros Hsteady Hrun Hafter. unfold PriceGraph.getCurrentPrice.
  destruct (List.find _ h) as [selectedData|] eqn:Hfind; [exfalso | reflexivity].
  apply find_some in Hfind as [Hin Hdate]. apply String.eqb_eq in Hdate.
  assert (Hne : h <> []) by (intros ->; inversion Hin).
  apply getPriceHistory_loop in Hrun as (basePrice & history & s & Hloop & ->); [|exact Hne].
  apply (Permutation_in _ (sort_perm byDate history)) in Hin.
  pose proof (historyLoop_ticks _ _ _ _ _ _ _ Hloop) as Hticks.
  apply historyLoop_inv in Hloop as (points & Epoints & Hlen & Hall). cbn [app] in Epoints.
  subst points.
  apply In_nth_error in Hin as [j Hj].
  assert (Hj' : history !! j = Some selectedData).
  { clear -Hj. revert j Hj. induction history as [|x l IH]; intros [|j]; simpl; try discriminate; auto. }
  assert (Hjlt : (j < 31)%nat) by (rewrite <- Hlen; eapply lookup_lt_Some; exact Hj').
  destruct (Hall j ltac:(lia)) as (p & Hp & Hgen).
  rewrite Hj' in Hp. injection Hp as <-.
  pose proof (generatedAt_steady _ _ _ _ _ _ Hsteady Hgen) as Hiso.
  destruct Hsteady as (_ & Hmono & Hrange).
  apply (window_date_le (clock env (ticks s + j)) (clock env (ticks st')) (30 - j)); try lia.
  - apply Hmono. lia.
  - apply Hrange.
  - apply Hrange.
  - rewrite <- Hiso, Hdate. rewrite String.compare_antisym, Hafter. reflexivity.
Qed.

Lemma getCurrentPrice_future_witness :
  exists h st',
    getPriceHistory Scenario.steadyHost "flight" "JFK" "LAX" Scenario.fresh = (Ok h, st') /\
    PriceGraph.getCurrentPrice h "2025-04-11" = None.
Proof.
  destruct (getPriceHistory Scenario.steadyHost "flight" "JFK" "LAX" Scenario.fresh)
    as [[h|e] st'] eqn:Hrun.
  - exists h, st'. split; [reflexivity|].
    apply (getCurrentPrice_future Scenario.steadyHost "flight" "JFK" "LAX" Scenario.fresh h st').
    + apply steady_scenario. vm_compute. split; [discriminate | reflexivity].
    + exact Hrun.
    + change (clock Scenario.steadyHost (ticks st')) with Scenario.noon.
      vm_compute. reflexivity.
  - exfalso. apply (f_equal fst) in Hrun. vm_compute in Hrun. discriminate.
Defined.

(** X23: What the component holds once the history has loaded: never an
    error, since [getPriceHistory] catches every exception itself; the
    loading flag is down; and the placeholder is shown exactly when the
    service returned the empty history. *)
Theorem loadPriceHistory_settles env origin destination graph st :
  exists h st',
    getPriceHistory env "mock-flight-1" origin destination st = (Ok h, st') /\
    PriceGraph.loadPriceHistory env origin destination graph st
    = ({| PriceGraph.priceHistory := h; PriceGraph.isLoading := false;
          PriceGraph.error := None |}, st') /\
    (PriceGraph.unavailable (fst (PriceGraph.loadPriceHistory env origin destination graph st))
     = true <-> h = []).
Proof.
  unfold PriceGraph.loadPriceHistory. cbv zeta.
  destruct (getPriceHistory env "mock-flight-1" origin destination st) as [[h|e] st'] eqn:Hrun.
  - exists h, st'. split; [reflexivity|]. split; [reflexivity|].
    unfold PriceGraph.unavailable. cbn [fst PriceGraph.error PriceGraph.priceHistory].
    destruct h; [split; reflexivity | split; discriminate].
  - exfalso. revert Hrun. unfold getPriceHistory, try_catch.
    match goal with
    | |- context [match ?c st with _ => _ end] => destruct (c st) as [[out|e'] s0]
    end; unfold ret; discriminate.
Qed.

(** ** The list of flights on display *)

Lemma filter_filter {A} (f g : A -> bool) l :
  List.filter f (List.filter g l) = List.filter (fun x => g x && f x) l.
Proof.
  induction l as [|x l IH]; [reflexivity|]. cbn [List.filter].
  destruct (g x); cbn [List.filter andb]; [destruct (f x)|]; rewrite IH; reflexivity.
Qed.

Lemma filter_all {A} (f : A -> bool) l :
  (forall x, In x l -> f x = true) -> List.filter f l = l.
Proof.
  induction l as [|x l IH]; intros H; [reflexivity|]. cbn [List.filter].
  rewrite (H x (or_introl eq_refl)), IH; [reflexivity|]. intros y Hy. apply H. right. exact Hy.
Qed.

Lemma filter_none {A} (f : A -> bool) l :
  (forall x, In x l -> f x = false) -> List.filter f l = [].
Proof.
  induction l as [|x l IH]; intros H; [reflexivity|]. cbn [List.filter].
  rewrite (H x (or_introl eq_refl)). apply IH. intros y Hy. apply H. right. exact Hy.
Qed.

(** The effect sorts the flights that pass the filters. *)
Lemma filteredFlights_sort localeCompare flights filters :
  App.filteredFlights localeCompare flights filters
  = sort (App.compareFlights localeCompare (App.sortBy filters))
      (List.filter (App.passes filters) flights).
Proof.
  unfold App.filteredFlights. cbv zeta. f_equal.
  assert (Ha : (if (0 <? List.length (App.airlines filters))%nat
                then List.filter
                       (fun flight =>
                          existsb (String.eqb (FlightOffer.airline flight))
                            (App.airlines filters)) flights
                else flights)
               = List.filter
                   (fun flight =>
                      match App.airlines filters with
                      | [] => true
                      | _ => existsb (String.eqb (FlightOffer.airline flight))
                               (App.airlines filters)
                      end) flights).
  { destruct (App.airlines filters); [symmetry; apply filter_all; reflexivity | reflexivity]. }
  rewrite Ha.
  match goal with
  | |- List.filter ?p (if _ then List.filter ?s ?l else ?l) = _ =>
      assert (Hs : (if (0 <? List.length (App.stops filters))%nat then List.filter s l else l)
                   = List.filter
                       (fun flight =>
                          match App.stops filters with
                          | [] => true
                          | _ => existsb (Z.eqb (FlightOffer.stops flight)) (App.stops filters)
                          end) l)
  end.
  { destruct (App.stops filters); [symmetry; apply filter_all; reflexivity | reflexivity]. }
  rewrite Hs, !filter_filter. apply List.filter_ext. intros flight.
  unfold App.passes. rewrite ?andb_assoc. reflexivity.
Qed.

(** X24: The flights on display are, up to their order, exactly the flights of
    the search that pass every active filter; none of them has a NaN
    price. *)
Theorem filteredFlights_members localeCompare flights filters :
  Permutation (App.filteredFlights localeCompare flights filters)
              (List.filter (App.passes filters) flights) /\
  (forall flight,
     In flight (App.filteredFlights localeCompare flights filters) <->
     In flight flights /\ App.passes filters flight = true) /\
  Forall (fun flight => Num.is_nan (FlightOffer.price flight) = false)
         (App.filteredFlights localeCompare flights filters).
Proof.
  rewrite filteredFlights_sort.
  assert (Hperm := sort_perm (App.compareFlights localeCompare (App.sortBy filters))
                     (List.filter (App.passes filters) flights)).
  assert (Hin : forall flight,
            In flight (sort (App.compareFlights localeCompare (App.sortBy filters))
                         (List.filter (App.passes filters) flights)) <->
            In flight flights /\ App.passes filters flight = true).
  { intros flight. rewrite <- filter_In. split; apply Permutation_in;
      [exact Hperm | symmetry; exact Hperm]. }
  split; [exact Hperm|]. split; [exact Hin|].
  apply List.Forall_forall. intros flight Hf. apply Hin in Hf as [_ Hp].
  unfold App.passes in Hp. apply andb_true_iff in Hp as [_ Hp].
  apply andb_true_iff in Hp as [_ Hle]. apply SFleb_not_nan in Hle. tauto.
Qed.

Lemma insert_sorted_ext {A} (cmp cmp' : A -> A -> comparison) x l :
  (forall y, In y l -> cmp x y = cmp' x y) ->
  insert_sorted cmp x l = insert_sorted cmp' x l.
Proof.
  induction l as [|y l IH]; intros H; [reflexivity|]. cbn [insert_sorted].
  rewrite <- (H y (or_introl eq_refl)), IH; [reflexivity|].
  intros z Hz. apply H. right. exact Hz.
Qed.

Lemma sort_ext {A} (cmp cmp' : A -> A -> comparison) l :
  (forall a b, In a l -> In b l -> cmp a b = cmp' a b) ->
  sort cmp l = sort cmp' l.
Proof.
  unfold sort. intros H.
  assert (Hgen : forall k acc,
            (forall a b, In a (acc ++ k) -> In b (acc ++ k) -> cmp a b = cmp' a b) ->
            fold_left (fun acc x => insert_sorted cmp x acc) k acc
            = fold_left (fun acc x => insert_sorted cmp' x acc) k acc).
  { induction k as [|x k IH]; intros acc Hacc; [reflexivity|]. cbn [fold_left].
    rewrite (insert_sorted_ext cmp cmp' x acc).
    - apply IH. intros a b Ha Hb. apply Hacc.
      + apply in_app_iff in Ha as [Ha|Ha].
        * apply (Permutation_in _ (insert_sorted_perm cmp' x acc)) in Ha.
          apply in_app_iff. destruct Ha as [<-|Ha]; [right; left; reflexivity | left; exact Ha].
        * apply in_app_iff. right. right. exact Ha.
      + apply in_app_iff in Hb as [Hb|Hb].
        * apply (Permutation_in _ (insert_sorted_perm cmp' x acc)) in Hb.
          apply in_app_iff. destruct Hb as [<-|Hb]; [right; left; reflexivity | left; exact Hb].
        * apply in_app_iff. right. right. exact Hb.
    - intros y Hy. apply Hacc; apply in_app_iff; [right; left; reflexivity | left; exact Hy]. }
  apply Hgen. exact H.
Qed.

Lemma priceOrder_antisym a b : App.priceOrder a b = CompOpp (App.priceOrder b a).
Proof.
  unfold App.priceOrder.
  destruct (SFcompare (FlightOffer.price a) (FlightOffer.price b)) as [c|] eqn:E.
  - rewrite (SFcompare_antisym _ _ _ E), CompOpp_involutive. reflexivity.
  - destruct (SFcompare (FlightOffer.price b) (FlightOffer.price a)) as [c|] eqn:E';
      [|reflexivity].
    apply SFcompare_antisym in E'. congruence.
Qed.

Lemma Sorted_prices l :
  Forall (fun flight => Num.is_nan (FlightOffer.price flight) = false) l ->
  Sorted (fun a b => App.priceOrder a b <> Gt) l ->
  StronglySorted (fun a b => Js.le (FlightOffer.price a) (FlightOffer.price b) = true) l.
Proof.
  intros Hnan Hs. apply Sorted_StronglySorted.
  - intros a b c. unfold Js.le. apply SFleb_trans.
  - induction Hs as [|a l Hs IH Hhd]; constructor.
    + apply IH. inversion Hnan; assumption.
    + inversion Hnan as [|? ? Ha Hl]; subst.
      destruct Hhd as [|b l Hab]; constructor.
      inversion Hl as [|? ? Hb _]; subst.
      unfold App.priceOrder in Hab. unfold Js.le, SFleb.
      destruct (SFcompare (FlightOffer.price a) (FlightOffer.price b)) as [[| |]|] eqn:E;
        try reflexivity; try congruence.
      destruct (FlightOffer.price a), (FlightOffer.price b); discriminate.
Qed.

(** X25: Sorted by price, the flights on display stand in ascending order of
    their prices (every flight costs no more than any flight after it),
    whenever the prices of the search are doubles. *)
Theorem filteredFlights_by_price localeCompare flights filters :
  App.sortBy filters = App.price ->
  Forall (fun flight => SpecFloat.valid_binary prec emax (FlightOffer.price flight) = true)
         flights ->
  StronglySorted
    (fun a b => Js.le (FlightOffer.price a) (FlightOffer.price b) = true)
    (App.filteredFlights localeCompare flights filters).
Proof.
  intros Hby Hvalid. rewrite filteredFlights_sort, Hby.
  set (shown := List.filter (App.passes filters) flights).
  assert (Hshown : forall flight, In flight shown ->
            SpecFloat.valid_binary prec emax (FlightOffer.price flight) = true /\
            Num.is_nan (FlightOffer.price flight) = false).
  { intros flight Hf. apply filter_In in Hf as [Hin Hp]. split.
    - rewrite List.Forall_forall in Hvalid. apply Hvalid, Hin.
    - unfold App.passes in Hp. apply andb_true_iff in Hp as [_ Hp].
      apply andb_true_iff in Hp as [_ Hle]. apply SFleb_not_nan in Hle. tauto. }
  rewrite (sort_ext (App.compareFlights localeCompare App.price) App.priceOrder shown).
  - apply Sorted_prices.
    + apply List.Forall_forall. intros flight Hf.
      apply (Permutation_in _ (sort_perm App.priceOrder shown)) in Hf.
      apply Hshown, Hf.
    + apply sort_Sorted. apply priceOrder_antisym.
  - intros a b Ha Hb. destruct (Hshown a Ha) as [Va Na]. destruct (Hshown b Hb) as [Vb Nb].
    unfold App.compareFlights, App.priceOrder.
    destruct (SFcompare (FlightOffer.price a) (FlightOffer.price b)) as [c|] eqn:E.
    + apply order_sub; assumption.
    + destruct (FlightOffer.price a), (FlightOffer.price b); discriminate.
Qed.

Lemma filteredFlights_by_price_witness :
  App.filteredFlights String.compare [Case.dear; Case.cheap; Case.middling] App.defaultFilters
  = [Case.cheap; Case.middling; Case.dear] /\
  StronglySorted
    (fun a b => Js.le (FlightOffer.price a) (FlightOffer.price b) = true)
    (App.filteredFlights String.compare [Case.dear; Case.cheap; Case.middling]
       App.defaultFilters).
Proof.
  split; [vm_compute; reflexivity|].
  apply filteredFlights_by_price; [reflexivity|].
  repeat constructor.
Defined.

(** X26: Sorted by duration or by departure time, the flights on display
    stand in the order of the host's collation of those strings (no
    flight collates after a flight that follows it), for a collation that
    is a consistent comparator: antisymmetric and transitive. *)
Theorem filteredFlights_collated localeCompare flights filters :
  (forall s t, localeCompare s t = CompOpp (localeCompare t s)) ->
  (forall s t u, localeCompare s t <> Gt -> localeCompare t u <> Gt ->
                 localeCompare s u <> Gt) ->
  match App.sortBy filters with
  | App.price => True
  | App.duration =>
      StronglySorted
        (fun a b => localeCompare (FlightOffer.duration a) (FlightOffer.duration b) <> Gt)
        (App.filteredFlights localeCompare flights filters)
  | App.departure =>
      StronglySorted
        (fun a b =>
           localeCompare (FlightOffer.time (FlightOffer.departure a))
                         (FlightOffer.time (FlightOffer.departure b)) <> Gt)
        (App.filteredFlights localeCompare flights filters)
  end.
Proof.
  intros Hanti Htrans. rewrite filteredFlights_sort.
  destruct (App.sortBy filters); [exact I| |].
  - apply Sorted_StronglySorted; [intros a b c; apply Htrans|].
    apply (sort_Sorted (App.compareFlights localeCompare App.duration)).
    intros a b. apply Hanti.
  - apply Sorted_StronglySorted; [intros a b c; apply Htrans|].
    apply (sort_Sorted (App.compareFlights localeCompare App.departure)).
    intros a b. apply Hanti.
Qed.

Lemma string_compare_trans s : forall t u,
  String.compare s t <> Gt -> String.compare t u <> Gt -> String.compare s u <> Gt.
Proof.
  induction s as [|a s IH]; intros [|b t] [|c u]; cbn [String.compare];
    try congruence; try discriminate.
  unfold Ascii.compare.
  destruct (N.compare_spec (N_of_ascii a) (N_of_ascii b)) as [Eab|Lab|Gab];
    destruct (N.compare_spec (N_of_ascii b) (N_of_ascii c)) as [Ebc|Lbc|Gbc];
    destruct (N.compare_spec (N_of_ascii a) (N_of_ascii c)) as [Eac|Lac|Gac];
    try congruence; try discriminate; try lia.
  apply IH.
Qed.

Lemma filteredFlights_collated_witness :
  StronglySorted
    (fun a b => String.compare (FlightOffer.duration a) (FlightOffer.duration b) <> Gt)
    (App.filteredFlights String.compare [Case.dear; Case.cheap; Case.middling]
       {| App.airlines := []; App.stops := [];
          App.priceRange := (S754_zero false, Num.of_Z 2000);
          App.sortBy := App.duration |}).
Proof.
  exact (filteredFlights_collated String.compare [Case.dear; Case.cheap; Case.middling]
           {| App.airlines := []; App.stops := [];
              App.priceRange := (S754_zero false, Num.of_Z 2000);
              App.sortBy := App.duration |}
           String.compare_antisym string_compare_trans).
Defined.

(** X27: After the price range has been set from the flights of a search,
    with no airline and no stops box checked: every flight is on display
    when no price is NaN, and no flight at all as soon as one price is
    NaN. *)
Theorem updatePriceRange_display localeCompare flights prev :
  flights <> [] ->
  App.airlines prev = [] -> App.stops prev = [] ->
  let filters := App.updatePriceRange flights prev in
  if forallb (fun flight => negb (Num.is_nan (FlightOffer.price flight))) flights
  then Permutation (App.filteredFlights localeCompare flights filters) flights
  else App.filteredFlights localeCompare flights filters = [].
Proof.
  intros Hne Hair Hstops filters. rewrite filteredFlights_sort.
  assert (Hf : filters =
               {| App.airlines := []; App.stops := [];
                  App.priceRange := (Js.Math_min (map FlightOffer.price flights),
                                     Js.Math_max (map FlightOffer.price flights));
                  App.sortBy := App.sortBy prev |}).
  { unfold filters, App.updatePriceRange. destruct flights as [|f0 fs]; [congruence|].
    cbn [List.length Nat.ltb Nat.leb]. rewrite Hair, Hstops. reflexivity. }
  destruct flights as [|f0 fs]; [congruence|].
  destruct (forallb _ (f0 :: fs)) eqn:Hall.
  - rewrite sort_perm. rewrite filter_all; [reflexivity|].
    assert (Hnan : Forall (fun v => Num.is_nan v = false)
                     (map FlightOffer.price (f0 :: fs))).
    { rewrite forallb_forall in Hall. apply List.Forall_forall. intros v Hv.
      apply in_map_iff in Hv as (p & <- & Hp). apply Hall in Hp.
      apply negb_true_iff in Hp. exact Hp. }
    cbn [map] in Hnan.
    destruct (Math_min_bound _ _ Hnan) as [_ Hlo].
    destruct (Math_max_bound _ _ Hnan) as [_ Hhi].
    change (FlightOffer.price f0 :: map FlightOffer.price fs)
      with (map FlightOffer.price (f0 :: fs)) in *.
    rewrite List.Forall_forall in Hlo, Hhi.
    intros flight Hin. rewrite Hf. unfold App.passes, Num.ge, Js.le.
    cbn [App.airlines App.stops App.priceRange fst snd andb].
    rewrite Hlo, Hhi by (apply in_map; exact Hin). reflexivity.
  - rewrite filter_none; [reflexivity|].
    assert (Hex : Exists (fun v => Num.is_nan v = true) (map FlightOffer.price (f0 :: fs))).
    { apply List.Exists_exists.
      assert (Hn : exists p, In p (f0 :: fs) /\ Num.is_nan (FlightOffer.price p) = true).
      { clear -Hall. induction (f0 :: fs) as [|p l IH]; [discriminate|].
        cbn [forallb] in Hall. apply andb_false_iff in Hall as [Hp|Hl].
        - exists p. split; [left; reflexivity | apply negb_false_iff, Hp].
        - destruct (IH Hl) as (q & Hq & Hnq). exists q. split; [right; exact Hq | exact Hnq]. }
      destruct Hn as (p & Hp & Hnp). exists (FlightOffer.price p).
      split; [apply in_map; exact Hp | exact Hnp]. }
    intros flight Hin. rewrite Hf. unfold App.passes, Num.ge.
    cbn [App.airlines App.stops App.priceRange fst snd andb].
    unfold Js.Math_min. rewrite (lowest_from_nan _ _ Hex).
    destruct (FlightOffer.price flight); reflexivity.
Qed.

Lemma updatePriceRange_display_witness :
  Permutation
    (App.filteredFlights String.compare [Case.dear; Case.cheap; Case.middling]
       (App.updatePriceRange [Case.dear; Case.cheap; Case.middling] App.defaultFilters))
    [Case.dear; Case.cheap; Case.middling] /\
  App.filteredFlights String.compare [Case.dear; Case.unpriced; Case.cheap]
    (App.updatePriceRange [Case.dear; Case.unpriced; Case.cheap] App.defaultFilters) = [].
Proof.
  split.
  - exact (updatePriceRange_display String.compare [Case.dear; Case.cheap; Case.middling]
             App.defaultFilters ltac:(discriminate) eq_refl eq_refl).
  - exact (updatePriceRange_display String.compare [Case.dear; Case.unpriced; Case.cheap]
             App.defaultFilters ltac:(discriminate) eq_refl eq_refl).
Defined.

(** ** The filter boxes *)

Lemma distinct_spec l : forall seen,
  NoDup (Js.distinct seen l) /\
  forall a, In a (Js.distinct seen l) <-> In a l /\ ~ In a seen.
Proof.
  induction l as [|x l IH]; intros seen.
  - split; [constructor|]. intros a. cbn. tauto.
  - cbn [Js.distinct]. destruct (existsb (String.eqb x) seen) eqn:Ex.
    + apply existsb_exists in Ex as (y & Hy & Exy). apply String.eqb_eq in Exy. subst y.
      destruct (IH seen) as [Hnd Hin]. split; [exact Hnd|].
      intros a. rewrite Hin. cbn [In]. split; [tauto|].
      intros [[<-|Ha] Hns]; [contradiction | tauto].
    + assert (Hx : ~ In x seen).
      { intros Hin. assert (existsb (String.eqb x) seen = true); [|congruence].
        apply existsb_exists. exists x. split; [exact Hin | apply String.eqb_refl]. }
      destruct (IH (x :: seen)) as [Hnd Hin]. split.
      * apply NoDup_cons. split; [|exact Hnd].
        rewrite list_elem_of_In, Hin. cbn [In]. tauto.
      * intros a. cbn [In]. rewrite Hin. cbn [In].
        destruct (string_dec x a) as [<-|Hne]; [tauto|]. tauto.
Qed.

(** X28: The airline boxes: one box for every airline of the flights of the
    search, no airline twice and none that no flight has. *)
Theorem airlineOptions_distinct flights :
  NoDup (App.airlineOptions flights) /\
  forall airline,
    In airline (App.airlineOptions flights) <->
    exists flight, In flight flights /\ FlightOffer.airline flight = airline.
Proof.
  unfold App.airlineOptions.
  destruct (distinct_spec (map FlightOffer.airline flights) []) as [Hnd Hin].
  split; [exact Hnd|]. intros airline. rewrite Hin, in_map_iff. cbn [In].
  split.
  - intros [(f & Hf & Hi) _]. eauto.
  - intros (f & Hi & Hf). split; [eauto | tauto].
Qed.

(** X29: Checking the box of an airline selects it and unchecking it removes
    it altogether, so the box shows the state it was put in; and checking
    then unchecking the box of an airline that was not selected gives
    back the filters as they were. The same holds of the stops boxes. *)
Theorem toggle_round_trip prev :
  (forall airline,
     existsb (String.eqb airline) (App.airlines (App.toggleAirline airline true prev)) = true /\
     existsb (String.eqb airline) (App.airlines (App.toggleAirline airline false prev)) = false /\
     (existsb (String.eqb airline) (App.airlines prev) = false ->
      App.toggleAirline airline false (App.toggleAirline airline true prev) = prev)) /\
  (forall n,
     existsb (Z.eqb n) (App.stops (App.toggleStops n true prev)) = true /\
     existsb (Z.eqb n) (App.stops (App.toggleStops n false prev)) = false /\
     (existsb (Z.eqb n) (App.stops prev) = false ->
      App.toggleStops n false (App.toggleStops n true prev) = prev)).
Proof.
  destruct prev as [airlines stops range by_]. split.
  - intros airline. cbn [App.toggleAirline App.airlines App.stops App.priceRange App.sortBy].
    split; [|split].
    + rewrite existsb_app. cbn. rewrite String.eqb_refl. rewrite orb_true_r. reflexivity.
    + induction airlines as [|a l IH]; [reflexivity|]. cbn [List.filter].
      destruct (String.eqb a airline) eqn:E; cbn [negb existsb]; [exact IH|].
      rewrite String.eqb_sym, E. exact IH.
    + intros Hnot. f_equal. rewrite List.filter_app. cbn [List.filter].
      rewrite String.eqb_refl. cbn [negb]. rewrite app_nil_r.
      apply filter_all. intros a Ha. apply negb_true_iff.
      destruct (String.eqb a airline) eqn:E; [|reflexivity].
      apply String.eqb_eq in E. subst a.
      assert (existsb (String.eqb airline) airlines = true); [|congruence].
      apply existsb_exists. exists airline. split; [exact Ha | apply String.eqb_refl].
  - intros n. cbn [App.toggleStops App.airlines App.stops App.priceRange App.sortBy].
    split; [|split].
    + rewrite existsb_app. cbn. rewrite Z.eqb_refl. rewrite orb_true_r. reflexivity.
    + induction stops as [|a l IH]; [reflexivity|]. cbn [List.filter].
      destruct (Z.eqb a n) eqn:E; cbn [negb existsb]; [exact IH|].
      rewrite Z.eqb_sym, E. exact IH.
    + intros Hnot. f_equal. rewrite List.filter_app. cbn [List.filter].
      rewrite Z.eqb_refl. cbn [negb]. rewrite app_nil_r.
      apply filter_all. intros a Ha. apply negb_true_iff.
      destruct (Z.eqb a n) eqn:E; [|reflexivity].
      apply Z.eqb_eq in E. subst a.
      assert (existsb (Z.eqb n) stops = true); [|congruence].
      apply existsb_exists. exists n. split; [exact Ha | apply Z.eqb_refl].
Qed.

Lemma toggle_round_trip_witness :
  App.toggleAirline "UA" false (App.toggleAirline "UA" true App.defaultFilters)
  = App.defaultFilters /\
  App.toggleStops 1 false (App.toggleStops 1 true App.defaultFilters) = App.defaultFilters.
Proof.
  split.
  - apply (toggle_round_trip App.defaultFilters). reflexivity.
  - apply (toggle_round_trip App.defaultFilters). reflexivity.
Defined.

(** ** Searching *)

(** X30: [handleSearch] does nothing at all while the origin, the destination
    or the departure date is empty. Otherwise, with a token at hand, it
    sends one request, which carries the two codes in upper case, and
    settles with the loading flag down: the flights are the normalised
    offers of a success response, and none on every failure (no response,
    a non-success status, a body that does not parse, or one offer that
    cannot be normalised). *)
Theorem handleSearch_settles env app st :
  let form := App.searchForm app in
  (origin form = "" \/ destination form = "" \/ departureDate form = "" ->
   App.handleSearch env app st = (app, st)) /\
  (origin form <> "" -> destination form <> "" -> departureDate form <> "" ->
   forall token st1,
     (loadStoredToken env ;;; getAccessToken env) st = (Ok token, st1) ->
     exists query st',
       App.handleSearch env app st
       = ({| App.searchForm := form;
             App.flights :=
               match offers_endpoint env (requests st1) (GetFlightOffers query token) with
               | Responded true _ _ (Some data) =>
                   match Amadeus.offers data with
                   | Some l => match normalize_from 0 l with
                               | Ok results => results
                               | Thrown _ => []
                               end
                   | None => []
                   end
               | _ => []
               end;
             App.isLoading := false; App.hasSearched := true |}, st') /\
       requests st' = GetFlightOffers query token :: requests st1 /\
       In ("originLocationCode", Js.toUpperCase (origin form)) query /\
       In ("destinationLocationCode", Js.toUpperCase (destination form)) query).
Proof.
  cbv zeta. split.
  - unfold App.handleSearch. cbv zeta. intros [-> | [-> | ->]].
    + reflexivity.
    + destruct (origin (App.searchForm app)); reflexivity.
    + destruct (origin (App.searchForm app)); [reflexivity|].
      destruct (destination (App.searchForm app)); reflexivity.
  - intros Ho Hd Hdate token st1 Hacq.
    unfold App.handleSearch. cbv zeta.
    destruct (origin (App.searchForm app)) as [|c1 r1] eqn:Eo; [congruence|].
    destruct (destination (App.searchForm app)) as [|c2 r2] eqn:Ed; [congruence|].
    destruct (departureDate (App.searchForm app)) as [|c3 r3] eqn:Edate; [congruence|].
    rewrite (searchFlights_run env _ st token st1 Hacq).
    cbn [origin destination departureDate returnDate passengers roundtrip].
    match goal with
    | |- context [offers_endpoint env (requests st1) (GetFlightOffers ?q token)] =>
        exists q
    end.
    eexists. split; [|split; [|split]].
    + destruct (offers_endpoint env (requests st1) _) as [|[|] s t [data|]];
        try reflexivity.
      destruct (Amadeus.offers data) as [l|]; [|reflexivity].
      destruct (normalize_from 0 l); reflexivity.
    + destruct st1; reflexivity.
    + left. reflexivity.
    + right. left. reflexivity.
Qed.

Lemma handleSearch_settles_witness :
  exists st',
    App.handleSearch (Case.offering (Case.found [Scenario.offerX]))
      {| App.searchForm :=
           {| origin := "jfk"; destination := "lax"; departureDate := "2024-06-01";
              returnDate := Some ""; passengers := 1; roundtrip := true |};
         App.flights := []; App.isLoading := false; App.hasSearched := false |}
      Scenario.fresh
    = ({| App.searchForm :=
            {| origin := "jfk"; destination := "lax"; departureDate := "2024-06-01";
               returnDate := Some ""; passengers := 1; roundtrip := true |};
          App.flights := [Scenario.normalizedX];
          App.isLoading := false; App.hasSearched := true |}, st') /\
    exists query,
      requests st' = [GetFlightOffers query "tok"; PostToken "client" "secret"] /\
      In ("originLocationCode", "JFK") query /\ In ("destinationLocationCode", "LAX") query.
Proof.
  destruct ((loadStoredToken (Case.offering (Case.found [Scenario.offerX])) ;;;
             getAccessToken (Case.offering (Case.found [Scenario.offerX])))
              Scenario.fresh) as [r st1] eqn:Hacq.
  assert (Hr : r = Ok "tok")
    by (apply (f_equal fst) in Hacq; cbn [fst] in Hacq; rewrite <- Hacq;
        vm_compute; reflexivity).
  subst r.
  assert (Hreq : requests st1 = [PostToken "client" "secret"])
    by (apply (f_equal (fun p => requests (snd p))) in Hacq; cbn [snd] in Hacq;
        rewrite <- Hacq; vm_compute; reflexivity).
  destruct (handleSearch_settles (Case.offering (Case.found [Scenario.offerX]))
              {| App.searchForm :=
                   {| origin := "jfk"; destination := "lax"; departureDate := "2024-06-01";
                      returnDate := Some ""; passengers := 1; roundtrip := true |};
                 App.flights := []; App.isLoading := false; App.hasSearched := false |}
              Scenario.fresh) as [_ Hrun].
  destruct (Hrun ltac:(discriminate) ltac:(discriminate) ltac:(discriminate) "tok" st1 Hacq)
    as (query & st' & Happ & Hlog & Ho & Hd).
  exists st'. split.
  - rewrite Happ. reflexivity.
  - exists query. rewrite Hlog, Hreq. auto.
Defined.
